(** * Tile-coordinate extraction of [WholeSlideImage] (wsi.py)

    A shallow embedding of the pyramid index, the contour filter, the
    per-contour grid generator, the dispatcher and the construction of the
    slide context of [src/unicorn_baseline/vision/pathology/wsi.py].

    Conventions of the embedding.
    - Python [int] is [Z]. A Python [float] is a binary64 number, held as
      the rational [Q] it denotes; every float operation rounds its exact
      result to the nearest binary64 number, ties to even ([binary64]).
      The exponent range is not bounded: no overflow to infinity, no
      subnormal numbers, no NaN. [int(x)] on a float truncates toward zero;
      an integer that meets a float in an operation is first rounded to a
      float ([py_float]).
    - The areas [cv2.contourArea] returns are multiples of 1/2, far below
      2^52; their sums and differences are exact in binary64 and are
      written without rounding.
    - A Python exception is a value of [exn]; float division raises
      [ZeroDivisionError] on a zero divisor, list indexing follows Python
      (negative indices count from the end, [IndexError] out of range).
    - The mutable state a [WholeSlideImage] and its module share between
      calls ([_level_spacing_cache], [_printed_warning], [_warning_lock] and
      the printed diagnostics) is reached through the atomic actions of a
      small program monad [prog]; [run] executes a program alone,
      [executor_step] interleaves the programs of several threads.
    - OpenCV and the tissue checker of [wsi_utils] are not part of the file;
      they are the operations of the classes [Cv2] and [TissueChecker]. *)

From Stdlib Require Import ZArith QArith Qabs Lia List Permutation Sorted.
From stdpp Require Import base option list gmap.

Local Open Scope Z_scope.

(** ** Python values *)

Inductive exn : Type :=
| IndexError
| KeyError
| ZeroDivisionError
| TypeError
| ValueError
| AssertionError
| AxisError       (* numpy.exceptions.AxisError *)
| TypingError.    (* numba.core.errors.TypingError *)

Definition Qlt_bool (x y : Q) : bool := negb (Qle_bool y x).

(** [int(x)] for a float [x]: truncation toward zero. *)
Definition py_int (x : Q) : Z := Z.quot (Qnum x) (Zpos (Qden x)).

Definition Qz (z : Z) : Q := inject_Z z.

(** *** Floats *)

(** The integer nearest to [n / d], ties to the even one ([0 <= n]). *)
Definition round_half_even (n : Z) (d : positive) : Z :=
  let q := n / Zpos d in
  match 2 * (n mod Zpos d) ?= Zpos d with
  | Lt => q
  | Gt => q + 1
  | Eq => if Z.even q then q else q + 1
  end.

(** The exponent [e] with [2^e <= n / d < 2^(e+1)], for [0 < n]. *)
Definition binade (n : Z) (d : positive) : Z :=
  let e0 := Z.log2 n - Z.log2 (Zpos d) in
  let below :=
    if 0 <=? e0 then n <? Zpos d * 2 ^ e0 else n * 2 ^ (- e0) <? Zpos d in
  if below then e0 - 1 else e0.

(** The binary64 number nearest to [n / d], ties to even, for [0 < n]: 53
    significant bits. *)
Definition binary64_pos (n : Z) (d : positive) : Q :=
  let shift := binade n d - 52 in
  if 0 <=? shift
  then inject_Z (round_half_even n (d * Z.to_pos (2 ^ shift)) * 2 ^ shift)
  else round_half_even (n * 2 ^ (- shift)) d # Z.to_pos (2 ^ (- shift)).

(** The binary64 number nearest to [x], ties to even: what a float
    operation returns for the exact result [x], and what a decimal literal
    denotes. *)
Definition binary64 (x : Q) : Q :=
  match Qnum (Qred x) with
  | Z0 => 0%Q
  | Zpos n => Qred (binary64_pos (Zpos n) (Qden (Qred x)))
  | Zneg n => Qred (- binary64_pos (Zpos n) (Qden (Qred x)))
  end.

(** [float(z)] for an integer [z], also where an integer meets a float in
    an arithmetic operation. *)
Definition py_float (z : Z) : Q := binary64 (Qz z).

(** [a - b] and [a * b] on floats. *)
Definition fsub (a b : Q) : Q := binary64 (a - b).
Definition fmul (a b : Q) : Q := binary64 (a * b).

(** [l[i]] for a Python list or tuple. *)
Definition py_index {A} (l : list A) (i : Z) : option A :=
  let n := Z.of_nat (length l) in
  if 0 <=? i then l !! Z.to_nat i
  else if - n <=? i then l !! Z.to_nat (n + i)
  else None.

(** [l[:m]] for a Python list. *)
Definition py_take {A} (m : Z) (l : list A) : list A :=
  if 0 <=? m then take (Z.to_nat m) l
  else take (Z.to_nat (Z.of_nat (length l) + m)) l.

(** The diagnostic printed on a tolerance miss: the three numbers that are
    formatted into the message. *)
Record warning_msg : Type := {
  msg_tolerance : Q;
  msg_target_spacing : Q;
  msg_level_spacing : Q;
}.

(** ** Shared mutable state and the program monad *)

Record state : Type := {
  level_spacing_cache : gmap Z Q;   (* self._level_spacing_cache *)
  printed_warning : bool;           (* _printed_warning *)
  warning_lock : bool;              (* _warning_lock is held *)
  printed : list warning_msg;       (* what print() has written, oldest first *)
}.

Definition initial_state : state :=
  {| level_spacing_cache := ∅; printed_warning := false;
     warning_lock := false; printed := [] |}.

Inductive prog (A : Type) : Type :=
| Ret (a : A)
| Raise (e : exn)
| CacheContains (level : Z) (k : bool -> prog A)
| CacheStore (level : Z) (v : Q) (k : prog A)
| CacheLoad (level : Z) (k : Q -> prog A)
| LockAcquire (k : prog A)
| LockRelease (k : prog A)
| ReadPrinted (k : bool -> prog A)
| WritePrinted (b : bool) (k : prog A)
| Print (m : warning_msg) (k : prog A).

Arguments Ret {A} a.
Arguments Raise {A} e.
Arguments CacheContains {A} level k.
Arguments CacheStore {A} level v k.
Arguments CacheLoad {A} level k.
Arguments LockAcquire {A} k.
Arguments LockRelease {A} k.
Arguments ReadPrinted {A} k.
Arguments WritePrinted {A} b k.
Arguments Print {A} m k.

Fixpoint bind {A B} (p : prog A) (f : A -> prog B) : prog B :=
  match p with
  | Ret a => f a
  | Raise e => Raise e
  | CacheContains l k => CacheContains l (fun b => bind (k b) f)
  | CacheStore l v k => CacheStore l v (bind k f)
  | CacheLoad l k => CacheLoad l (fun v => bind (k v) f)
  | LockAcquire k => LockAcquire (bind k f)
  | LockRelease k => LockRelease (bind k f)
  | ReadPrinted k => ReadPrinted (fun b => bind (k b) f)
  | WritePrinted b k => WritePrinted b (bind k f)
  | Print m k => Print m (bind k f)
  end.

(** [try: p  except Exception: pass], then [f]. *)
Fixpoint finally {A B} (p : prog A) (f : prog B) : prog B :=
  match p with
  | Ret _ => f
  | Raise _ => f
  | CacheContains l k => CacheContains l (fun b => finally (k b) f)
  | CacheStore l v k => CacheStore l v (finally k f)
  | CacheLoad l k => CacheLoad l (fun v => finally (k v) f)
  | LockAcquire k => LockAcquire (finally k f)
  | LockRelease k => LockRelease (finally k f)
  | ReadPrinted k => ReadPrinted (fun b => finally (k b) f)
  | WritePrinted b k => WritePrinted b (finally k f)
  | Print m k => Print m (finally k f)
  end.

Declare Scope prog_scope.
Delimit Scope prog_scope with prog.
Notation "'let*' x := p 'in' q" := (bind p (fun x => q))
  (at level 10, x name, p at level 100, q at level 200) : prog_scope.
Notation "'let*' ' pat := p 'in' q" :=
  (bind p (fun x => match x with pat => q end))
  (at level 10, pat pattern, p at level 100, q at level 200) : prog_scope.
Notation "p ;;; q" := (bind p (fun _ => q))
  (at level 100, q at level 200, right associativity) : prog_scope.
Local Open Scope prog_scope.

(** The outcome of running a program alone. *)
Inductive outcome (A : Type) : Type :=
| Ok (a : A)
| Exc (e : exn)
| Blocked.   (* waits for a lock that is never released *)

Arguments Ok {A} a.
Arguments Exc {A} e.
Arguments Blocked {A}.

Definition set_cache (s : state) (c : gmap Z Q) : state :=
  {| level_spacing_cache := c; printed_warning := printed_warning s;
     warning_lock := warning_lock s; printed := printed s |}.
Definition set_printed_warning (s : state) (b : bool) : state :=
  {| level_spacing_cache := level_spacing_cache s; printed_warning := b;
     warning_lock := warning_lock s; printed := printed s |}.
Definition set_lock (s : state) (b : bool) : state :=
  {| level_spacing_cache := level_spacing_cache s;
     printed_warning := printed_warning s;
     warning_lock := b; printed := printed s |}.
Definition add_printed (s : state) (m : warning_msg) : state :=
  {| level_spacing_cache := level_spacing_cache s;
     printed_warning := printed_warning s;
     warning_lock := warning_lock s; printed := printed s ++ [m] |}.

(** One atomic action of a thread: [None] when the program has finished or
    waits for the lock. *)
Definition exec1 {A} (s : state) (p : prog A) : option (state * prog A) :=
  match p with
  | Ret _ => None
  | Raise _ => None
  | CacheContains l k =>
      Some (s, k (bool_decide (is_Some (level_spacing_cache s !! l))))
  | CacheStore l v k => Some (set_cache s (<[l := v]> (level_spacing_cache s)), k)
  | CacheLoad l k =>
      match level_spacing_cache s !! l with
      | Some v => Some (s, k v)
      | None => Some (s, Raise KeyError)
      end
  | LockAcquire k => if warning_lock s then None else Some (set_lock s true, k)
  | LockRelease k => Some (set_lock s false, k)
  | ReadPrinted k => Some (s, k (printed_warning s))
  | WritePrinted b k => Some (set_printed_warning s b, k)
  | Print m k => Some (add_printed s m, k)
  end.

(** A program run alone, to the end. *)
Fixpoint run {A} (s : state) (p : prog A) : outcome A * state :=
  match p with
  | Ret a => (Ok a, s)
  | Raise e => (Exc e, s)
  | CacheContains l k =>
      run s (k (bool_decide (is_Some (level_spacing_cache s !! l))))
  | CacheStore l v k => run (set_cache s (<[l := v]> (level_spacing_cache s))) k
  | CacheLoad l k =>
      match level_spacing_cache s !! l with
      | Some v => run s (k v)
      | None => (Exc KeyError, s)
      end
  | LockAcquire k => if warning_lock s then (Blocked, s) else run (set_lock s true) k
  | LockRelease k => run (set_lock s false) k
  | ReadPrinted k => run s (k (printed_warning s))
  | WritePrinted b k => run (set_printed_warning s b) k
  | Print m k => run (add_printed s m) k
  end.

Definition finished {A} (p : prog A) : bool :=
  match p with
  | Ret _ | Raise _ => true
  | _ => false
  end.

(** [ThreadPoolExecutor(max_workers)] working on the submitted tasks [ts]:
    the workers take tasks in submission order, so a task makes a step only
    while fewer than [max_workers] unfinished tasks precede it; one step of
    the executor is one atomic action of one task. *)
Inductive executor_step {A} (max_workers : nat)
  : state * list (prog A) -> state * list (prog A) -> Prop :=
| executor_step_task s ts i p s' p' :
    ts !! i = Some p ->
    (length (List.filter (fun q => negb (finished q)) (take i ts)) < max_workers)%nat ->
    exec1 s p = Some (s', p') ->
    executor_step max_workers (s, ts) (s', <[i := p']> ts).

Inductive executor_steps {A} (max_workers : nat)
  : state * list (prog A) -> state * list (prog A) -> Prop :=
| executor_steps_refl c : executor_steps max_workers c c
| executor_steps_step c1 c2 c3 :
    executor_steps max_workers c1 c2 ->
    executor_step max_workers c2 c3 ->
    executor_steps max_workers c1 c3.

(** What a finished task hands back. *)
Definition result_of {A} (p : prog A) : outcome A :=
  match p with
  | Ret a => Ok a
  | Raise e => Exc e
  | _ => Blocked
  end.

(** [a / b] on floats. *)
Definition py_div (a b : Q) : prog Q :=
  if Qeq_bool b 0 then Raise ZeroDivisionError else Ret (binary64 (a / b)).

Definition index {A} (l : list A) (i : Z) : prog A :=
  match py_index l i with
  | Some a => Ret a
  | None => Raise IndexError
  end.

Fixpoint map_prog {A B} (f : A -> prog B) (l : list A) : prog (list B) :=
  match l with
  | [] => Ret []
  | a :: l' =>
      let* b := f a in
      let* bs := map_prog f l' in
      Ret (b :: bs)
  end.

(** ** External collaborators *)

(** A contour is the sequence of its points; a mask is a grid of pixels. *)
Definition contour : Type := list (Z * Z).
Definition mask : Type := list (list Z).

(** Row of the hierarchy array of [cv2.findContours]:
    [next, previous, first_child, parent]. *)
Definition hierarchy_row : Type := (Z * Z * Z * Z)%type.

Class Cv2 : Type := {
  contourArea : contour -> Q;
  boundingRect : contour -> Z * Z * Z * Z;
  pointPolygonTest : contour -> Q * Q -> Q;
  (* [cv2.findContours(mask, cv2.RETR_CCOMP, cv2.CHAIN_APPROX_NONE)]: the
     contours and the rows of [hierarchy[0]]; the hierarchy is [None] when
     the mask holds no contour *)
  findContours : mask -> list contour * option (list hierarchy_row);
  (* what the cast of a float array to [int32] stores for a value outside
     the range of [int32] (it depends on the platform) *)
  int32_out_of_range : Q -> Z;
}.

(** [HasEnoughTissue(contour, contour_holes, tissue_mask, tile_size, scale,
    pct).check_coordinates(coords)] of [wsi_utils]. *)
Class TissueChecker : Type := {
  check_coordinates :
    contour -> list contour -> mask -> Z -> Q * Q -> Q ->
    list (Z * Z) -> list bool * list Q;
}.

(** ** The slide context *)

Record slide : Type := {
  spacings : list Q;                  (* self.spacings *)
  level_dimensions : list (Z * Z);    (* self.level_dimensions *)
  level_downsamples : list (Q * Q);   (* self.level_downsamples *)
  seg_level : Z;                      (* self.seg_level *)
  binary_mask : mask;                 (* self.binary_mask *)
}.

Definition get_downsamples (dims : list (Z * Z)) : prog (list (Q * Q)) :=
  let* dim_0 := index dims 0 in
  map_prog (fun dim : Z * Z =>
    let* dx := py_div (py_float (fst dim_0)) (py_float (fst dim)) in
    let* dy := py_div (py_float (snd dim_0)) (py_float (snd dim)) in
    Ret (dx, dy)) dims.

Definition get_level_spacing (sl : slide) (level : Z) : prog Q :=
  CacheContains level (fun present =>
    if present then CacheLoad level Ret
    else
      let* v := index (spacings sl) level in
      CacheStore level v (CacheLoad level Ret)).

(** [np.argmin]: the first index of the least element. *)
Fixpoint argmin_from (best_i : nat) (best : Q) (i : nat) (l : list Q) : nat :=
  match l with
  | [] => best_i
  | x :: l' =>
      if Qlt_bool x best then argmin_from i x (S i) l'
      else argmin_from best_i best (S i) l'
  end.

Definition np_argmin (l : list Q) : prog nat :=
  match l with
  | [] => Raise ValueError
  | x :: l' => Ret (argmin_from 0 x 1 l')
  end.

Definition get_best_level_for_downsample_custom (sl : slide) (downsample : Q)
  : prog nat :=
  np_argmin (map (fun d : Q * Q => Qabs (fsub (fst d) downsample))
                 (level_downsamples sl)).

(** [abs(level_spacing - target_spacing) / target_spacing <= tolerance] *)
Definition within_tolerance (level_spacing target_spacing tolerance : Q)
  : prog bool :=
  let* d := py_div (Qabs (fsub level_spacing target_spacing)) target_spacing in
  Ret (Qle_bool d tolerance).

(** The [while] loop of [get_best_level_for_spacing]; the result is the
    level, its spacing and [is_within_tolerance] when the loop is left. *)
Fixpoint walk_to_finer (sl : slide) (target_spacing tolerance : Q)
    (level : nat) (level_spacing : Q) : prog (nat * Q * bool) :=
  match level with
  | O => Ret (O, level_spacing, false)
  | S level' =>
      if Qlt_bool target_spacing level_spacing then
        let* level_spacing' := get_level_spacing sl (Z.of_nat level') in
        let* ok := within_tolerance level_spacing' target_spacing tolerance in
        if ok then Ret (level', level_spacing', true)
        else walk_to_finer sl target_spacing tolerance level' level_spacing'
      else Ret (level, level_spacing, false)
  end.

(** [with _warning_lock: if not _printed_warning: print(...);
    _printed_warning = True] *)
Definition warn_once (m : warning_msg) : prog unit :=
  LockAcquire (ReadPrinted (fun already =>
    if already then LockRelease (Ret tt)
    else Print m (WritePrinted true (LockRelease (Ret tt))))).

Definition get_best_level_for_spacing (sl : slide)
    (target_spacing tolerance : Q) (verbose : bool) : prog (Z * bool) :=
  let* spacing := get_level_spacing sl 0 in
  let* target_downsample := py_div target_spacing spacing in
  let* level := get_best_level_for_downsample_custom sl target_downsample in
  let* level_spacing := get_level_spacing sl (Z.of_nat level) in
  let* ok := within_tolerance level_spacing target_spacing tolerance in
  if ok then Ret (Z.of_nat level, true)
  else
    let* '(level', level_spacing', is_within_tolerance) :=
      walk_to_finer sl target_spacing tolerance level level_spacing in
    let* ok' := within_tolerance level_spacing' target_spacing tolerance in
    (if negb ok' && verbose
     then warn_once {| msg_tolerance := tolerance;
                       msg_target_spacing := target_spacing;
                       msg_level_spacing := level_spacing' |}
     else Ret tt) ;;;
    Ret (Z.of_nat level', is_within_tolerance).

(** ** Contour filtering *)

Record FilterParams : Type := {
  ref_tile_size : Z;
  a_t : Z;
  a_h : Z;
  max_n_holes : Z;
}.

(** [np.flatnonzero(col == v)] *)
Fixpoint flatnonzero_eq_from (i : Z) (col : list Z) (v : Z) : list Z :=
  match col with
  | [] => []
  | x :: col' =>
      if x =? v then i :: flatnonzero_eq_from (i + 1) col' v
      else flatnonzero_eq_from (i + 1) col' v
  end.

Definition flatnonzero_eq (col : list Z) (v : Z) : list Z :=
  flatnonzero_eq_from 0 col v.

(** [np.array(l).sum()] *)
Definition Qsum (l : list Q) : Q := fold_right Qplus 0%Q l.

(** [sorted(l, key=key, reverse=True)]: stable, largest key first. *)
Fixpoint insert_desc {A} (key : A -> Q) (x : A) (l : list A) : list A :=
  match l with
  | [] => [x]
  | y :: l' =>
      if Qle_bool (key y) (key x) then x :: y :: l'
      else y :: insert_desc key x l'
  end.

Definition sorted_desc {A} (key : A -> Q) (l : list A) : list A :=
  fold_right (insert_desc key) [] l.

Section Filtering.
Context {cv : Cv2}.

(** The cast of a float to [int32]: truncation toward zero for a value in
    the range of [int32]. *)
Definition as_int32 (x : Q) : Z :=
  let z := py_int x in
  if (- 2 ^ 31 <=? z) && (z <? 2 ^ 31) then z else int32_out_of_range x.

(** [np.array(cont * scale, dtype="int32")]; [None * scale] is a
    [TypeError]. *)
Definition scale_contour (scale : Q * Q) (cont : option contour) : prog contour :=
  match cont with
  | None => Raise TypeError
  | Some c =>
      Ret (map (fun pt : Z * Z =>
                  (as_int32 (fmul (py_float (fst pt)) (fst scale)),
                   as_int32 (fmul (py_float (snd pt)) (snd scale)))) c)
  end.

Definition scaleContourDim (contours : list (option contour)) (scale : Q * Q)
  : prog (list contour) :=
  map_prog (scale_contour scale) contours.

Definition scaleHolesDim (contours : list (list contour)) (scale : Q * Q)
  : prog (list (list contour)) :=
  map_prog (fun holes => map_prog (fun hole => scale_contour scale (Some hole)) holes)
           contours.

(** Area of the foreground region of contour [cont]: its area minus
    the areas of the contours [holes]. *)
Definition region_area (contours : list contour) (cont : contour)
    (holes : list Z) : prog Q :=
  let a := contourArea cont in
  let* hole_areas :=
    map_prog (fun hole_idx =>
                let* hole := index contours hole_idx in
                Ret (contourArea hole)) holes in
  Ret (a - Qsum hole_areas)%Q.

(** First loop of [filter_contours], over the foreground indices still to
    visit; [filtered] and [all_holes] are the lists built so far. *)
Fixpoint select_foreground (contours : list contour) (parents : list Z)
    (fp : FilterParams) (todo : list Z)
    (filtered : list Z) (all_holes : list (list Z))
  : prog (list Z * list (list Z)) :=
  match todo with
  | [] => Ret (filtered, all_holes)
  | cont_idx :: todo' =>
      let* cont := index contours cont_idx in
      let holes := flatnonzero_eq parents cont_idx in
      let* a := region_area contours cont holes in
      if Qeq_bool a 0 then
        select_foreground contours parents fp todo' filtered all_holes
      else if Qlt_bool (Qz (a_t fp)) a then
        select_foreground contours parents fp todo'
          (filtered ++ [cont_idx]) (all_holes ++ [holes])
      else
        select_foreground contours parents fp todo' filtered all_holes
  end.

(** [filtered] and [all_holes] after the first loop. *)
Definition foreground_indices (contours : list contour)
    (hierarchy : list (Z * Z)) (fp : FilterParams)
  : prog (list Z * list (list Z)) :=
  let parents := map snd hierarchy in
  let hierarchy_1 := flatnonzero_eq parents (-1) in
  select_foreground contours parents fp hierarchy_1 [] [].

(** Body of the second loop of [filter_contours]. *)
Definition select_holes (contours : list contour) (fp : FilterParams)
    (hole_ids : list Z) : prog (list contour) :=
  let* unfiltered_holes := map_prog (index contours) hole_ids in
  let unfilered_holes := sorted_desc contourArea unfiltered_holes in
  let unfilered_holes := py_take (max_n_holes fp) unfilered_holes in
  Ret (List.filter (fun hole => Qlt_bool (Qz (a_h fp)) (contourArea hole))
                   unfilered_holes).

(** [hierarchy] is the array of rows [first_child, parent]. *)
Definition filter_contours (contours : list contour)
    (hierarchy : list (Z * Z)) (fp : FilterParams)
  : prog (list contour * list (list contour)) :=
  let* '(filtered, all_holes) := foreground_indices contours hierarchy fp in
  let* foreground_contours := map_prog (index contours) filtered in
  let* hole_contours := map_prog (select_holes contours fp) all_holes in
  Ret (foreground_contours, hole_contours).

(** [scale] and [_filter_params] of [detect_contours]. *)
Definition scaled_filter_params (sl : slide) (spacing_level : Z)
    (fp : FilterParams) : prog FilterParams :=
  let* current_scale := index (level_downsamples sl) spacing_level in
  let* target_scale := index (level_downsamples sl) (seg_level sl) in
  let* scale_0 := py_div (fst target_scale) (fst current_scale) in
  let* scale_1 := py_div (snd target_scale) (snd current_scale) in
  let* ratio := py_div (py_float (ref_tile_size fp ^ 2)) (fmul scale_0 scale_1) in
  let scaled_ref_tile_area := py_int ratio in
  Ret {| ref_tile_size := ref_tile_size fp;
         a_t := a_t fp * scaled_ref_tile_area;
         a_h := a_h fp * scaled_ref_tile_area;
         max_n_holes := max_n_holes fp |}.

Definition detect_contours (sl : slide) (target_spacing tolerance : Q)
    (fp : FilterParams) : prog (list contour * list (list contour)) :=
  let* '(spacing_level, _) :=
    get_best_level_for_spacing sl target_spacing tolerance false in
  let* _filter_params := scaled_filter_params sl spacing_level fp in
  let* target_scale := index (level_downsamples sl) (seg_level sl) in
  let '(contours, hierarchy) := findContours (binary_mask sl) in
  (* [np.squeeze(hierarchy, axis=(0,))[:, 2:]] *)
  let* hierarchy :=
    match hierarchy with
    | Some rows =>
        Ret (map (fun r : hierarchy_row =>
                    let '(_, _, first_child, parent) := r in
                    (first_child, parent)) rows)
    | None => Raise AxisError
    end in
  let* '(foreground_contours, hole_contours) :=
    filter_contours contours hierarchy _filter_params in
  let* contours := scaleContourDim (map Some foreground_contours) target_scale in
  let* holes := scaleHolesDim hole_contours target_scale in
  Ret (contours, holes).

End Filtering.

(** ** Tiling *)

Record TilingParams : Type := {
  spacing : Q;
  tolerance : Q;
  tile_size : Z;
  overlap : Q;
  drop_holes : bool;
  min_tissue_ratio : Q;
  use_padding : bool;
}.

(** The 5-tuple returned by [process_contour] and [process_contours]. *)
Record tiles : Type := {
  x_coords : list Z;
  y_coords : list Z;
  tissue_pct : list Q;
  tile_level : option Z;
  resize_factor : option Q;
}.

Definition no_tiles : tiles :=
  {| x_coords := []; y_coords := []; tissue_pct := [];
     tile_level := None; resize_factor := None |}.

(** [np.arange(start, stop, step=step)] on integers. *)
Definition np_arange (start stop step : Z) : prog (list Z) :=
  if step =? 0 then Raise ZeroDivisionError
  else
    let n := Z.to_nat (- ((start - stop) / step)) in   (* ceil((stop-start)/step) *)
    Ret (map (fun i : nat => start + Z.of_nat i * step) (seq 0 n)).

(** [np.array(np.meshgrid(xs, ys, indexing="ij")).reshape(2, -1).T] *)
Definition meshgrid_ij (xs ys : list Z) : list (Z * Z) :=
  flat_map (fun x => map (fun y => (x, y)) ys) xs.

(** [arr[np.array(flags) == 1]] *)
Definition np_select {A} (arr : list A) (flags : list bool) : prog (list A) :=
  if Nat.eqb (length arr) (length flags)
  then Ret (map fst (List.filter snd (combine arr flags)))
  else Raise IndexError.

(** The geometry of the scan of one contour: the locals of
    [process_contour] that fix the candidate grid. *)
Record grid : Type := {
  grid_tile_level : Z;
  grid_resize_factor : Q;
  grid_start : Z * Z;
  grid_stop : Z * Z;
  grid_ref_tile_size : Z * Z;
  grid_ref_step_size : Z * Z;
}.

Section Tiling.
Context {cv : Cv2} {tc : TissueChecker}.

(** [isInHoles] is compiled by [numba.njit] when it is called; numba
    cannot type the call of [cv2.pointPolygonTest] in its body, so the call
    raises [TypingError] and the loop over the holes is never run. *)
Definition isInHoles (holes : list contour) (pt : Z * Z) (tile_size : Z)
  : prog bool :=
  Raise TypingError.

(** [process_contour] up to the choice of the scan bounds. *)
Definition scan_grid (sl : slide) (cont : option contour) (tp : TilingParams)
  : prog grid :=
  let* '(tile_level, is_within_tolerance) :=
    get_best_level_for_spacing sl (spacing tp) (tolerance tp) true in
  let* tile_spacing := get_level_spacing sl tile_level in
  let* resize_factor := py_div (spacing tp) tile_spacing in
  let resize_factor := if is_within_tolerance then 1%Q else resize_factor in
  let tile_size_resized := py_int (fmul (py_float (tile_size tp)) resize_factor) in
  let step_size := py_int (fmul (py_float tile_size_resized) (fsub 1 (overlap tp))) in
  let* '(start_x, start_y, w, h) :=
    match cont with
    | Some c => Ret (boundingRect c)
    | None =>
        let* dim := index (level_dimensions sl) tile_level in
        Ret (0, 0, fst dim, snd dim)
    end in
  let* downsample := index (level_downsamples sl) tile_level in
  let tile_downsample := (py_int (fst downsample), py_int (snd downsample)) in
  let ref_tile_size :=
    (tile_size_resized * fst tile_downsample,
     tile_size_resized * snd tile_downsample) in
  let* '(img_w, img_h) := index (level_dimensions sl) 0 in
  let '(stop_x, stop_y) :=
    if use_padding tp then (start_x + w, start_y + h)
    else (Z.min (start_x + w) (img_w - fst ref_tile_size + 1),
          Z.min (start_y + h) (img_h - snd ref_tile_size + 1)) in
  Ret {| grid_tile_level := tile_level;
         grid_resize_factor := resize_factor;
         grid_start := (start_x, start_y);
         grid_stop := (stop_x, stop_y);
         grid_ref_tile_size := ref_tile_size;
         grid_ref_step_size := (step_size * fst tile_downsample,
                                step_size * snd tile_downsample) |}.

Definition process_contour (sl : slide) (cont : option contour)
    (contour_holes : list contour) (tp : TilingParams) : prog tiles :=
  let* g := scan_grid sl cont tp in
  let* scale := index (level_downsamples sl) (seg_level sl) in
  let* inv_0 := py_div 1 (fst scale) in
  let* inv_1 := py_div 1 (snd scale) in
  let* scaled := scaleContourDim [cont] (inv_0, inv_1) in
  let* cont' := index scaled 0 in
  let* x_range :=
    np_arange (fst (grid_start g)) (fst (grid_stop g)) (fst (grid_ref_step_size g)) in
  let* y_range :=
    np_arange (snd (grid_start g)) (snd (grid_stop g)) (snd (grid_ref_step_size g)) in
  let coord_candidates := meshgrid_ij x_range y_range in
  let '(keep_flags, tissue_pcts) :=
    check_coordinates cont' contour_holes (binary_mask sl)
      (fst (grid_ref_tile_size g)) scale (min_tissue_ratio tp) coord_candidates in
  let* keep_flags :=
    if drop_holes tp then
      (* [flag and not self.isInHoles(...)] for each candidate *)
      map_prog (fun fc : bool * (Z * Z) =>
                  if fst fc then
                    let* inside := isInHoles contour_holes (snd fc)
                                             (fst (grid_ref_tile_size g)) in
                    Ret (negb inside)
                  else Ret false)
               (combine keep_flags coord_candidates)
    else Ret keep_flags in
  let* filtered_coordinates := np_select coord_candidates keep_flags in
  let* filtered_tissue_percentages := np_select tissue_pcts keep_flags in
  if (0 <? Z.of_nat (length filtered_coordinates)) then
    Ret {| x_coords := map fst filtered_coordinates;
           y_coords := map snd filtered_coordinates;
           tissue_pct := filtered_tissue_percentages;
           tile_level := Some (grid_tile_level g);
           resize_factor := Some (grid_resize_factor g) |}
  else Ret no_tiles.

(** The [for ... in results] loop of [process_contours]; [acc] holds the
    running lists, [tile_level] and [resize_factor]. *)
Fixpoint merge_results (results : list tiles) (acc : tiles) : prog tiles :=
  match results with
  | [] => Ret acc
  | r :: results' =>
      if (0 <? Z.of_nat (length (x_coords r))) then
        let merged :=
          {| x_coords := x_coords acc ++ x_coords r;
             y_coords := y_coords acc ++ y_coords r;
             tissue_pct := tissue_pct acc ++ tissue_pct r;
             tile_level := tile_level r;
             resize_factor := resize_factor r |} in
        match tile_level acc with
        | Some level =>
            if bool_decide (tile_level r = Some level)
            then merge_results results' merged
            else Raise AssertionError
        | None => merge_results results' merged
        end
      else merge_results results' acc
  end.

(** [process_single_contour(i)] for [i] in [range(len(contours))]. *)
Definition contour_tasks (sl : slide) (contours : list contour)
    (holes : list (list contour)) (tp : TilingParams) : list (prog tiles) :=
  map (fun i : nat =>
         let* cont := index contours (Z.of_nat i) in
         let* contour_holes := index holes (Z.of_nat i) in
         process_contour sl (Some cont) contour_holes tp)
      (seq 0 (length contours)).

(** [process_contours], the tasks run one after the other. *)
Definition process_contours (sl : slide) (contours : list contour)
    (holes : list (list contour)) (tp : TilingParams) (num_workers : Z)
  : prog tiles :=
  if num_workers <=? 0 then Raise ValueError   (* ThreadPoolExecutor(max_workers) *)
  else
    let* results := map_prog (fun task => task) (contour_tasks sl contours holes tp) in
    merge_results results no_tiles.

Definition tile_size_lv0_of (sl : slide) (tp : TilingParams) : prog Z :=
  let* spacing_0 := get_level_spacing sl 0 in
  let* scale := py_div (spacing tp) spacing_0 in
  Ret (py_int (fmul (py_float (tile_size tp)) scale)).

Definition tiling_result : Type :=
  (list (Z * Z) * list Q * option Z * option Q * Z)%type.

Definition finish_tile_coordinates (tile_size_lv0 : Z) (r : tiles) : tiling_result :=
  (combine (x_coords r) (y_coords r), tissue_pct r, tile_level r,
   resize_factor r, tile_size_lv0).

Definition get_tile_coordinates (sl : slide) (tp : TilingParams)
    (fp : FilterParams) (num_workers : Z) : prog tiling_result :=
  let* tile_size_lv0 := tile_size_lv0_of sl tp in
  let* '(contours, holes) :=
    detect_contours sl (spacing tp) (tolerance tp) fp in
  let* r := process_contours sl contours holes tp num_workers in
  Ret (finish_tile_coordinates tile_size_lv0 r).

End Tiling.

(** [executor.map] followed by [list(...)]: the results in submission
    order, or the exception of the first task that raised. *)
Fixpoint collect {A} (rs : list (outcome A)) : outcome (list A) :=
  match rs with
  | [] => Ok []
  | Ok a :: rs' =>
      match collect rs' with
      | Ok l => Ok (a :: l)
      | Exc e => Exc e
      | Blocked => Blocked
      end
  | Exc e :: _ => Exc e
  | Blocked :: _ => Blocked
  end.

(** ** Specification vocabulary *)

(** Every memoized spacing is the spacing the slide has at that index. *)
Definition cache_ok (sl : slide) (s : state) : Prop :=
  forall l v, level_spacing_cache s !! l = Some v -> py_index (spacings sl) l = Some v.

(** Where a thread stands with respect to [_warning_lock]. *)
Inductive mode : Type :=
| Unlocked       (* does not hold the lock *)
| Locked         (* holds it, has not yet read _printed_warning *)
| Fresh          (* holds it, read False, has not printed *)
| Printing       (* holds it, has printed, flag not yet set *)
| Leaving.       (* holds it, flag is True, about to release *)

(** [yields sl m K p r]: program [p], started in mode [m] by a thread that
    knows the levels [K] to be memoized, follows the locking protocol of
    [warn_once], stores only spacings of the slide into the cache, reads
    only memoized levels from it, and ends with outcome [r] whatever the
    cache and the flag answer. *)
Inductive yields {A} (sl : slide) : mode -> gset Z -> prog A -> outcome A -> Prop :=
| yields_Ret K a : yields sl Unlocked K (Ret a) (Ok a)
| yields_Raise K e : yields sl Unlocked K (Raise e) (Exc e)
| yields_CacheContains K l k r :
    (l ∉ K -> yields sl Unlocked K (k false) r) ->
    (is_Some (py_index (spacings sl) l) -> yields sl Unlocked ({[l]} ∪ K) (k true) r) ->
    yields sl Unlocked K (CacheContains l k) r
| yields_CacheStore K l v k r :
    py_index (spacings sl) l = Some v ->
    yields sl Unlocked ({[l]} ∪ K) k r ->
    yields sl Unlocked K (CacheStore l v k) r
| yields_CacheLoad K l k r :
    l ∈ K ->
    (forall v, py_index (spacings sl) l = Some v -> yields sl Unlocked K (k v) r) ->
    yields sl Unlocked K (CacheLoad l k) r
| yields_LockAcquire K k r :
    yields sl Locked K k r ->
    yields sl Unlocked K (LockAcquire k) r
| yields_ReadPrinted K k r :
    yields sl Leaving K (k true) r ->
    yields sl Fresh K (k false) r ->
    yields sl Locked K (ReadPrinted k) r
| yields_Print K m k r :
    yields sl Printing K k r ->
    yields sl Fresh K (Print m k) r
| yields_WritePrinted K k r :
    yields sl Leaving K k r ->
    yields sl Printing K (WritePrinted true k) r
| yields_LockRelease K k r :
    yields sl Unlocked K k r ->
    yields sl Leaving K (LockRelease k) r.

(** What the flag and the output look like while a thread is in mode [m]
    (for [Unlocked]: while no thread holds the lock). *)
Definition flag_ok (m : mode) (s : state) : Prop :=
  match m with
  | Unlocked | Locked =>
      (printed_warning s = false -> printed s = []) /\ (length (printed s) <= 1)%nat
  | Fresh => printed_warning s = false /\ printed s = []
  | Printing => printed_warning s = false /\ length (printed s) = 1%nat
  | Leaving => printed_warning s = true /\ (length (printed s) <= 1)%nat
  end.

Definition mode_of (holder : option (nat * mode)) (i : nat) : mode :=
  match holder with
  | Some (j, m) => if Nat.eqb i j then m else Unlocked
  | None => Unlocked
  end.

Definition holder_mode (holder : option (nat * mode)) : mode :=
  match holder with
  | Some (_, m) => m
  | None => Unlocked
  end.

(** The invariant of a pool of threads [ts] that end with outcomes [rs]. *)
Definition pool_ok {A} (sl : slide) (rs : list (outcome A))
    (c : state * list (prog A)) : Prop :=
  let '(s, ts) := c in
  cache_ok sl s /\
  length ts = length rs /\
  exists holder : option (nat * mode),
    warning_lock s = bool_decide (is_Some holder) /\
    (forall j m, holder = Some (j, m) -> m <> Unlocked /\ (j < length ts)%nat) /\
    flag_ok (holder_mode holder) s /\
    forall i p r, ts !! i = Some p -> rs !! i = Some r ->
      exists K : gset Z,
        K ⊆ dom (level_spacing_cache s) /\ yields sl (mode_of holder i) K p r.

(** A state between calls: the cache agrees with the slide, the lock is
    free, and the flag is set if the diagnostic was printed. *)
Definition consistent (sl : slide) (s : state) : Prop :=
  cache_ok sl s /\ warning_lock s = false /\ flag_ok Unlocked s.

(** [settled]: the program follows the protocols of [yields] and has one
    outcome, whatever the shared state answers. *)
Definition settled {A} (sl : slide) (K : gset Z) (p : prog A) : Prop :=
  exists r, yields sl Unlocked K p r.

(** ** Example slides *)

(** A pyramid with three levels, the last two of the same resolution. *)
Definition slide_with_twin_levels : slide :=
  {| spacings := [1 # 4; 1 # 2; 1 # 2]%Q;
     level_dimensions := [(1000, 1000); (500, 500); (500, 500)];
     level_downsamples := [(1, 1); (2, 2); (2, 2)]%Q;
     seg_level := 2;
     binary_mask := [] |}.

(** A slide of one level whose spacing is the float 0.1. *)
Definition slide_at_a_tenth : slide :=
  {| spacings := [binary64 (1 # 10)];
     level_dimensions := [(100, 100)];
     level_downsamples := [(1, 1)]%Q;
     seg_level := 0;
     binary_mask := [] |}.

(** A pyramid whose downsamples do not grow with the level. *)
Definition slide_out_of_order : slide :=
  {| spacings := [1 # 4; 1 # 2; 1 # 2; 3 # 4]%Q;
     level_dimensions := [(1200, 1200); (400, 400); (400, 400); (600, 600)];
     level_downsamples := [(1, 1); (3, 3); (3, 3); (2, 2)]%Q;
     seg_level := 0;
     binary_mask := [] |}.

(** A pyramid with three levels of downsamples 1, 4 and 16. *)
Definition slide_1_4_16 : slide :=
  {| spacings := [1 # 4; 1; 4]%Q;
     level_dimensions := [(1600, 1600); (400, 400); (100, 100)];
     level_downsamples := [(1, 1); (4, 4); (16, 16)]%Q;
     seg_level := 2;
     binary_mask := [] |}.

(** ** The contour filter in the words of its description *)

(** [a] ranks before [b] when sorted by decreasing [key]. *)
Definition key_ge {A} (key : A -> Q) (a b : A) : Prop := (key b <= key a)%Q.

Section FilterSpec.
Context {cv : Cv2}.

(** The contours whose parent in the hierarchy is contour [idx]: its
    immediate holes. *)
Definition immediate_holes (contours : list contour) (parents : list Z)
    (idx : Z) : list contour :=
  map fst (List.filter (fun cp : contour * Z => snd cp =? idx)
                       (combine contours parents)).

(** Area of a contour minus the summed area of its immediate holes. *)
Definition net_area (contours : list contour) (parents : list Z)
    (idx : Z) (cont : contour) : Q :=
  (contourArea cont
   - Qsum (map contourArea (immediate_holes contours parents idx)))%Q.

(** The scaled region-area threshold as [detect_contours] computes it,
    for [scale = downsampleOf(seg_level) / downsampleOf(spacing_level)]:
    every quotient and the product are floats, and the scaled reference
    area is cut to an integer. *)
Definition scaled_threshold (threshold ref_tile_size : Z)
    (seg_downsample level_downsample : Q * Q) : Z :=
  let scale_x := binary64 (fst seg_downsample / fst level_downsample) in
  let scale_y := binary64 (snd seg_downsample / snd level_downsample) in
  threshold * py_int (binary64 (py_float (ref_tile_size ^ 2) / fmul scale_x scale_y)).

(** The threshold as a formula over the reals, neither rounded nor cut to
    an integer. *)
Definition scaled_threshold_exact (threshold ref_tile_size : Z)
    (seg_downsample level_downsample : Q * Q) : Q :=
  let scale_x := (fst seg_downsample / fst level_downsample)%Q in
  let scale_y := (snd seg_downsample / snd level_downsample)%Q in
  (Qz threshold * (Qz (ref_tile_size ^ 2) / (scale_x * scale_y)))%Q.

(** What the first loop of [filter_contours] decides for one contour. *)
Definition retains (contours : list contour) (parents : list Z)
    (fp : FilterParams) (idx : Z) : bool :=
  match py_index contours idx with
  | Some cont =>
      let a := net_area contours parents idx cont in
      negb (Qeq_bool a 0) && Qlt_bool (Qz (a_t fp)) a
  | None => false
  end.

End FilterSpec.

(** ** Reference geometry and tissue checker, for the examples *)

Definition contour_edges (c : contour) : list ((Z * Z) * (Z * Z)) :=
  match c with
  | [] => []
  | p :: rest => combine c (rest ++ [p])
  end.

(** Green's formula, as [cv2.contourArea] computes the area of a polygon. *)
Definition polygon_area (c : contour) : Q :=
  let twice :=
    fold_right Z.add 0
      (map (fun e : (Z * Z) * (Z * Z) =>
              let '((x1, y1), (x2, y2)) := e in x1 * y2 - x2 * y1)
           (contour_edges c)) in
  (Qz (Z.abs twice) / 2)%Q.

(** The upright bounding rectangle [x, y, w, h] of integer points. *)
Definition bounding_rect (c : contour) : Z * Z * Z * Z :=
  match c with
  | [] => (0, 0, 0, 0)
  | (x, y) :: rest =>
      let min_x := fold_right Z.min x (map fst rest) in
      let max_x := fold_right Z.max x (map fst rest) in
      let min_y := fold_right Z.min y (map snd rest) in
      let max_y := fold_right Z.max y (map snd rest) in
      (min_x, min_y, max_x - min_x + 1, max_y - min_y + 1)
  end.

(** Even-odd rule: [1] inside, [-1] outside, [0] on an edge. *)
Definition point_polygon_test (c : contour) (pt : Q * Q) : Q :=
  let '(px, py) := pt in
  let on_edge (e : (Z * Z) * (Z * Z)) : bool :=
    let '((x1, y1), (x2, y2)) := e in
    Qeq_bool ((Qz x2 - Qz x1) * (py - Qz y1)) ((Qz y2 - Qz y1) * (px - Qz x1))
    && Qle_bool (Qz (Z.min x1 x2)) px && Qle_bool px (Qz (Z.max x1 x2))
    && Qle_bool (Qz (Z.min y1 y2)) py && Qle_bool py (Qz (Z.max y1 y2)) in
  let crosses (e : (Z * Z) * (Z * Z)) : bool :=
    let '((x1, y1), (x2, y2)) := e in
    negb (Bool.eqb (Qlt_bool py (Qz y1)) (Qlt_bool py (Qz y2)))
    && Qlt_bool px
         (Qz x1 + (py - Qz y1) * (Qz x2 - Qz x1) / (Qz y2 - Qz y1))%Q in
  if existsb on_edge (contour_edges c) then 0%Q
  else if Nat.odd (length (List.filter crosses (contour_edges c))) then 1%Q
  else (-1)%Q.

(** OpenCV on a mask in which [findContours] finds [found]; without a
    contour the hierarchy is [None]. A value out of the range of [int32] is
    stored as [-2^31]. *)
Definition cv2_finding (found : list contour * list hierarchy_row) : Cv2 :=
  {| contourArea := polygon_area;
     boundingRect := bounding_rect;
     pointPolygonTest := point_polygon_test;
     findContours := fun _ =>
       (fst found, match fst found with [] => None | _ => Some (snd found) end);
     int32_out_of_range := fun _ => - 2 ^ 31 |}.

(** A tissue checker that keeps every candidate, with tissue ratio 1. *)
Definition keep_every_tile : TissueChecker :=
  {| check_coordinates := fun _ _ _ _ _ _ coords =>
       (map (fun _ => true) coords, map (fun _ => 1%Q) coords) |}.

(** A pyramid with downsamples 1, 4 and 32, segmented at level 2. *)
Definition slide_1_4_32 : slide :=
  {| spacings := [1 # 4; 1; 8]%Q;
     level_dimensions := [(3200, 3200); (800, 800); (100, 100)];
     level_downsamples := [(1, 1); (4, 4); (32, 32)]%Q;
     seg_level := 2;
     binary_mask := [] |}.

(** One blob without holes: the boundary pixels of a block of 4 x 2 tissue
    pixels, of contour area 3. *)
Definition blob_3 : list contour * list hierarchy_row :=
  ([[(0, 0); (0, 1); (1, 1); (2, 1); (3, 1); (3, 0); (2, 0); (1, 0)]],
   [(-1, -1, -1, -1)]).

Definition filter_2_10 : FilterParams :=
  {| ref_tile_size := 10; a_t := 2; a_h := 1; max_n_holes := 8 |}.

(** A blob of area 400 with three holes of areas 4, 9 and 1. *)
Definition blob_with_holes : list contour :=
  [ [(0, 0); (20, 0); (20, 20); (0, 20)];
    [(1, 1); (3, 1); (3, 3); (1, 3)];
    [(5, 5); (8, 5); (8, 8); (5, 8)];
    [(10, 10); (11, 10); (11, 11); (10, 11)] ].

(** Rows [first_child, parent] of its hierarchy. *)
Definition blob_with_holes_hierarchy : list (Z * Z) :=
  [(1, -1); (-1, 0); (-1, 0); (-1, 0)].

Definition filter_two_holes : FilterParams :=
  {| ref_tile_size := 16; a_t := 100; a_h := 3; max_n_holes := 2 |}.

(** ** The merge loop in the words of its description *)

(** The per-contour results that produced at least one tile. *)
Definition producing (results : list tiles) : list tiles :=
  List.filter (fun r => 0 <? Z.of_nat (length (x_coords r))) results.

(** The running result after the producing results [rs] were added to
    [acc]. *)
Definition merged_onto (acc : tiles) (rs : list tiles) : tiles :=
  fold_left (fun acc r =>
               {| x_coords := x_coords acc ++ x_coords r;
                  y_coords := y_coords acc ++ y_coords r;
                  tissue_pct := tissue_pct acc ++ tissue_pct r;
                  tile_level := tile_level r;
                  resize_factor := resize_factor r |}) rs acc.

(** A result that produced tiles reports the level they were taken at, as
    the results of [process_contour] do. *)
Definition reports_level (r : tiles) : Prop :=
  x_coords r <> [] -> is_Some (tile_level r).

(** The tile levels the [assert] of the loop compares. *)
Definition compared_levels (acc : tiles) (results : list tiles) : list (option Z) :=
  match tile_level acc with
  | Some level => [Some level]
  | None => []
  end ++ map tile_level (producing results).

Definition all_equal {A} (l : list A) : Prop :=
  forall a b, In a l -> In b l -> a = b.

(** Per-contour results: two that produced a tile at levels 1 and 2, and
    the result of a contour without tiles. *)
Definition tiles_at (level : Z) (x y : Z) : tiles :=
  {| x_coords := [x]; y_coords := [y]; tissue_pct := [1%Q];
     tile_level := Some level; resize_factor := Some 1%Q |}.

(** Tiles of 16 pixels at spacing 1, no overlap, padding on. *)
Definition tiling_16_at_1 : TilingParams :=
  {| spacing := 1; tolerance := 0; tile_size := 16; overlap := 0;
     drop_holes := false; min_tissue_ratio := 1 # 4; use_padding := true |}.

(** The same without padding. *)
Definition tiling_16_at_1_unpadded : TilingParams :=
  {| spacing := 1; tolerance := 0; tile_size := 16; overlap := 0;
     drop_holes := false; min_tissue_ratio := 1 # 4; use_padding := false |}.

(** Tiles of 10 pixels at the float 0.3 for the spacing. *)
Definition tiling_10_at_three_tenths : TilingParams :=
  {| spacing := binary64 (3 # 10); tolerance := 0; tile_size := 10; overlap := 0;
     drop_holes := false; min_tissue_ratio := 1 # 4; use_padding := true |}.

(** A filter whose region threshold the blob of area 3 does not reach. *)
Definition filter_100_10 : FilterParams :=
  {| ref_tile_size := 10; a_t := 100; a_h := 1; max_n_holes := 8 |}.

(** A tissue checker that rejects every candidate. *)
Definition keep_no_tile : TissueChecker :=
  {| check_coordinates := fun _ _ _ _ _ _ coords =>
       (map (fun _ => false) coords, map (fun _ => 0%Q) coords) |}.

(** A square blob at the right edge of [slide_1_4_16], in level-0
    coordinates. *)
Definition blob_at_right_edge : contour :=
  [(1500, 0); (1599, 0); (1599, 99); (1500, 99)].

(** ** Threads that call into the slide *)

Inductive call : Type :=
| CallBestLevelForSpacing (target_spacing tolerance : Q) (verbose : bool)
| CallProcessContour (cont : option contour) (contour_holes : list contour)
    (tp : TilingParams).

Section Threads.
Context {cv : Cv2} {tc : TissueChecker}.

Definition call_prog (sl : slide) (c : call) : prog unit :=
  match c with
  | CallBestLevelForSpacing target_spacing tolerance verbose =>
      let* _ := get_best_level_for_spacing sl target_spacing tolerance verbose in
      Ret tt
  | CallProcessContour cont contour_holes tp =>
      let* _ := process_contour sl cont contour_holes tp in
      Ret tt
  end.

(** A thread that makes the calls one after the other and goes on after a
    call that raised. *)
Fixpoint thread_prog (sl : slide) (calls : list call) : prog unit :=
  match calls with
  | [] => Ret tt
  | c :: calls' => finally (call_prog sl c) (thread_prog sl calls')
  end.

End Threads.

(** A call that misses the tolerance on [slide_1_4_16]: the nearest level
    is level 0 with spacing 1/4, far from the target 5/8. *)
Definition call_missing_tolerance : call :=
  CallBestLevelForSpacing (5 # 8) (1 # 128) true.

(** ** A tiling request served by a pool of workers *)

Section Pooled.
Context {cv : Cv2} {tc : TissueChecker}.

(** What [process_contours] does with the results once every task has
    finished: [list(executor.map(...))], the merge loop, and the tuple
    [get_tile_coordinates] returns. *)
Definition join_tasks (tile_size_lv0 : Z) (ts : list (prog tiles))
  : prog tiling_result :=
  let* results := map_prog (fun task => task) ts in
  let* r := merge_results results no_tiles in
  Ret (finish_tile_coordinates tile_size_lv0 r).

(** [get_tile_coordinates] with the contour tasks interleaved by an
    executor of [num_workers] workers; everything outside
    [executor.map] runs in the calling thread. *)
Inductive pooled_tile_coordinates (sl : slide) (tp : TilingParams)
    (fp : FilterParams) (num_workers : Z) (s : state)
  : outcome tiling_result -> state -> Prop :=
| pooled_lv0_raises e s1 :
    run s (tile_size_lv0_of sl tp) = (Exc e, s1) ->
    pooled_tile_coordinates sl tp fp num_workers s (Exc e) s1
| pooled_detect_raises t0 s1 e s2 :
    run s (tile_size_lv0_of sl tp) = (Ok t0, s1) ->
    run s1 (detect_contours sl (spacing tp) (tolerance tp) fp) = (Exc e, s2) ->
    pooled_tile_coordinates sl tp fp num_workers s (Exc e) s2
| pooled_no_worker t0 s1 contours holes s2 :
    run s (tile_size_lv0_of sl tp) = (Ok t0, s1) ->
    run s1 (detect_contours sl (spacing tp) (tolerance tp) fp)
    = (Ok (contours, holes), s2) ->
    num_workers <= 0 ->
    pooled_tile_coordinates sl tp fp num_workers s (Exc ValueError) s2
| pooled_tasks t0 s1 contours holes s2 s3 ts out s4 :
    run s (tile_size_lv0_of sl tp) = (Ok t0, s1) ->
    run s1 (detect_contours sl (spacing tp) (tolerance tp) fp)
    = (Ok (contours, holes), s2) ->
    0 < num_workers ->
    executor_steps (Z.to_nat num_workers)
      (s2, contour_tasks sl contours holes tp) (s3, ts) ->
    Forall (fun t => finished t = true) ts ->
    run s3 (join_tasks t0 ts) = (out, s4) ->
    pooled_tile_coordinates sl tp fp num_workers s out s4.

End Pooled.

(** The outcome of [join_tasks] for tasks that ended with outcomes [rs]. *)
Definition joined (tile_size_lv0 : Z) (rs : list (outcome tiles))
  : outcome tiling_result :=
  match collect rs with
  | Ok results =>
      fst (run initial_state
             (let* r := merge_results results no_tiles in
              Ret (finish_tile_coordinates tile_size_lv0 r)))
  | Exc e => Exc e
  | Blocked => Blocked
  end.

(** Two blobs without holes, of areas 3 and 8, at the segmentation level. *)
Definition two_blobs : list contour * list hierarchy_row :=
  ([[(0, 0); (3, 0); (3, 1); (0, 1)];
    [(10, 10); (14, 10); (14, 12); (10, 12)]],
   [(1, -1, -1, -1); (-1, 0, -1, -1)]).

(** ** Construction of the pyramid *)

(** [get_spacings]: [native] is [self.wsi.spacings], [spacing_at_lvl_0] the
    spacing set by hand, if any. *)
Definition get_spacings (spacing_at_lvl_0 : option Q) (native : list Q)
  : prog (list Q) :=
  match spacing_at_lvl_0 with
  | None => Ret native
  | Some spacing_0 =>
      map_prog (fun s =>
                  let* base := index native 0 in
                  py_div (fmul spacing_0 s) base)
               native
  end.

(** The pyramid of the segmentation mask: [self.mask.spacings] and
    [self.mask.downsamplings]. *)
Record mask_pyramid : Type := {
  mask_spacings : list Q;
  mask_downsamplings : list Q;
}.

(** The levels and spacings [load_segmentation] settles on before it reads
    the mask. *)
Record mask_choice : Type := {
  choice_seg_level : nat;
  choice_seg_spacing : Q;
  choice_mask_level : nat;
  choice_mask_spacing : Q;
  choice_scale : Q;
}.

(** The [while scale < 1 and mask_level > 0] loop of [load_segmentation]. *)
Fixpoint walk_to_finer_mask (m : mask_pyramid) (seg_spacing : Q)
    (mask_level : nat) (mask_spacing scale : Q) : prog (nat * Q * Q) :=
  match mask_level with
  | O => Ret (O, mask_spacing, scale)
  | S mask_level' =>
      if Qlt_bool scale 1 then
        let* mask_spacing' := index (mask_spacings m) (Z.of_nat mask_level') in
        let* scale' := py_div seg_spacing mask_spacing' in
        walk_to_finer_mask m seg_spacing mask_level' mask_spacing' scale'
      else Ret (mask_level, mask_spacing, scale)
  end.

(** [load_segmentation] up to the reading of the mask. *)
Definition load_segmentation_levels (sl : slide) (m : mask_pyramid)
    (downsample : Q) : prog mask_choice :=
  let* mask_spacing_at_level_0 := index (mask_spacings m) 0 in
  let* seg_level := get_best_level_for_downsample_custom sl downsample in
  let* seg_spacing := get_level_spacing sl (Z.of_nat seg_level) in
  let* mask_downsample := py_div seg_spacing mask_spacing_at_level_0 in
  let* mask_level :=
    np_argmin (map (fun x => Qabs (fsub x mask_downsample)) (mask_downsamplings m)) in
  let* mask_spacing := index (mask_spacings m) (Z.of_nat mask_level) in
  let* scale := py_div seg_spacing mask_spacing in
  let* '(mask_level', mask_spacing', scale') :=
    walk_to_finer_mask m seg_spacing mask_level mask_spacing scale in
  Ret {| choice_seg_level := seg_level;
         choice_seg_spacing := seg_spacing;
         choice_mask_level := mask_level';
         choice_mask_spacing := mask_spacing';
         choice_scale := scale' |}.

(** [segment_tissue] up to the reading of the slide: the segmentation level
    and its spacing. *)
Definition segment_tissue_level (sl : slide) (downsample : Q) : prog (nat * Q) :=
  let* seg_level := get_best_level_for_downsample_custom sl downsample in
  let* seg_spacing := get_level_spacing sl (Z.of_nat seg_level) in
  Ret (seg_level, seg_spacing).

(** ** What a call leaves of the shared state *)

(** The flag, the lock and the printed diagnostics are as before. *)
Definition same_output (s s' : state) : Prop :=
  printed_warning s' = printed_warning s /\
  warning_lock s' = warning_lock s /\
  printed s' = printed s.

(** [abs(level_spacing - target_spacing) / target_spacing <= tolerance],
    for a nonzero target. *)
Definition in_tolerance (level_spacing target_spacing tolerance : Q) : Prop :=
  (binary64 (Qabs (fsub level_spacing target_spacing) / target_spacing)
   <= tolerance)%Q.

(** ** Example data for the detection *)

(** What [findContours] finds of [blob_with_holes]: the blob and its three
    holes, rows [next, previous, first_child, parent]. *)
Definition blob_with_holes_found : list contour * list hierarchy_row :=
  (blob_with_holes,
   [(-1, -1, 1, -1); (2, -1, -1, 0); (3, 1, -1, 0); (-1, 2, -1, 0)]).

(** A filter that keeps at most one hole per contour. *)
Definition filter_one_hole : FilterParams :=
  {| ref_tile_size := 16; a_t := 1; a_h := 0; max_n_holes := 1 |}.

(** ** The shape of a tiling result *)

(** One [y] and one tissue percentage per [x]; a level and a resize factor
    exactly when there is a tile. *)
Definition well_formed_tiles (r : tiles) : Prop :=
  length (y_coords r) = length (x_coords r) /\
  length (tissue_pct r) = length (x_coords r) /\
  (x_coords r = [] -> tile_level r = None /\ resize_factor r = None) /\
  (x_coords r <> [] -> is_Some (tile_level r) /\ is_Some (resize_factor r)).

(** [coords] are the tiles of contour [c], handed the holes [hs], in the
    order of the scan: the candidates of the grid over the bounding
    rectangle, x outermost, each column from its first y, of which those
    flagged by [check_coordinates] are kept. *)
Definition scanned_in_grid_order {cv : Cv2} {tc : TissueChecker}
    (sl : slide) (tp : TilingParams) (c : contour) (hs : list contour)
    (coords : list (Z * Z)) : Prop :=
  exists g scale cont' x_range y_range,
    (forall s0, consistent sl s0 -> fst (run s0 (scan_grid sl (Some c) tp)) = Ok g) /\
    py_index (level_downsamples sl) (seg_level sl) = Some scale /\
    scale_contour (binary64 (1 / fst scale), binary64 (1 / snd scale)) (Some c)
    = Ret cont' /\
    np_arange (fst (grid_start g)) (fst (grid_stop g)) (fst (grid_ref_step_size g))
    = Ret x_range /\
    np_arange (snd (grid_start g)) (snd (grid_stop g)) (snd (grid_ref_step_size g))
    = Ret y_range /\
    coords
    = map fst
        (List.filter snd
           (combine (meshgrid_ij x_range y_range)
              (fst (check_coordinates cont' hs (binary_mask sl)
                      (fst (grid_ref_tile_size g)) scale (min_tissue_ratio tp)
                      (meshgrid_ij x_range y_range))))).

(** ** Example data for the tiling of one contour *)

(** A square blob of 64 x 64 pixels at level 0 with a square hole in its
    middle. *)
Definition square_blob : contour := [(0, 0); (63, 0); (63, 63); (0, 63)].
Definition square_hole : contour := [(16, 16); (47, 16); (47, 47); (16, 47)].

(** Tiles of 16 pixels at the spacing of level 0 of [slide_1_4_16], tiles
    in holes dropped. *)
Definition tiling_16_dropping_holes : TilingParams :=
  {| spacing := 1 # 4; tolerance := 0; tile_size := 16; overlap := 0;
     drop_holes := true; min_tissue_ratio := 1 # 4; use_padding := true |}.

(** The same request with the tiles in holes kept. *)
Definition tiling_16_keeping_holes : TilingParams :=
  {| spacing := 1 # 4; tolerance := 0; tile_size := 16; overlap := 0;
     drop_holes := false; min_tissue_ratio := 1 # 4; use_padding := true |}.

(** The tiles [process_contour] finds on [square_blob] when the checker
    keeps every candidate. *)
Definition tiles_of_square_blob : tiles :=
  {| x_coords := [0; 0; 0; 0; 16; 16; 16; 16; 32; 32; 32; 32; 48; 48; 48; 48];
     y_coords := [0; 16; 32; 48; 0; 16; 32; 48; 0; 16; 32; 48; 0; 16; 32; 48];
     tissue_pct := [1; 1; 1; 1; 1; 1; 1; 1; 1; 1; 1; 1; 1; 1; 1; 1]%Q;
     tile_level := Some 0;
     resize_factor := Some 1%Q |}.

(** ** Example data for the segmentation levels *)

(** A mask with four levels; its last level, of spacing 5, is coarser
    than its downsampling of 8 tells. *)
Definition mask_with_coarse_top : mask_pyramid :=
  {| mask_spacings := [1 # 2; 1; 2; 5]%Q;
     mask_downsamplings := [1; 2; 4; 8]%Q |}.

(** What [load_segmentation] settles on for [slide_1_4_16] and
    [mask_with_coarse_top] at a downsample of 16. *)
Definition choice_below_coarse_top : mask_choice :=
  {| choice_seg_level := 2;
     choice_seg_spacing := 4;
     choice_mask_level := 2;
     choice_mask_spacing := 2;
     choice_scale := 2 |}.

(** ** Opening a slide *)

(** [__init__] apart from the reading of the images: [native] and
    [shapes] are [self.wsi.spacings] and [self.wsi.shapes], [mask_levels]
    the pyramid of the mask file if one is given, and [segmented] the
    binary mask that [load_segmentation] or [segment_tissue] computes from
    the pixels. The memo of level spacings starts empty. *)
Definition open_slide (native : list Q) (shapes : list (Z * Z))
    (spacing_at_lvl_0 : option Q) (downsample : Q)
    (mask_levels : option mask_pyramid) (segmented : mask) : prog slide :=
  let* spacings_ := get_spacings spacing_at_lvl_0 native in
  let* level_downsamples_ := get_downsamples shapes in
  let unsegmented :=
    {| spacings := spacings_;
       level_dimensions := shapes;
       level_downsamples := level_downsamples_;
       seg_level := 0;
       binary_mask := [] |} in
  let* seg_level_ :=
    match mask_levels with
    | Some m =>
        let* c := load_segmentation_levels unsegmented m downsample in
        Ret (choice_seg_level c)
    | None =>
        let* '(seg_level_, _) := segment_tissue_level unsegmented downsample in
        Ret seg_level_
    end in
  Ret {| spacings := spacings_;
         level_dimensions := shapes;
         level_downsamples := level_downsamples_;
         seg_level := Z.of_nat seg_level_;
         binary_mask := segmented |}.

(** The shared state as a new [WholeSlideImage] finds it: its own memo is
    empty, the flag, the lock and the output are those of the module. *)
Definition with_new_slide (s : state) : state := set_cache s ∅.

(** * Properties *)

(** ** Floats *)

Lemma round_half_even_lower n d : n / Zpos d <= round_half_even n d.
Proof.
  unfold round_half_even. destruct (_ ?= _); [|lia|lia].
  destruct (Z.even _); lia.
Qed.

Lemma binade_lower n d :
  0 < n ->
  (0 <= binade n d -> Zpos d * 2 ^ binade n d <= n) /\
  (binade n d < 0 -> Zpos d <= n * 2 ^ (- binade n d)).
Proof.
  intros Hn. unfold binade.
  set (ln := Z.log2 n). set (ld := Z.log2 (Zpos d)).
  destruct (Z.log2_spec n Hn) as [Hn1 Hn2]. fold ln in Hn1, Hn2.
  destruct (Z.log2_spec (Zpos d) ltac:(lia)) as [Hd1 Hd2]. fold ld in Hd1, Hd2.
  assert (Hln : 0 <= ln) by apply Z.log2_nonneg.
  assert (Hld : 0 <= ld) by apply Z.log2_nonneg.
  rewrite Z.pow_succ_r in Hn2, Hd2 by done.
  destruct (Z.leb_spec 0 (ln - ld)) as [He0 | He0].
  - destruct (Z.ltb_spec n (Zpos d * 2 ^ (ln - ld))) as [Hb | Hb].
    + assert (Hpow : 2 ^ ln = 2 ^ ld * 2 ^ (ln - ld)).
      { rewrite <- Z.pow_add_r by lia. f_equal. lia. }
      destruct (Z.eq_dec (ln - ld) 0) as [E0 | E0].
      * split; [lia|]. intros _. rewrite E0. simpl.
        rewrite E0 in Hpow. simpl in Hpow. lia.
      * split; [|lia]. intros _.
        assert (H2 : 2 ^ (ln - ld) = 2 * 2 ^ (ln - ld - 1)).
        { replace (ln - ld) with (1 + (ln - ld - 1)) at 1 by lia.
          by rewrite Z.pow_add_r by lia. }
        assert (0 < 2 ^ (ln - ld - 1)) by (apply Z.pow_pos_nonneg; lia).
        nia.
    + split; [done | lia].
  - destruct (Z.ltb_spec (n * 2 ^ (- (ln - ld))) (Zpos d)) as [Hb | Hb].
    + split; [lia|]. intros _.
      assert (Hpow : 2 ^ ld * 2 = 2 ^ ln * 2 ^ (- (ln - ld - 1))).
      { rewrite <- Z.pow_add_r by lia.
        replace (ln + - (ln - ld - 1)) with (ld + 1) by lia.
        by rewrite Z.pow_add_r by lia. }
      assert (0 < 2 ^ (- (ln - ld - 1))) by (apply Z.pow_pos_nonneg; lia).
      nia.
    + split; [lia | done].
Qed.

Lemma binary64_pos_pos n d : 0 < n -> (0 < binary64_pos n d)%Q.
Proof.
  intros Hn. unfold binary64_pos.
  destruct (binade_lower n d Hn) as [Hge Hlt].
  set (e := binade n d) in *.
  assert (H52 : 0 < 2 ^ 52) by done.
  destruct (Z.leb_spec 0 (e - 52)) as [Hs | Hs].
  - assert (Hp : 0 < 2 ^ (e - 52)) by (apply Z.pow_pos_nonneg; lia).
    assert (Hm : 1 <= round_half_even n (d * Z.to_pos (2 ^ (e - 52)))).
    { etransitivity; [|apply round_half_even_lower].
      apply Z.div_le_lower_bound; [lia|].
      rewrite Pos2Z.inj_mul, Z2Pos.id by done.
      assert (He : 2 ^ e = 2 ^ (e - 52) * 2 ^ 52).
      { rewrite <- Z.pow_add_r by lia. f_equal. lia. }
      specialize (Hge ltac:(lia)). nia. }
    unfold Qlt. simpl. nia.
  - assert (Hp : 0 < 2 ^ (- (e - 52))) by (apply Z.pow_pos_nonneg; lia).
    assert (Hm : 1 <= round_half_even (n * 2 ^ (- (e - 52))) d).
    { etransitivity; [|apply round_half_even_lower].
      apply Z.div_le_lower_bound; [lia|].
      destruct (Z.leb_spec 0 e) as [He | He].
      - assert (Hpow : 2 ^ 52 = 2 ^ e * 2 ^ (- (e - 52))).
        { rewrite <- Z.pow_add_r by lia. f_equal. lia. }
        specialize (Hge He).
        assert (0 < 2 ^ e) by (apply Z.pow_pos_nonneg; lia). nia.
      - assert (Hpow : 2 ^ (- (e - 52)) = 2 ^ (- e) * 2 ^ 52).
        { rewrite <- Z.pow_add_r by lia. f_equal. lia. }
        specialize (Hlt He). nia. }
    unfold Qlt. simpl. lia.
Qed.

Lemma binary64_Qeq x y : (x == y)%Q -> binary64 x = binary64 y.
Proof. intros H. unfold binary64. by rewrite (Qred_complete x y H). Qed.

Lemma binary64_0 x : (x == 0)%Q -> binary64 x = 0%Q.
Proof. intros H. by rewrite (binary64_Qeq x 0 H). Qed.

Lemma binary64_sign x :
  ((0 < x)%Q -> (0 < binary64 x)%Q) /\ ((x < 0)%Q -> (binary64 x < 0)%Q).
Proof.
  unfold binary64.
  assert (Hx : (Qred x == x)%Q) by apply Qred_correct.
  destruct (Qred x) as [n d] eqn:E. cbn [Qnum Qden].
  destruct n as [|n|n].
  - split; intros H; rewrite <- Hx in H; by compute in H.
  - split.
    + intros _. rewrite Qred_correct. by apply binary64_pos_pos.
    + intros H. rewrite <- Hx in H. by compute in H.
  - split.
    + intros H. rewrite <- Hx in H. by compute in H.
    + intros _. rewrite Qred_correct.
      pose proof (binary64_pos_pos (Zpos n) d ltac:(lia)) as Hp.
      apply Qopp_lt_compat in Hp. exact Hp.
Qed.

Lemma binary64_nonneg x : (0 <= x)%Q -> (0 <= binary64 x)%Q.
Proof.
  intros H. apply Qle_lteq in H as [H | H].
  - apply Qlt_le_weak. by apply binary64_sign.
  - rewrite (binary64_0 x); [apply Qle_refl | by symmetry].
Qed.

Lemma binary64_eq_0 x : (binary64 x == 0)%Q -> (x == 0)%Q.
Proof.
  intros H. destruct (Q_dec x 0) as [[Hlt | Hgt] | Heq]; [| |done].
  - apply binary64_sign in Hlt. rewrite H in Hlt. by compute in Hlt.
  - apply binary64_sign in Hgt. rewrite H in Hgt. by compute in Hgt.
Qed.

Lemma binary64_1 x : (x == 1)%Q -> binary64 x = 1%Q.
Proof. intros H. by rewrite (binary64_Qeq x 1 H). Qed.

Lemma round_half_even_1 m : round_half_even m 1 = m.
Proof.
  unfold round_half_even. rewrite Z.div_1_r, Z.mod_1_r. reflexivity.
Qed.

Lemma binary64_pos_int n :
  0 < n < 2 ^ 53 -> (binary64_pos n 1 == inject_Z n)%Q.
Proof.
  intros [Hn Hlt]. unfold binary64_pos, binade.
  destruct (Z.log2_spec n Hn) as [Hlo _].
  assert (Hl : 0 <= Z.log2 n) by apply Z.log2_nonneg.
  assert (Hl53 : Z.log2 n < 53) by (apply Z.log2_lt_pow2; lia).
  change (Z.log2 1) with 0. rewrite Z.sub_0_r.
  destruct (Z.leb_spec 0 (Z.log2 n)); [|lia].
  destruct (Z.ltb_spec n (1 * 2 ^ Z.log2 n)); [lia|].
  destruct (Z.leb_spec 0 (Z.log2 n - 52)) as [Hs | Hs].
  - replace (Z.log2 n - 52) with 0 by lia.
    change (2 ^ 0) with 1. change (1 * Z.to_pos 1)%positive with 1%positive.
    rewrite round_half_even_1, Z.mul_1_r. reflexivity.
  - rewrite round_half_even_1.
    assert (Hp : 0 < 2 ^ (- (Z.log2 n - 52))) by (apply Z.pow_pos_nonneg; lia).
    unfold Qeq. cbn [Qnum Qden inject_Z]. rewrite Z2Pos.id by done. lia.
Qed.

Lemma Qred_int n : Qred (inject_Z n) = inject_Z n.
Proof.
  unfold inject_Z, Qred.
  pose proof (Z.ggcd_gcd n 1) as Hg.
  pose proof (Z.ggcd_correct_divisors n 1) as Hd.
  destruct (Z.ggcd n 1) as [g [r1 r2]]. cbn [fst snd] in *.
  rewrite Z.gcd_1_r in Hg. subst g. destruct Hd as [-> Hr2].
  rewrite Z.mul_1_l. f_equal. rewrite Z.mul_1_l in Hr2. by rewrite <- Hr2.
Qed.

(** Integers below 2^53 are binary64 numbers. *)
Lemma binary64_int n : Z.abs n < 2 ^ 53 -> binary64 (Qz n) = Qz n.
Proof.
  intros Hn. unfold binary64, Qz. rewrite Qred_int. cbn [Qnum Qden inject_Z].
  destruct n as [|p|p]; [done| |].
  - rewrite (Qred_complete _ (inject_Z (Zpos p))); [apply Qred_int|].
    apply binary64_pos_int. lia.
  - rewrite (Qred_complete _ (inject_Z (Zneg p))); [apply Qred_int|].
    rewrite (binary64_pos_int (Zpos p)) by lia. reflexivity.
Qed.

Lemma Qred_unit_fraction p : Qred (1 # p) = (1 # p)%Q.
Proof.
  unfold Qred.
  pose proof (Z.ggcd_gcd 1 (Zpos p)) as Hg.
  pose proof (Z.ggcd_correct_divisors 1 (Zpos p)) as Hd.
  destruct (Z.ggcd 1 (Zpos p)) as [g [r1 r2]]. cbn [fst snd] in *.
  rewrite Z.gcd_1_l in Hg. subst g. destruct Hd as [Hr1 Hr2].
  rewrite Z.mul_1_l in Hr1, Hr2. subst r1 r2. reflexivity.
Qed.

(** The inverse of a power of two is a binary64 number. *)
Lemma binary64_pow2_inv (n : nat) :
  (binary64 (1 / Qz (2 ^ Z.of_nat n)) == 1 / Qz (2 ^ Z.of_nat n))%Q.
Proof.
  assert (Hp : 0 < 2 ^ Z.of_nat n) by (apply Z.pow_pos_nonneg; lia).
  set (p := Z.to_pos (2 ^ Z.of_nat n)).
  assert (Hpp : Zpos p = 2 ^ Z.of_nat n) by (unfold p; by rewrite Z2Pos.id).
  assert (Hq : (1 / Qz (2 ^ Z.of_nat n) == 1 # p)%Q).
  { unfold Qz. rewrite <- Hpp. unfold Qdiv, Qinv, Qeq. simpl. lia. }
  rewrite (binary64_Qeq _ _ Hq), Hq.
  unfold binary64. rewrite Qred_unit_fraction. cbn [Qnum Qden].
  rewrite Qred_correct.
  unfold binary64_pos, binade. rewrite Hpp.
  rewrite Z.log2_pow2 by lia. change (Z.log2 1) with 0.
  assert (Hbin : (if (if 0 <=? 0 - Z.of_nat n
                      then 1 <? 2 ^ Z.of_nat n * 2 ^ (0 - Z.of_nat n)
                      else 1 * 2 ^ (- (0 - Z.of_nat n)) <? 2 ^ Z.of_nat n)
                  then 0 - Z.of_nat n - 1 else 0 - Z.of_nat n) = - Z.of_nat n).
  { destruct (Z.leb_spec 0 (0 - Z.of_nat n)).
    - replace (Z.of_nat n) with 0 by lia. reflexivity.
    - replace (- (0 - Z.of_nat n)) with (Z.of_nat n) by lia.
      destruct (Z.ltb_spec (1 * 2 ^ Z.of_nat n) (2 ^ Z.of_nat n)); lia. }
  rewrite Hbin.
  destruct (Z.leb_spec 0 (- Z.of_nat n - 52)); [lia|].
  replace (- (- Z.of_nat n - 52)) with (52 + Z.of_nat n) by lia.
  rewrite Z.mul_1_l, Z.pow_add_r by lia.
  assert (Hr : round_half_even (2 ^ 52 * 2 ^ Z.of_nat n) p = 2 ^ 52).
  { unfold round_half_even. rewrite Hpp.
    rewrite Z.div_mul, Z.mod_mul by lia.
    destruct (Z.compare_spec (2 * 0) (2 ^ Z.of_nat n)); [lia | done | lia]. }
  rewrite Hr. unfold Qeq. cbn [Qnum Qden].
  rewrite Z2Pos.id by lia. lia.
Qed.

Lemma py_float_int n : Z.abs n < 2 ^ 53 -> py_float n = Qz n.
Proof. apply binary64_int. Qed.

Lemma py_float_eq_0 z : (py_float z == 0)%Q <-> z = 0.
Proof.
  split.
  - intros H. apply binary64_eq_0 in H. unfold Qz, Qeq in H. simpl in H. lia.
  - intros ->. reflexivity.
Qed.

Lemma py_float_nonneg z : 0 <= z -> (0 <= py_float z)%Q.
Proof.
  intros H. apply binary64_nonneg. unfold Qz, Qle. simpl. lia.
Qed.

(** ** The program monad *)

Lemma run_bind {A B} (p : prog A) (f : A -> prog B) (s : state) :
  run s (bind p f) =
  match run s p with
  | (Ok a, s') => run s' (f a)
  | (Exc e, s') => (Exc e, s')
  | (Blocked, s') => (Blocked, s')
  end.
Proof.
  revert s. induction p; intros s; simpl; auto.
  - destruct (level_spacing_cache s !! level); auto.
  - destruct (warning_lock s); auto.
Qed.

Lemma run_bind_Ok {A B} (p : prog A) (f : A -> prog B) s b s' :
  run s (bind p f) = (Ok b, s') ->
  exists a s1, run s p = (Ok a, s1) /\ run s1 (f a) = (Ok b, s').
Proof.
  rewrite run_bind. destruct (run s p) as [[a|e|] s1]; intros H; try discriminate.
  eauto.
Qed.

Lemma yields_mono {A} sl m (K K' : gset Z) (p : prog A) r :
  yields sl m K p r -> K ⊆ K' -> yields sl m K' p r.
Proof.
  intros H. revert K'.
  induction H; intros K' HK.
  - constructor.
  - constructor.
  - constructor.
    + intros Hl. apply H0; [set_solver | done].
    + intros Hv. apply H2; [done | set_solver].
  - constructor; [done |]. apply IHyields. set_solver.
  - constructor; [set_solver | eauto].
  - constructor; eauto.
  - constructor; eauto.
  - constructor; eauto.
  - constructor; eauto.
  - constructor; eauto.
Qed.

Lemma yields_bind {A B} sl m (K : gset Z) (p : prog A) rp (f : A -> prog B) r :
  yields sl m K p rp ->
  (forall a K', K ⊆ K' -> rp = Ok a -> yields sl Unlocked K' (f a) r) ->
  (forall e, rp = Exc e -> r = Exc e) ->
  yields sl m K (bind p f) r.
Proof.
  intros H. induction H; intros Hok Hexc; simpl.
  - apply (Hok a K); [set_solver | done].
  - rewrite (Hexc e eq_refl). constructor.
  - constructor.
    + intros Hl. apply H0; auto.
    + intros Hv. apply H2; auto. intros a K' HK. apply Hok. set_solver.
  - constructor; [done |]. apply IHyields; auto.
    intros a K' HK. apply Hok. set_solver.
  - constructor; [done |]. intros v Hv. apply H1; auto.
  - constructor. auto.
  - constructor; auto.
  - constructor; auto.
  - constructor; auto.
  - constructor; auto.
Qed.

Lemma yields_finally {A B} sl m (K : gset Z) (p : prog A) rp (f : prog B) r :
  yields sl m K p rp ->
  (forall K', K ⊆ K' -> yields sl Unlocked K' f r) ->
  yields sl m K (finally p f) r.
Proof.
  intros H. induction H; intros Hf; simpl; try (constructor; auto; fail).
  - apply Hf. set_solver.
  - apply Hf. set_solver.
  - constructor.
    + intros Hl. apply H0; auto.
    + intros Hv. apply H2; auto. intros K' HK. apply Hf. set_solver.
  - constructor; [done |]. apply IHyields.
    intros K' HK. apply Hf. set_solver.
Qed.

(** A program that [yields] an outcome reaches it when run alone from a
    state whose cache agrees with the slide. *)
Lemma yields_run {A} sl m (K : gset Z) (p : prog A) r s :
  yields sl m K p r ->
  cache_ok sl s ->
  K ⊆ dom (level_spacing_cache s) ->
  warning_lock s = match m with Unlocked => false | _ => true end ->
  flag_ok m s ->
  exists s', run s p = (r, s') /\ cache_ok sl s' /\
             warning_lock s' = false /\ flag_ok Unlocked s' /\
             (length (printed s) <= length (printed s'))%nat /\
             r <> Blocked.
Proof.
  intros H. revert s.
  induction H; intros s Hc HK Hl Hf; simpl.
  - exists s. do 4 (split; [done|]). split; [lia | done].
  - exists s. do 4 (split; [done|]). split; [lia | done].
  - case_bool_decide as Hin.
    + apply H2; auto.
      * destruct Hin as [v Hv]. exists v. by apply Hc.
      * apply elem_of_dom in Hin. set_solver.
    + apply H0; auto. intros Hk. apply Hin, elem_of_dom. set_solver.
  - destruct (IHyields (set_cache s (<[l:=v]> (level_spacing_cache s))))
      as (s' & ? & ? & ? & ? & ? & ?); simpl; auto.
    + intros l' v'. simpl. rewrite lookup_insert. case_decide; [|apply Hc].
      subst. congruence.
    + rewrite dom_insert_L. set_solver.
    + exists s'. do 4 (split; [done|]). split; [simpl in *; lia | done].
  - assert (Hin : l ∈ dom (level_spacing_cache s)) by set_solver.
    apply elem_of_dom in Hin. destruct Hin as [v Hv]. rewrite Hv.
    apply H1; auto.
  - rewrite Hl.
    destruct (IHyields (set_lock s true)) as (s' & ? & ? & ? & ? & ? & ?); simpl; auto.
    exists s'. do 4 (split; [done|]). split; [simpl in *; lia | done].
  - destruct Hf as [Hf1 Hf2]. destruct (printed_warning s) eqn:E.
    + apply IHyields1; simpl; auto.
    + apply IHyields2; simpl; auto.
  - destruct Hf as [Hf1 Hf2].
    destruct (IHyields (add_printed s m)) as (s' & ? & ? & ? & ? & Hlen & ?); simpl; auto.
    + rewrite Hf2. auto.
    + exists s'. do 4 (split; [done|]). split; [|done]. simpl in Hlen. rewrite Hf2 in *. simpl in *. lia.
  - destruct Hf as [Hf1 Hf2].
    destruct (IHyields (set_printed_warning s true)) as (s' & ? & ? & ? & ? & Hlen & ?);
      simpl; auto.
    + split; auto. lia.
    + exists s'. do 4 (split; [done|]). split; [simpl in *; lia | done].
  - destruct (IHyields (set_lock s false)) as (s' & ? & ? & ? & ? & Hlen & ?); simpl; auto.
    + destruct Hf. split; auto. intros; congruence.
    + exists s'. do 4 (split; [done|]). split; [simpl in *; lia | done].
Qed.

Lemma settled_Ret {A} sl K (a : A) : settled sl K (Ret a).
Proof. exists (Ok a). constructor. Qed.

Lemma settled_Raise {A} sl K e : settled sl K (@Raise A e).
Proof. exists (Exc e). constructor. Qed.

Lemma settled_bind {A B} sl K (p : prog A) (f : A -> prog B) :
  settled sl K p ->
  (forall a K', K ⊆ K' -> settled sl K' (f a)) ->
  settled sl K (bind p f).
Proof.
  intros [rp Hp] Hf. destruct rp as [a|e|].
  - destruct (Hf a K) as [r Hr]; [set_solver|].
    exists r. eapply yields_bind; eauto.
    + intros a' K' HK [= <-]. eapply yields_mono; eauto.
    + discriminate.
  - exists (Exc e). eapply yields_bind; eauto.
    + discriminate.
    + by intros e' [= <-].
  - exists Blocked. eapply yields_bind; eauto; discriminate.
Qed.

Lemma settled_finally {A B} sl K (p : prog A) (f : prog B) :
  settled sl K p ->
  (forall K', K ⊆ K' -> settled sl K' f) ->
  settled sl K (finally p f).
Proof.
  intros [rp Hp] Hf. destruct (Hf K) as [r Hr]; [set_solver|].
  exists r. eapply yields_finally; eauto.
  intros K' HK. eapply yields_mono; eauto.
Qed.

Lemma yields_py_div sl K a b :
  yields sl Unlocked K (py_div a b)
    (if Qeq_bool b 0 then Exc ZeroDivisionError else Ok (binary64 (a / b))).
Proof. unfold py_div. destruct (Qeq_bool b 0); constructor. Qed.

Lemma yields_index {A} sl K (l : list A) i :
  yields sl Unlocked K (index l i)
    (match py_index l i with Some a => Ok a | None => Exc IndexError end).
Proof. unfold index. destruct (py_index l i); constructor. Qed.

Lemma yields_get_level_spacing sl K level :
  yields sl Unlocked K (get_level_spacing sl level)
    (match py_index (spacings sl) level with
     | Some v => Ok v
     | None => Exc IndexError
     end).
Proof.
  unfold get_level_spacing. constructor.
  - intros _. unfold index. destruct (py_index (spacings sl) level) as [v|] eqn:E; simpl.
    + constructor; [done|]. constructor; [set_solver|].
      intros v' Hv'. rewrite E in Hv'. injection Hv' as <-. constructor.
    + constructor.
  - intros [v Hv]. rewrite Hv. constructor; [set_solver|].
    intros v' Hv'. rewrite Hv in Hv'. injection Hv' as <-. constructor.
Qed.

Lemma yields_np_argmin sl K l :
  yields sl Unlocked K (np_argmin l)
    (match l with [] => Exc ValueError | x :: l' => Ok (argmin_from 0 x 1 l') end).
Proof. destruct l; constructor. Qed.

Lemma yields_within_tolerance sl K ls target tol :
  yields sl Unlocked K (within_tolerance ls target tol)
    (if Qeq_bool target 0 then Exc ZeroDivisionError
     else Ok (Qle_bool (binary64 (Qabs (fsub ls target) / target)) tol)).
Proof.
  unfold within_tolerance, py_div. destruct (Qeq_bool target 0); constructor.
Qed.

Lemma yields_warn_once sl K m : yields sl Unlocked K (warn_once m) (Ok tt).
Proof. repeat constructor. Qed.

Lemma settled_py_div sl K a b : settled sl K (py_div a b).
Proof. eexists. apply yields_py_div. Qed.

Lemma settled_index {A} sl K (l : list A) i : settled sl K (index l i).
Proof. eexists. apply yields_index. Qed.

Lemma settled_get_level_spacing sl K level : settled sl K (get_level_spacing sl level).
Proof. eexists. apply yields_get_level_spacing. Qed.

Lemma settled_within_tolerance sl K a b c : settled sl K (within_tolerance a b c).
Proof. eexists. apply yields_within_tolerance. Qed.

Lemma settled_warn_once sl K m : settled sl K (warn_once m).
Proof. eexists. apply yields_warn_once. Qed.

Lemma settled_map_prog {A B} sl (f : A -> prog B) l :
  (forall a K, settled sl K (f a)) -> forall K, settled sl K (map_prog f l).
Proof.
  intros Hf. induction l as [|a l IH]; intros K; cbn [map_prog].
  - apply settled_Ret.
  - apply settled_bind; [apply Hf|]. intros b K' _.
    apply settled_bind; [apply IH|]. intros bs K'' _. apply settled_Ret.
Qed.

Lemma settled_walk_to_finer sl target tol level ls K :
  settled sl K (walk_to_finer sl target tol level ls).
Proof.
  revert ls K. induction level as [|level IH]; intros ls K; cbn [walk_to_finer].
  - apply settled_Ret.
  - destruct (Qlt_bool target ls); [|apply settled_Ret].
    apply settled_bind; [apply settled_get_level_spacing|]. intros ls' K' _.
    apply settled_bind; [apply settled_within_tolerance|]. intros ok K'' _.
    destruct ok; [apply settled_Ret | apply IH].
Qed.

Lemma settled_get_best_level_for_spacing sl target tol verbose K :
  settled sl K (get_best_level_for_spacing sl target tol verbose).
Proof.
  unfold get_best_level_for_spacing.
  apply settled_bind; [apply settled_get_level_spacing|]. intros sp K1 _.
  apply settled_bind; [apply settled_py_div|]. intros td K2 _.
  apply settled_bind; [eexists; apply yields_np_argmin|]. intros level K3 _.
  apply settled_bind; [apply settled_get_level_spacing|]. intros ls K4 _.
  apply settled_bind; [apply settled_within_tolerance|]. intros ok K5 _.
  destruct ok; [apply settled_Ret|].
  apply settled_bind; [apply settled_walk_to_finer|]. intros [[l' ls'] w] K6 _.
  apply settled_bind; [apply settled_within_tolerance|]. intros ok' K7 _.
  apply settled_bind; [|intros; apply settled_Ret].
  destruct (negb ok' && verbose); [apply settled_warn_once | apply settled_Ret].
Qed.

(** ** Python indexing *)

Lemma lookup_map {A B} (f : A -> B) (l : list A) (i : nat) :
  map f l !! i = f <$> (l !! i).
Proof. exact (list_lookup_fmap f l i). Qed.

Lemma py_index_nat {A} (l : list A) (k : nat) :
  py_index l (Z.of_nat k) = l !! k.
Proof.
  unfold py_index. destruct (Z.leb_spec 0 (Z.of_nat k)); [|lia].
  by rewrite Nat2Z.id.
Qed.

Lemma py_index_range {A} (l : list A) (i : Z) :
  let n := Z.of_nat (length l) in
  (i < - n \/ n <= i -> py_index l i = None) /\
  (0 <= i < n -> py_index l i = l !! Z.to_nat i /\ is_Some (py_index l i)) /\
  (- n <= i < 0 -> py_index l i = l !! Z.to_nat (n + i) /\ is_Some (py_index l i)).
Proof.
  intros n. unfold py_index. fold n. split_and!.
  - intros [H|H].
    + destruct (Z.leb_spec 0 i); [lia|]. destruct (Z.leb_spec (- n) i); [lia|]. done.
    + destruct (Z.leb_spec 0 i); [|lia]. apply lookup_ge_None. lia.
  - intros H. destruct (Z.leb_spec 0 i); [|lia]. split; [done|].
    apply lookup_lt_is_Some. lia.
  - intros H. destruct (Z.leb_spec 0 i); [lia|].
    destruct (Z.leb_spec (- n) i); [|lia]. split; [done|].
    apply lookup_lt_is_Some. lia.
Qed.

(** ** Memoized level spacing *)

Lemma cache_ok_initial sl : cache_ok sl initial_state.
Proof. intros l v H. simpl in H. by rewrite lookup_empty in H. Qed.

Lemma cache_ok_store sl s l v :
  cache_ok sl s -> py_index (spacings sl) l = Some v ->
  cache_ok sl (set_cache s (<[l:=v]> (level_spacing_cache s))).
Proof.
  intros Hc Hv l' v'. simpl. rewrite lookup_insert.
  case_decide; [|apply Hc]. subst. congruence.
Qed.

Lemma run_get_level_spacing sl s level :
  cache_ok sl s ->
  match py_index (spacings sl) level with
  | Some v =>
      exists s', run s (get_level_spacing sl level) = (Ok v, s') /\
                 cache_ok sl s' /\ level_spacing_cache s' !! level = Some v
  | None => run s (get_level_spacing sl level) = (Exc IndexError, s)
  end.
Proof.
  intros Hc. unfold get_level_spacing. cbn [run bind].
  case_bool_decide as Hin.
  - destruct Hin as [v Hv]. rewrite (Hc _ _ Hv). cbn [run]. rewrite Hv.
    exists s. done.
  - assert (Hnone : level_spacing_cache s !! level = None).
    { destruct (level_spacing_cache s !! level) eqn:E; [|done].
      exfalso. apply Hin. eauto. }
    unfold index. destruct (py_index (spacings sl) level) as [v|] eqn:E;
      cbn [run bind set_cache level_spacing_cache].
    + rewrite lookup_insert_eq.
      eexists. split; [reflexivity|]. split.
      * by apply cache_ok_store.
      * simpl. apply lookup_insert_eq.
    + done.
Qed.

(** C9 (as amended): [get_level_spacing] raises [IndexError] exactly for the
    indices [level >= n] and [level < -n], where [n] is the number of
    levels; for [0 <= level < n] it returns the spacing of that level and
    leaves it memoized; for [-n <= level < 0] Python's indexing from the
    end applies and the spacing of level [n + level] is returned. *)
Theorem get_level_spacing_by_index sl s level :
  cache_ok sl s ->
  let n := Z.of_nat (length (spacings sl)) in
  (level < - n \/ n <= level ->
     run s (get_level_spacing sl level) = (Exc IndexError, s)) /\
  (0 <= level < n ->
     exists v s', spacings sl !! Z.to_nat level = Some v /\
       run s (get_level_spacing sl level) = (Ok v, s') /\
       level_spacing_cache s' !! level = Some v /\ cache_ok sl s') /\
  (- n <= level < 0 ->
     exists v s', spacings sl !! Z.to_nat (n + level) = Some v /\
       run s (get_level_spacing sl level) = (Ok v, s') /\
       level_spacing_cache s' !! level = Some v /\ cache_ok sl s').
Proof.
  intros Hc n.
  pose proof (run_get_level_spacing sl s level Hc) as Hrun.
  destruct (py_index_range (spacings sl) level) as (Hout & Hin & Hneg). fold n in Hout, Hin, Hneg.
  split_and!.
  - intros H. by rewrite (Hout H) in Hrun.
  - intros H. destruct (Hin H) as [Heq [v Hv]]. rewrite Hv in Hrun.
    destruct Hrun as (s' & ? & ? & ?). exists v, s'. rewrite <- Heq. done.
  - intros H. destruct (Hneg H) as [Heq [v Hv]]. rewrite Hv in Hrun.
    destruct Hrun as (s' & ? & ? & ?). exists v, s'. rewrite <- Heq. done.
Qed.

Lemma get_level_spacing_by_index_witness :
  cache_ok slide_with_twin_levels initial_state /\
  exists v s', spacings slide_with_twin_levels !! Z.to_nat 1 = Some v /\
    run initial_state (get_level_spacing slide_with_twin_levels 1) = (Ok v, s') /\
    level_spacing_cache s' !! 1 = Some v /\ cache_ok slide_with_twin_levels s'.
Proof.
  split.
  - apply cache_ok_initial.
  - apply (get_level_spacing_by_index slide_with_twin_levels initial_state 1
             (cache_ok_initial _)).
    simpl. lia.
Defined.

(** C9 as stated fails: the index [-1] is outside the range of levels
    [0 .. 2] of the slide, yet [get_level_spacing(-1)] returns the spacing
    of the last level instead of raising [IndexError]. *)
Lemma get_level_spacing_negative_index :
  ~ (0 <= -1 < Z.of_nat (length (spacings slide_with_twin_levels))) /\
  fst (run initial_state (get_level_spacing slide_with_twin_levels (-1)))
  = Ok (1 # 2)%Q.
Proof. split; [simpl; lia | reflexivity]. Qed.

(** ** Best level for a downsample and for a spacing *)

Lemma Qlt_bool_iff x y : Qlt_bool x y = true <-> (x < y)%Q.
Proof.
  unfold Qlt_bool. rewrite negb_true_iff. split.
  - intros H. apply Qnot_le_lt. intros Hle. apply Qle_bool_iff in Hle. congruence.
  - intros H. destruct (Qle_bool y x) eqn:E; [|done].
    apply Qle_bool_iff in E. exfalso. by apply (Qlt_not_le x y).
Qed.

Lemma Qlt_bool_false x y : Qlt_bool x y = false <-> (y <= x)%Q.
Proof.
  unfold Qlt_bool. rewrite negb_false_iff. apply Qle_bool_iff.
Qed.

(** No later element is smaller than the best so far: the best stays. *)
Lemma Qabs_pos_iff x : (0 < Qabs x)%Q <-> ~ (x == 0)%Q.
Proof.
  split.
  - intros H Hx. rewrite Hx in H. simpl in H. by apply Qlt_irrefl in H.
  - intros H. destruct (Qlt_le_dec 0 (Qabs x)) as [|Hle]; [done|].
    exfalso. apply H.
    assert (H0 : (Qabs x == 0)%Q) by (apply Qle_antisym; [done | apply Qabs_nonneg]).
    apply Qle_antisym.
    + rewrite <- H0. apply Qle_Qabs.
    + assert (Hn : (- x <= 0)%Q) by (rewrite <- H0, <- Qabs_opp; apply Qle_Qabs).
      apply Qopp_le_compat in Hn. by rewrite Qopp_involutive in Hn.
Qed.

Lemma Qeq_bool_false x y : ~ (x == y)%Q -> Qeq_bool x y = false.
Proof.
  intros H. destruct (Qeq_bool x y) eqn:E; [|done].
  exfalso. by apply H, Qeq_bool_iff.
Qed.

Lemma run_within_tolerance_same s x tol :
  ~ (x == 0)%Q -> (0 <= tol)%Q ->
  run s (within_tolerance x x tol) = (Ok true, s).
Proof.
  intros Hx Htol. unfold within_tolerance, py_div.
  rewrite (Qeq_bool_false _ _ Hx). cbn [bind run]. do 2 f_equal.
  apply Qle_bool_iff.
  unfold fsub. rewrite (binary64_0 (x - x)) by ring.
  rewrite (binary64_0 (Qabs 0 / x)); [done|].
  simpl Qabs. unfold Qdiv. by rewrite Qmult_0_l.
Qed.

(** ** Contour filtering *)

Lemma bind_Ret_inv {A B} (p : prog A) (f : A -> prog B) b :
  bind p f = Ret b -> exists a, p = Ret a /\ f a = Ret b.
Proof. destruct p; simpl; intros H; try discriminate. eauto. Qed.

Lemma map_prog_Ret_map {A B C} (f : A -> prog B) (g : B -> C) l ys :
  map_prog f l = Ret ys ->
  map_prog (fun x => let* y := f x in Ret (g y)) l = Ret (map g ys).
Proof.
  revert ys. induction l as [|a l IH]; intros ys H; cbn [map_prog] in *.
  - by injection H as <-.
  - apply bind_Ret_inv in H as (y & Hy & H).
    apply bind_Ret_inv in H as (ys' & Hys & H). injection H as <-.
    rewrite Hy. cbn [bind]. rewrite (IH ys' Hys). reflexivity.
Qed.

Lemma index_app_r {A} (pre l : list A) (a : A) :
  index (pre ++ a :: l) (Z.of_nat (length pre)) = Ret a.
Proof.
  unfold index. rewrite py_index_nat.
  by rewrite list_lookup_middle.
Qed.

Lemma map_prog_index_flatnonzero (pre cs : list contour) (ps : list Z) v :
  length cs = length ps ->
  map_prog (index (pre ++ cs)) (flatnonzero_eq_from (Z.of_nat (length pre)) ps v)
  = Ret (map fst (List.filter (fun cp : contour * Z => snd cp =? v) (combine cs ps))).
Proof.
  revert pre cs. induction ps as [|p ps IH]; intros pre cs Hlen.
  - destruct cs; [|done]. reflexivity.
  - destruct cs as [|c cs]; [done|]. simpl in Hlen.
    assert (Hrec : map_prog (index (pre ++ c :: cs))
                     (flatnonzero_eq_from (Z.of_nat (length pre) + 1) ps v)
                   = Ret (map fst (List.filter (fun cp : contour * Z => snd cp =? v)
                                               (combine cs ps)))).
    { specialize (IH (pre ++ [c]) cs). rewrite <- app_assoc in IH. simpl in IH.
      rewrite length_app in IH. simpl in IH.
      replace (Z.of_nat (length pre + 1)) with (Z.of_nat (length pre) + 1) in IH by lia.
      apply IH. lia. }
    cbn [flatnonzero_eq_from combine List.filter snd].
    destruct (p =? v).
    + cbn [map_prog]. rewrite index_app_r. cbn [bind]. rewrite Hrec. reflexivity.
    + exact Hrec.
Qed.

Lemma flatnonzero_eq_from_spec col i v z :
  z ∈ flatnonzero_eq_from i col v <->
  exists j : nat, z = i + Z.of_nat j /\ col !! j = Some v.
Proof.
  revert i. induction col as [|x col IH]; intros i; simpl.
  - split; [by intros ?%elem_of_nil | by intros (j & _ & ?)].
  - assert (Htail : z ∈ flatnonzero_eq_from (i + 1) col v <->
                    exists j : nat, z = i + Z.of_nat (S j) /\ col !! j = Some v).
    { rewrite IH. split; intros (j & -> & Hj); exists j; split; auto; lia. }
    destruct (Z.eqb_spec x v) as [->|Hne].
    + rewrite elem_of_cons, Htail. split.
      * intros [->|(j & -> & Hj)]; [exists 0%nat | exists (S j)]; split; auto; lia.
      * intros ([|j] & -> & Hj); [left; lia | right; eauto].
    + rewrite Htail. split.
      * intros (j & -> & Hj). exists (S j). auto.
      * intros ([|j] & -> & Hj); [simpl in Hj; congruence | eauto].
Qed.

Lemma map_prog_index_immediate_holes (contours : list contour) parents idx :
  length contours = length parents ->
  map_prog (index contours) (flatnonzero_eq parents idx)
  = Ret (immediate_holes contours parents idx).
Proof. exact (map_prog_index_flatnonzero [] contours parents idx). Qed.

Section FilteringProperties.
Context {cv : Cv2}.

Lemma region_area_net contours parents idx cont :
  length contours = length parents ->
  region_area contours cont (flatnonzero_eq parents idx)
  = Ret (net_area contours parents idx cont).
Proof.
  intros Hlen. unfold region_area, net_area.
  by rewrite (map_prog_Ret_map _ contourArea _ _
                (map_prog_index_immediate_holes _ _ idx Hlen)).
Qed.

Lemma select_foreground_filter contours parents fp todo filtered all_holes :
  length contours = length parents ->
  Forall (fun idx => is_Some (py_index contours idx)) todo ->
  select_foreground contours parents fp todo filtered all_holes
  = Ret (filtered ++ List.filter (retains contours parents fp) todo,
         all_holes ++ map (flatnonzero_eq parents)
                          (List.filter (retains contours parents fp) todo)).
Proof.
  intros Hlen. revert filtered all_holes.
  induction todo as [|idx todo IH]; intros filtered all_holes Hall;
    cbn [select_foreground List.filter].
  - by rewrite !app_nil_r.
  - inversion Hall as [|? ? [cont Hcont] Hall']; subst.
    unfold index, retains. rewrite Hcont. cbn [bind].
    rewrite (region_area_net _ _ _ _ Hlen). cbn [bind].
    destruct (Qeq_bool _ 0); cbn [negb andb].
    + by apply IH.
    + destruct (Qlt_bool _ _).
      * rewrite IH by done. cbn [map]. by rewrite <- !app_assoc.
      * by apply IH.
Qed.

End FilteringProperties.

Section RegionAreaFilter.
Context {cv : Cv2}.

Lemma flatnonzero_eq_valid (contours : list contour) (parents : list Z) v :
  length contours = length parents ->
  Forall (fun idx => is_Some (py_index contours idx)) (flatnonzero_eq parents v).
Proof.
  intros Hlen. apply Forall_forall. intros z Hz.
  apply flatnonzero_eq_from_spec in Hz as (j & -> & Hj).
  rewrite Z.add_0_l, py_index_nat. apply lookup_lt_is_Some.
  apply lookup_lt_Some in Hj. lia.
Qed.

Lemma foreground_indices_retains contours hierarchy fp :
  length contours = length hierarchy ->
  exists filtered all_holes,
    foreground_indices contours hierarchy fp = Ret (filtered, all_holes) /\
    forall idx : nat,
      Z.of_nat idx ∈ filtered <->
      map snd hierarchy !! idx = Some (-1) /\
      retains contours (map snd hierarchy) fp (Z.of_nat idx) = true.
Proof.
  intros Hlen. unfold foreground_indices.
  assert (Hlen' : length contours = length (map snd hierarchy))
    by (by rewrite length_map).
  rewrite (select_foreground_filter _ _ _ _ _ _ Hlen'
             (flatnonzero_eq_valid _ _ _ Hlen')).
  eexists _, _. split; [reflexivity|]. intros idx. cbn [app].
  rewrite list_elem_of_In, filter_In, <- list_elem_of_In.
  unfold flatnonzero_eq. rewrite flatnonzero_eq_from_spec.
  split.
  - intros [(j & Hj & Hp) Hr]. assert (j = idx) as -> by lia. done.
  - intros [Hp Hr]. split; [|done]. exists idx. split; [lia | done].
Qed.

Lemma retains_iff contours parents fp (idx : nat) cont :
  contours !! idx = Some cont ->
  let a := net_area contours parents (Z.of_nat idx) cont in
  retains contours parents fp (Z.of_nat idx) = true <->
  ~ (a == 0)%Q /\ (Qz (a_t fp) < a)%Q.
Proof.
  intros Hc a. unfold retains. rewrite py_index_nat, Hc. fold a.
  rewrite andb_true_iff, negb_true_iff, Qlt_bool_iff. split.
  - intros [H1 H2]. split; [|done]. by apply Qeq_bool_neq.
  - intros [H1 H2]. split; [|done]. by apply Qeq_bool_false.
Qed.

Lemma scaled_filter_params_eq sl spacing_level fp seg_ds level_ds :
  py_index (level_downsamples sl) spacing_level = Some level_ds ->
  py_index (level_downsamples sl) (seg_level sl) = Some seg_ds ->
  ~ (fst level_ds == 0)%Q -> ~ (snd level_ds == 0)%Q ->
  ~ (fst seg_ds == 0)%Q -> ~ (snd seg_ds == 0)%Q ->
  scaled_filter_params sl spacing_level fp
  = Ret {| ref_tile_size := ref_tile_size fp;
           a_t := scaled_threshold (a_t fp) (ref_tile_size fp) seg_ds level_ds;
           a_h := scaled_threshold (a_h fp) (ref_tile_size fp) seg_ds level_ds;
           max_n_holes := max_n_holes fp |}.
Proof.
  intros Hl Hs H1 H2 H3 H4. unfold scaled_filter_params, index, py_div.
  rewrite Hl, Hs. cbn [bind].
  rewrite (Qeq_bool_false _ _ H1), (Qeq_bool_false _ _ H2). cbn [bind].
  rewrite Qeq_bool_false; [reflexivity|].
  intros H0. unfold fmul in H0. apply binary64_eq_0 in H0.
  apply Qmult_integral in H0 as [H0|H0]; apply binary64_eq_0 in H0;
    apply Qmult_integral in H0 as [H0|H0]; try done.
  - apply H1.
    destruct (Qeq_dec (fst level_ds) 0) as [|Hn]; [done|].
    exfalso. apply (Qmult_inv_r _ ) in Hn. rewrite H0, Qmult_0_r in Hn. discriminate.
  - destruct (Qeq_dec (snd level_ds) 0) as [|Hn]; [done|].
    exfalso. apply (Qmult_inv_r _ ) in Hn. rewrite H0, Qmult_0_r in Hn. discriminate.
Qed.

End RegionAreaFilter.

(** C2 (as amended): a foreground (parent-less) contour is retained by
    [filter_contours], called as [detect_contours] calls it, if and only if
    its area minus the summed area of its immediate holes is nonzero and
    strictly exceeds the scaled region-area threshold
    [a_t * int(ref_tile_size^2 / (scale.x * scale.y))], with
    [scale = downsampleOf(seg_level) / downsampleOf(spacing_level)], the
    quotients and the product computed in floats and the scaled reference
    area cut to an integer; when that threshold is not negative,
    "nonzero" is "strictly positive". *)
Theorem region_area_filter {cv : Cv2} sl spacing_level fp seg_ds level_ds
    contours hierarchy :
  py_index (level_downsamples sl) spacing_level = Some level_ds ->
  py_index (level_downsamples sl) (seg_level sl) = Some seg_ds ->
  ~ (fst level_ds == 0)%Q -> ~ (snd level_ds == 0)%Q ->
  ~ (fst seg_ds == 0)%Q -> ~ (snd seg_ds == 0)%Q ->
  length contours = length hierarchy ->
  let threshold := scaled_threshold (a_t fp) (ref_tile_size fp) seg_ds level_ds in
  exists fp' filtered all_holes,
    scaled_filter_params sl spacing_level fp = Ret fp' /\
    a_t fp' = threshold /\
    foreground_indices contours hierarchy fp' = Ret (filtered, all_holes) /\
    forall (idx : nat) cont first_child,
      hierarchy !! idx = Some (first_child, -1) ->
      contours !! idx = Some cont ->
      let a := net_area contours (map snd hierarchy) (Z.of_nat idx) cont in
      (Z.of_nat idx ∈ filtered <-> ~ (a == 0)%Q /\ (Qz threshold < a)%Q) /\
      (0 <= threshold ->
       (Z.of_nat idx ∈ filtered <-> (0 < a)%Q /\ (Qz threshold < a)%Q)).
Proof.
  intros Hl Hs H1 H2 H3 H4 Hlen threshold.
  eexists _.
  destruct (foreground_indices_retains contours hierarchy
              {| ref_tile_size := ref_tile_size fp;
                 a_t := threshold;
                 a_h := scaled_threshold (a_h fp) (ref_tile_size fp) seg_ds level_ds;
                 max_n_holes := max_n_holes fp |} Hlen)
    as (filtered & all_holes & Hfg & Hmem).
  exists filtered, all_holes. split_and!.
  - by apply scaled_filter_params_eq.
  - reflexivity.
  - exact Hfg.
  - intros idx cont first_child Hh Hc a.
    assert (Hiff : Z.of_nat idx ∈ filtered <-> ~ (a == 0)%Q /\ (Qz threshold < a)%Q).
    { rewrite Hmem, (retains_iff _ _ _ _ _ Hc). cbn [a_t]. fold a.
      rewrite lookup_map, Hh. simpl. tauto. }
    split; [exact Hiff|]. intros Hpos. rewrite Hiff. split.
    + intros [_ Hlt]. split; [|done].
      eapply Qle_lt_trans; [|exact Hlt].
      change 0%Q with (Qz 0). unfold Qz. by rewrite <- Zle_Qle.
    + intros [Ha Hlt]. split; [|done]. intros H0. rewrite H0 in Ha.
      by apply Qlt_irrefl in Ha.
Qed.

Lemma region_area_filter_witness :
  exists fp' filtered all_holes,
    scaled_filter_params slide_1_4_32 1 filter_2_10 = Ret fp' /\
    a_t fp' = 2 /\
    foreground_indices (cv := cv2_finding blob_3) (fst blob_3) [(-1, -1)] fp'
    = Ret (filtered, all_holes) /\
    forall (idx : nat) cont first_child,
      [(-1, -1)] !! idx = Some (first_child, -1) ->
      fst blob_3 !! idx = Some cont ->
      let a := net_area (cv := cv2_finding blob_3) (fst blob_3) [-1]
                 (Z.of_nat idx) cont in
      (Z.of_nat idx ∈ filtered <-> ~ (a == 0)%Q /\ (Qz 2 < a)%Q) /\
      (0 <= 2 -> (Z.of_nat idx ∈ filtered <-> (0 < a)%Q /\ (Qz 2 < a)%Q)).
Proof.
  apply (region_area_filter (cv := cv2_finding blob_3) slide_1_4_32 1 filter_2_10
           (32, 32)%Q (4, 4)%Q (fst blob_3) [(-1, -1)]).
  - reflexivity.
  - reflexivity.
  - intros H; vm_compute in H; discriminate.
  - intros H; vm_compute in H; discriminate.
  - intros H; vm_compute in H; discriminate.
  - intros H; vm_compute in H; discriminate.
  - reflexivity.
Defined.

(** C2 as stated fails: with [a_t = 2], [ref_tile_size = 10] and
    [scale = (8, 8)] the blob of net area 3 is retained by
    [detect_contours] (scaled to level 0), although 3 does not exceed
    [a_t * ref_tile_size^2 / (scale.x * scale.y) = 25/8]. *)
Lemma region_area_filter_truncates :
  fst (run initial_state
         (detect_contours (cv := cv2_finding blob_3) slide_1_4_32 1 0 filter_2_10))
  = Ok ([[(0, 0); (0, 32); (32, 32); (64, 32); (96, 32); (96, 0); (64, 0); (32, 0)]],
        [[]]) /\
  (net_area (cv := cv2_finding blob_3) (fst blob_3) [(-1)%Z] 0%Z
     [(0, 0); (0, 1); (1, 1); (2, 1); (3, 1); (3, 0); (2, 0); (1, 0)]%Z == 3)%Q /\
  (scaled_threshold_exact 2 10 (32, 32)%Q (4, 4)%Q == 25 # 8)%Q /\
  ~ (scaled_threshold_exact 2 10 (32, 32)%Q (4, 4)%Q < 3)%Q.
Proof.
  split_and!.
  - vm_compute. reflexivity.
  - vm_compute. reflexivity.
  - vm_compute. reflexivity.
  - intros H. vm_compute in H. discriminate.
Qed.

(** The scaled reference area follows the floats: with downsamples 8 and
    5 and [ref_tile_size = 16], [16^2 / (1.6 * 1.6)] is a float below 100
    and the area is 99, not the 100 of the formula over the reals. *)
Example scaled_threshold_rounds :
  scaled_threshold 1 16 (8, 8)%Q (5, 5)%Q = 99 /\
  (scaled_threshold_exact 1 16 (8, 8)%Q (5, 5)%Q == 100)%Q.
Proof. split; vm_compute; reflexivity. Qed.

(** ** Ranking of holes *)

Section SortedDesc.
Context {A : Type} (key : A -> Q).

Lemma insert_desc_perm x l : Permutation (x :: l) (insert_desc key x l).
Proof.
  induction l as [|y l IH]; simpl; [done|].
  destruct (Qle_bool (key y) (key x)); [done|].
  rewrite perm_swap. by apply perm_skip.
Qed.

Lemma sorted_desc_perm l : Permutation l (sorted_desc key l).
Proof.
  induction l as [|x l IH]; simpl; [done|].
  rewrite <- insert_desc_perm. by apply perm_skip.
Qed.

Lemma insert_desc_sorted x l :
  StronglySorted (key_ge key) l -> StronglySorted (key_ge key) (insert_desc key x l).
Proof.
  induction l as [|y l IH]; intros Hs; simpl.
  - repeat constructor.
  - inversion Hs as [|? ? Hl Hy]; subst.
    destruct (Qle_bool (key y) (key x)) eqn:E.
    + apply Qle_bool_iff in E. constructor; [done|].
      constructor; [done|].
      eapply Forall_impl; [exact Hy|]. intros z Hz. unfold key_ge in *; simpl in *.
      by eapply Qle_trans.
    + constructor; [by apply IH|].
      assert (Hxy : key_ge key y x).
      { unfold key_ge. apply Qlt_le_weak, Qnot_le_lt. intros Hle.
        apply Qle_bool_iff in Hle. congruence. }
      apply List.Forall_forall. intros z Hz.
      apply (Permutation_in _ (Permutation_sym (insert_desc_perm x l))) in Hz.
      destruct Hz as [<-|Hz]; [done|].
      rewrite List.Forall_forall in Hy. by apply Hy.
Qed.

Lemma sorted_desc_sorted l : StronglySorted (key_ge key) (sorted_desc key l).
Proof.
  induction l as [|x l IH]; simpl; [constructor | by apply insert_desc_sorted].
Qed.

End SortedDesc.

Lemma map_prog_ext_Ret {A B C} (f : B -> prog C) (g : A -> B) (h : A -> C) l :
  (forall x, In x l -> f (g x) = Ret (h x)) ->
  map_prog f (map g l) = Ret (map h l).
Proof.
  induction l as [|a l IH]; intros H; cbn [map map_prog]; [done|].
  rewrite (H a) by (by left). cbn [bind].
  rewrite IH; [done|]. intros x Hx. apply H. by right.
Qed.

Lemma map_prog_index_valid {A} (l : list A) idxs :
  Forall (fun idx => is_Some (py_index l idx)) idxs ->
  exists ys, map_prog (index l) idxs = Ret ys /\ length ys = length idxs.
Proof.
  induction idxs as [|i idxs IH]; intros H; cbn [map_prog].
  - by exists [].
  - inversion H as [|? ? [a Ha] Hrest]; subst.
    destruct (IH Hrest) as (ys & Hys & Hlen).
    exists (a :: ys). unfold index at 1. rewrite Ha. cbn [bind]. rewrite Hys.
    split; [done | simpl; by rewrite Hlen].
Qed.

Section HoleRanking.
Context {cv : Cv2}.

(** What the second loop of [filter_contours] keeps of the holes of a
    contour. *)
Lemma select_holes_flatnonzero contours parents fp idx :
  length contours = length parents ->
  select_holes contours fp (flatnonzero_eq parents idx)
  = Ret (List.filter (fun hole => Qlt_bool (Qz (a_h fp)) (contourArea hole))
           (py_take (max_n_holes fp)
              (sorted_desc contourArea (immediate_holes contours parents idx)))).
Proof.
  intros Hlen. unfold select_holes.
  by rewrite (map_prog_index_immediate_holes _ _ _ Hlen).
Qed.

End HoleRanking.

(** C3: for each retained foreground contour, [filter_contours] ranks its
    immediate holes by decreasing area; with [max_n_holes = m], only the
    first [m] of that ranking ([candidates]) are tested against the
    hole-area threshold, a candidate is kept if and only if its area
    strictly exceeds [a_h], and the remaining holes ([rest]) are dropped
    whatever their area. *)
Theorem hole_ranking {cv : Cv2} contours hierarchy fp :
  length contours = length hierarchy ->
  0 <= max_n_holes fp ->
  exists filtered all_holes foreground_contours hole_contours,
    foreground_indices contours hierarchy fp = Ret (filtered, all_holes) /\
    filter_contours contours hierarchy fp
    = Ret (foreground_contours, hole_contours) /\
    length hole_contours = length filtered /\
    forall (k : nat) cont_idx,
      filtered !! k = Some cont_idx ->
      exists candidates rest,
        let holes := immediate_holes contours (map snd hierarchy) cont_idx in
        Permutation holes (candidates ++ rest) /\
        StronglySorted (key_ge contourArea) (candidates ++ rest) /\
        length candidates = Nat.min (Z.to_nat (max_n_holes fp)) (length holes) /\
        hole_contours !! k
        = Some (List.filter
                  (fun hole => Qlt_bool (Qz (a_h fp)) (contourArea hole))
                  candidates).
Proof.
  intros Hlen Hm.
  assert (Hlen' : length contours = length (map snd hierarchy))
    by (by rewrite length_map).
  pose proof (select_foreground_filter contours (map snd hierarchy) fp
                (flatnonzero_eq (map snd hierarchy) (-1)) [] [] Hlen'
                (flatnonzero_eq_valid _ _ _ Hlen')) as Hfg.
  cbn [app] in Hfg.
  set (filtered := List.filter (retains contours (map snd hierarchy) fp)
                     (flatnonzero_eq (map snd hierarchy) (-1))) in *.
  set (ranked := fun idx =>
         sorted_desc contourArea (immediate_holes contours (map snd hierarchy) idx)).
  set (kept := fun idx =>
         List.filter (fun hole => Qlt_bool (Qz (a_h fp)) (contourArea hole))
                     (py_take (max_n_holes fp) (ranked idx))).
  assert (Hvalid : Forall (fun idx => is_Some (py_index contours idx)) filtered).
  { pose proof (flatnonzero_eq_valid contours (map snd hierarchy) (-1) Hlen') as Hv.
    rewrite List.Forall_forall in Hv. apply List.Forall_forall.
    intros z Hz. apply Hv. unfold filtered in Hz. by apply filter_In in Hz as [? _]. }
  destruct (map_prog_index_valid contours filtered Hvalid) as (fg & Hmap & _).
  exists filtered, (map (flatnonzero_eq (map snd hierarchy)) filtered), fg,
         (map kept filtered).
  split_and!.
  - exact Hfg.
  - unfold filter_contours, foreground_indices. rewrite Hfg. cbn [bind].
    rewrite Hmap. cbn [bind].
    rewrite (map_prog_ext_Ret (select_holes contours fp)
               (flatnonzero_eq (map snd hierarchy)) kept); [done|].
    intros idx _. by apply select_holes_flatnonzero.
  - by rewrite length_map.
  - intros k cont_idx Hk.
    exists (take (Z.to_nat (max_n_holes fp)) (ranked cont_idx)),
           (drop (Z.to_nat (max_n_holes fp)) (ranked cont_idx)).
    cbv zeta. rewrite take_drop. split_and!.
    + apply sorted_desc_perm.
    + apply sorted_desc_sorted.
    + rewrite length_take. unfold ranked.
      rewrite <- (Permutation_length (sorted_desc_perm contourArea _)). lia.
    + rewrite lookup_map, Hk. simpl. unfold kept, py_take.
      destruct (Z.leb_spec 0 (max_n_holes fp)); [done | lia].
Qed.

Lemma hole_ranking_witness :
  exists filtered all_holes foreground_contours hole_contours,
    foreground_indices (cv := cv2_finding ([], [])) blob_with_holes
      blob_with_holes_hierarchy filter_two_holes = Ret (filtered, all_holes) /\
    filter_contours (cv := cv2_finding ([], [])) blob_with_holes
      blob_with_holes_hierarchy filter_two_holes
    = Ret (foreground_contours, hole_contours) /\
    length hole_contours = length filtered /\
    forall (k : nat) cont_idx,
      filtered !! k = Some cont_idx ->
      exists candidates rest,
        let holes := immediate_holes blob_with_holes
                       (map snd blob_with_holes_hierarchy) cont_idx in
        Permutation holes (candidates ++ rest) /\
        StronglySorted (key_ge polygon_area) (candidates ++ rest) /\
        length candidates = Nat.min (Z.to_nat 2) (length holes) /\
        hole_contours !! k
        = Some (List.filter (fun hole => Qlt_bool (Qz 3) (polygon_area hole))
                            candidates).
Proof.
  apply (hole_ranking (cv := cv2_finding ([], [])) blob_with_holes
           blob_with_holes_hierarchy filter_two_holes).
  - reflexivity.
  - simpl. lia.
Defined.

(** The holes of areas 9 and 4 are the two candidates and both exceed the
    threshold 3; the hole of area 1 is not looked at. *)
Example hole_ranking_example :
  filter_contours (cv := cv2_finding ([], [])) blob_with_holes
    blob_with_holes_hierarchy filter_two_holes
  = Ret ([[(0, 0); (20, 0); (20, 20); (0, 20)]],
         [[[(5, 5); (8, 5); (8, 8); (5, 8)]; [(1, 1); (3, 1); (3, 3); (1, 3)]]]).
Proof. vm_compute. reflexivity. Qed.

(** ** Merging the per-contour results *)

Lemma last_cons_default {A} (a : A) l d d' :
  List.last (a :: l) d = List.last (a :: l) d'.
Proof.
  revert a. induction l as [|b l IH]; intros a; [done|].
  change (List.last (b :: l) d = List.last (b :: l) d'). apply IH.
Qed.

Lemma last_cons_In {A} (a : A) l d : In (List.last (a :: l) d) (a :: l).
Proof.
  revert a. induction l as [|b l IH]; intros a; [by left|].
  right. change (In (List.last (b :: l) d) (b :: l)). apply IH.
Qed.

Section Merge.

Lemma merge_results_compared results acc :
  Forall reports_level results ->
  (all_equal (compared_levels acc results) ->
   merge_results results acc = Ret (merged_onto acc (producing results))) /\
  (~ all_equal (compared_levels acc results) ->
   merge_results results acc = Raise AssertionError).
Proof.
  intros Hall. revert acc.
  induction Hall as [|r results Hr Hall IH]; intros acc.
  - split; [done|]. intros Hne. exfalso. apply Hne.
    unfold compared_levels, producing. simpl. rewrite app_nil_r.
    destruct (tile_level acc); intros a b Ha Hb; simpl in *; [|done].
    destruct Ha as [<-|[]], Hb as [<-|[]]. done.
  - cbn [merge_results]. unfold compared_levels, producing. cbn [List.filter].
    destruct (0 <? Z.of_nat (length (x_coords r))) eqn:E.
    2:{ apply IH. }
    assert (Hx : x_coords r <> []) by (intros Hx; rewrite Hx in E; done).
    destruct (Hr Hx) as [lr Hlr].
    set (merged := {| x_coords := x_coords acc ++ x_coords r;
                      y_coords := y_coords acc ++ y_coords r;
                      tissue_pct := tissue_pct acc ++ tissue_pct r;
                      tile_level := tile_level r;
                      resize_factor := resize_factor r |}).
    assert (Hcl : compared_levels merged results
                  = Some lr :: map tile_level (producing results)).
    { unfold compared_levels. simpl. by rewrite Hlr. }
    destruct (IH merged) as [IHeq IHne]. rewrite Hcl in IHeq, IHne.
    cbn [map fold_left merged_onto]. fold merged. rewrite Hlr.
    fold (merged_onto merged (producing results)).
    destruct (tile_level acc) as [la|] eqn:Ela.
    + case_bool_decide as Hd.
      * injection Hd as ->. split.
        -- intros Heq. apply IHeq. intros a b Ha Hb.
           apply Heq; simpl; by right.
        -- intros Hne. apply IHne. intros Heq. apply Hne.
           intros a b Ha Hb. simpl in Ha, Hb.
           apply Heq; simpl; tauto.
      * split; [|done]. intros Heq. exfalso. apply Hd.
        symmetry. apply Heq; simpl; auto.
    + simpl. split; [apply IHeq | apply IHne].
Qed.

Lemma merged_onto_last acc rs :
  tile_level (merged_onto acc rs) = tile_level (List.last rs acc) /\
  resize_factor (merged_onto acc rs) = resize_factor (List.last rs acc) /\
  x_coords (merged_onto acc rs) = x_coords acc ++ concat (map x_coords rs) /\
  y_coords (merged_onto acc rs) = y_coords acc ++ concat (map y_coords rs) /\
  tissue_pct (merged_onto acc rs) = tissue_pct acc ++ concat (map tissue_pct rs).
Proof.
  revert acc. induction rs as [|r rs IH]; intros acc.
  - simpl. by rewrite !app_nil_r.
  - cbn [merged_onto fold_left]. fold (merged_onto
      {| x_coords := x_coords acc ++ x_coords r;
         y_coords := y_coords acc ++ y_coords r;
         tissue_pct := tissue_pct acc ++ tissue_pct r;
         tile_level := tile_level r;
         resize_factor := resize_factor r |} rs).
    destruct (IH {| x_coords := x_coords acc ++ x_coords r;
         y_coords := y_coords acc ++ y_coords r;
         tissue_pct := tissue_pct acc ++ tissue_pct r;
         tile_level := tile_level r;
         resize_factor := resize_factor r |}) as (H1 & H2 & H3 & H4 & H5).
    rewrite H1, H2, H3, H4, H5. cbn [map concat x_coords y_coords tissue_pct].
    rewrite <- !app_assoc. split_and!; try done.
    + destruct rs as [|t rs]; [done|].
      by rewrite (last_cons_default t rs _ acc).
    + destruct rs as [|t rs]; [done|].
      by rewrite (last_cons_default t rs _ acc).
Qed.

End Merge.

(** C6: the loop of [process_contours] over per-contour results raises
    [AssertionError] when two results that produced at least one tile report
    different tile levels; otherwise it returns the concatenated tiles with
    the tile level common to these results and the resize factor of the
    last of them; results without tiles (level [None]) take no part. *)
Theorem merge_results_level_consistency results :
  Forall reports_level results ->
  ((exists r1 r2, In r1 (producing results) /\ In r2 (producing results) /\
                  tile_level r1 <> tile_level r2) ->
   merge_results results no_tiles = Raise AssertionError) /\
  ((forall r1 r2, In r1 (producing results) -> In r2 (producing results) ->
                  tile_level r1 = tile_level r2) ->
   exists merged,
     merge_results results no_tiles = Ret merged /\
     (forall r, In r (producing results) -> tile_level merged = tile_level r) /\
     tile_level merged = tile_level (List.last (producing results) no_tiles) /\
     resize_factor merged = resize_factor (List.last (producing results) no_tiles) /\
     x_coords merged = concat (map x_coords (producing results)) /\
     y_coords merged = concat (map y_coords (producing results)) /\
     tissue_pct merged = concat (map tissue_pct (producing results))).
Proof.
  intros Hall.
  destruct (merge_results_compared results no_tiles Hall) as [Heq Hne].
  unfold compared_levels in Heq, Hne. simpl in Heq, Hne.
  split.
  - intros (r1 & r2 & H1 & H2 & Hdiff). apply Hne. intros Hall_eq.
    apply Hdiff. apply Hall_eq; by apply in_map.
  - intros Hsame. exists (merged_onto no_tiles (producing results)).
    destruct (merged_onto_last no_tiles (producing results))
      as (H1 & H2 & H3 & H4 & H5).
    split_and!; try done.
    + apply Heq. intros a b Ha Hb.
      apply in_map_iff in Ha as (r1 & <- & Hr1).
      apply in_map_iff in Hb as (r2 & <- & Hr2). by apply Hsame.
    + intros r Hr. rewrite H1.
      destruct (producing results) as [|t rs] eqn:E; [done|].
      apply Hsame; [|done]. apply last_cons_In.
Qed.

Lemma merge_results_level_consistency_witness :
  merge_results [tiles_at 1 0 0; no_tiles; tiles_at 2 64 0] no_tiles
  = Raise AssertionError.
Proof.
  apply (merge_results_level_consistency
           [tiles_at 1 0 0; no_tiles; tiles_at 2 64 0]).
  - repeat constructor.
    + intros _. by exists 1.
    + intros H. by destruct H.
    + intros _. by exists 2.
  - exists (tiles_at 1 0 0), (tiles_at 2 64 0). simpl.
    split_and!; auto; discriminate.
Defined.

(** Results at the same level are merged in order; the contour without
    tiles is skipped. *)
Example merge_results_same_level :
  merge_results [tiles_at 1 0 0; no_tiles; tiles_at 1 64 0] no_tiles
  = Ret {| x_coords := [0; 64]; y_coords := [0; 0]; tissue_pct := [1; 1]%Q;
           tile_level := Some 1; resize_factor := Some 1%Q |}.
Proof. reflexivity. Qed.

(** ** Running the pure steps *)

Lemma run_index_Ok {A} (l : list A) i s a s' :
  run s (index l i) = (Ok a, s') -> s' = s /\ py_index l i = Some a.
Proof.
  unfold index. destruct (py_index l i); simpl; intros H; [|discriminate].
  by injection H as -> ->.
Qed.

Lemma run_py_div_Ok a b s q s' :
  run s (py_div a b) = (Ok q, s') ->
  s' = s /\ ~ (b == 0)%Q /\ q = binary64 (a / b).
Proof.
  unfold py_div. destruct (Qeq_bool b 0) eqn:E; simpl; intros H; [discriminate|].
  injection H as <- <-. split_and!; [done| |done]. by apply Qeq_bool_neq.
Qed.

Lemma run_np_arange_Ok start stop step s l s' :
  run s (np_arange start stop step) = (Ok l, s') ->
  s' = s /\ step <> 0 /\
  l = map (fun i : nat => start + Z.of_nat i * step)
          (seq 0 (Z.to_nat (- ((start - stop) / step)))).
Proof.
  unfold np_arange. destruct (Z.eqb_spec step 0); simpl; intros H; [discriminate|].
  by injection H as <- <-.
Qed.

Lemma run_np_select_Ok {A} (arr : list A) flags s l s' :
  run s (np_select arr flags) = (Ok l, s') ->
  s' = s /\ length arr = length flags /\
  l = map fst (List.filter snd (combine arr flags)).
Proof.
  unfold np_select. destruct (Nat.eqb_spec (length arr) (length flags));
    simpl; intros H; [|discriminate].
  by injection H as <- <-.
Qed.

Lemma merge_results_no_tiles results acc :
  Forall (fun r => x_coords r = []) results -> merge_results results acc = Ret acc.
Proof.
  induction 1 as [|r results Hr _ IH]; [done|].
  cbn [merge_results]. by rewrite Hr.
Qed.

(** ** Whole-slide mode *)

Lemma process_contour_without_contour {cv : Cv2} {tc : TissueChecker}
    sl holes tp s r s' :
  run s (process_contour sl None holes tp) <> (Ok r, s').
Proof.
  unfold process_contour. intros H.
  apply run_bind_Ok in H as (g & s1 & _ & H).
  apply run_bind_Ok in H as (scale & s2 & _ & H).
  apply run_bind_Ok in H as (inv_0 & s3 & _ & H).
  apply run_bind_Ok in H as (inv_1 & s4 & _ & H).
  apply run_bind_Ok in H as (scaled & s5 & H & _).
  discriminate H.
Qed.

(** C5 (the code at the failing input): in whole-slide mode
    ([contour is None]) [process_contour] raises [TypeError] when it
    rescales the absent contour, before any candidate tile exists. *)
Theorem process_contour_whole_slide_raises :
  fst (run initial_state
         (process_contour (cv := cv2_finding ([], [])) (tc := keep_every_tile)
            slide_1_4_16 None [] tiling_16_at_1))
  = Exc TypeError.
Proof. vm_compute. reflexivity. Qed.

(** The scan bounds chosen before the failure: at tile level 1 the box
    spans 400 x 400, the pixel dimensions of level 1, while level 0 is
    1600 x 1600. *)
Example scan_grid_whole_slide :
  fst (run initial_state
         (scan_grid (cv := cv2_finding ([], [])) slide_1_4_16 None tiling_16_at_1))
  = Ok {| grid_tile_level := 1;
          grid_resize_factor := 1;
          grid_start := (0, 0);
          grid_stop := (400, 400);
          grid_ref_tile_size := (64, 64);
          grid_ref_step_size := (64, 64) |}.
Proof. vm_compute. reflexivity. Qed.

(** ** The candidate grid *)

Lemma py_index_In {A} (l : list A) i a : py_index l i = Some a -> In a l.
Proof.
  unfold py_index. intros H. apply list_elem_of_In.
  destruct (0 <=? i); [by eapply list_elem_of_lookup_2|].
  destruct (- Z.of_nat (length l) <=? i); [by eapply list_elem_of_lookup_2 | done].
Qed.

Lemma py_int_nonneg q : (0 <= q)%Q -> 0 <= py_int q.
Proof.
  intros H. unfold py_int. apply Z.quot_pos; [|lia].
  unfold Qle in H. simpl in H. lia.
Qed.

Lemma yields_run_cache {A} sl m (K : gset Z) (p : prog A) r s :
  yields sl m K p r ->
  cache_ok sl s -> K ⊆ dom (level_spacing_cache s) ->
  cache_ok sl (snd (run s p)).
Proof.
  intros H. revert s. induction H; intros s Hc HK; simpl; try done.
  - case_bool_decide as Hin.
    + apply H2; auto.
      * destruct Hin as [v Hv]. exists v. by apply Hc.
      * apply elem_of_dom in Hin. set_solver.
    + apply H0; auto. intros Hk. apply Hin, elem_of_dom. set_solver.
  - apply IHyields.
    + by apply cache_ok_store.
    + simpl. rewrite dom_insert_L. set_solver.
  - assert (Hin : l ∈ dom (level_spacing_cache s)) by set_solver.
    apply elem_of_dom in Hin. destruct Hin as [v Hv]. rewrite Hv.
    apply H1; auto.
  - destruct (warning_lock s); [done|]. by apply IHyields.
  - destruct (printed_warning s); [by apply IHyields1 | by apply IHyields2].
  - by apply IHyields.
  - by apply IHyields.
  - by apply IHyields.
Qed.

Lemma run_get_best_level_for_spacing_cache sl target tol verbose s :
  cache_ok sl s ->
  cache_ok sl (snd (run s (get_best_level_for_spacing sl target tol verbose))).
Proof.
  intros Hc.
  destruct (settled_get_best_level_for_spacing sl target tol verbose ∅) as [r Hr].
  eapply yields_run_cache; eauto. set_solver.
Qed.

Lemma run_get_level_spacing_Ok sl s level v s' :
  cache_ok sl s ->
  run s (get_level_spacing sl level) = (Ok v, s') ->
  py_index (spacings sl) level = Some v /\ cache_ok sl s'.
Proof.
  intros Hc H. pose proof (run_get_level_spacing sl s level Hc) as Hrun.
  destruct (py_index (spacings sl) level) as [v'|].
  - destruct Hrun as (s'' & Hrun & Hc' & _). rewrite Hrun in H.
    by injection H as -> ->.
  - rewrite Hrun in H. discriminate.
Qed.

Section Grid.
Context {cv : Cv2}.

(** The grid [scan_grid] returns for a contour, from the level it
    resolved. *)
Lemma run_scan_grid_Some sl c tp s g s1 :
  cache_ok sl s ->
  run s (scan_grid sl (Some c) tp) = (Ok g, s1) ->
  exists tile_level (within : bool) tile_spacing ds img_w img_h,
    py_index (spacings sl) tile_level = Some tile_spacing /\
    py_index (level_downsamples sl) tile_level = Some ds /\
    py_index (level_dimensions sl) 0 = Some (img_w, img_h) /\
    let rf := if within then 1%Q else binary64 (spacing tp / tile_spacing) in
    let tsr := py_int (fmul (py_float (tile_size tp)) rf) in
    let step := py_int (fmul (py_float tsr) (fsub 1 (overlap tp))) in
    let ref_x := tsr * py_int (fst ds) in
    let ref_y := tsr * py_int (snd ds) in
    let '(x0, y0, w, h) := boundingRect c in
    g = {| grid_tile_level := tile_level;
           grid_resize_factor := rf;
           grid_start := (x0, y0);
           grid_stop :=
             if use_padding tp then (x0 + w, y0 + h)
             else (Z.min (x0 + w) (img_w - ref_x + 1),
                   Z.min (y0 + h) (img_h - ref_y + 1));
           grid_ref_tile_size := (ref_x, ref_y);
           grid_ref_step_size := (step * py_int (fst ds), step * py_int (snd ds)) |}.
Proof.
  intros Hc H. unfold scan_grid in H.
  apply run_bind_Ok in H as ([tile_level within] & sA & HA & H).
  assert (HcA : cache_ok sl sA).
  { pose proof (run_get_best_level_for_spacing_cache sl (spacing tp) (tolerance tp)
                  true s Hc) as Hc'. by rewrite HA in Hc'. }
  apply run_bind_Ok in H as (tile_spacing & sB & HB & H).
  apply (run_get_level_spacing_Ok _ _ _ _ _ HcA) in HB as [Hsp _].
  apply run_bind_Ok in H as (rf0 & sC & HC & H).
  apply run_py_div_Ok in HC as (-> & _ & ->).
  cbn [bind] in H.
  destruct (boundingRect c) as [[[x0 y0] w] h] eqn:Ebr.
  apply run_bind_Ok in H as (ds & sD & HD & H).
  apply run_index_Ok in HD as (-> & Hds).
  apply run_bind_Ok in H as ([img_w img_h] & sE & HE & H).
  apply run_index_Ok in HE as (-> & Hdim).
  exists tile_level, within, tile_spacing, ds, img_w, img_h.
  split_and!; try done. cbv zeta.
  destruct (use_padding tp); simpl in H; by injection H as <- _.
Qed.

End Grid.

Lemma np_arange_bounds start stop step x :
  0 < step ->
  In x (map (fun i : nat => start + Z.of_nat i * step)
            (seq 0 (Z.to_nat (- ((start - stop) / step))))) ->
  start <= x < stop.
Proof.
  intros Hstep Hx. apply in_map_iff in Hx as (i & <- & Hi).
  apply in_seq in Hi.
  pose proof (Z.div_mod (start - stop) step ltac:(lia)) as Hdm.
  pose proof (Z.mod_pos_bound (start - stop) step Hstep) as Hr.
  split; [nia|].
  assert (Hi' : Z.of_nat i + 1 <= - ((start - stop) / step)) by lia.
  nia.
Qed.

Lemma in_meshgrid_ij xs ys x y :
  In (x, y) (meshgrid_ij xs ys) <-> In x xs /\ In y ys.
Proof.
  unfold meshgrid_ij. rewrite in_flat_map. split.
  - intros (x' & Hx' & Hin). apply in_map_iff in Hin as (y' & [= <- <-] & Hy').
    done.
  - intros [Hx Hy]. exists x. split; [done|]. apply in_map_iff. eauto.
Qed.

Lemma in_selected {A} (arr : list A) flags a :
  In a (map fst (List.filter snd (combine arr flags))) -> In a arr.
Proof.
  intros H. apply in_map_iff in H as ([a' b] & <- & H).
  apply filter_In in H as [H _]. by apply in_combine_l in H.
Qed.

Lemma combine_fst_snd {A B} (l : list (A * B)) :
  combine (map fst l) (map snd l) = l.
Proof. induction l as [|[a b] l IH]; simpl; [done | by rewrite IH]. Qed.

(** ** Threads sharing the cache, the lock and the flag *)

Lemma flag_ok_length m s : flag_ok m s -> (length (printed s) <= 1)%nat.
Proof.
  destruct m; simpl; intros [H1 H2]; try done.
  - rewrite H2. simpl. lia.
  - lia.
Qed.

Lemma mode_of_held holder i m :
  mode_of holder i = m -> m <> Unlocked -> holder = Some (i, m).
Proof.
  unfold mode_of. destruct holder as [[j m']|]; [|congruence].
  destruct (Nat.eqb_spec i j); [|congruence]. by intros -> _; subst.
Qed.

Lemma mode_of_same i m : mode_of (Some (i, m)) i = m.
Proof. unfold mode_of. by rewrite Nat.eqb_refl. Qed.

Lemma mode_of_other i j m : j <> i -> mode_of (Some (i, m)) j = Unlocked.
Proof. intros H. unfold mode_of. by destruct (Nat.eqb_spec j i). Qed.

(** Rebuilding the invariant after thread [i] made a step. *)
Lemma pool_ok_step {A} sl (rs : list (outcome A)) s ts i p p' s' holder holder' :
  ts !! i = Some p ->
  cache_ok sl s' ->
  dom (level_spacing_cache s) ⊆ dom (level_spacing_cache s') ->
  length ts = length rs ->
  warning_lock s' = bool_decide (is_Some holder') ->
  (forall j m, holder' = Some (j, m) -> m <> Unlocked /\ (j < length ts)%nat) ->
  flag_ok (holder_mode holder') s' ->
  (forall j, j <> i -> mode_of holder' j = mode_of holder j) ->
  (forall j q r, ts !! j = Some q -> rs !! j = Some r ->
     exists K : gset Z,
       K ⊆ dom (level_spacing_cache s) /\ yields sl (mode_of holder j) K q r) ->
  (forall r, rs !! i = Some r ->
     exists K' : gset Z,
       K' ⊆ dom (level_spacing_cache s') /\ yields sl (mode_of holder' i) K' p' r) ->
  pool_ok sl rs (s', <[i := p']> ts).
Proof.
  intros Hi Hc Hdom Hlen Hlock Hholder Hflag Hother Hthreads Hself.
  assert (Hlt : (i < length ts)%nat) by (by eapply lookup_lt_Some).
  split; [done|]. split; [by rewrite length_insert|].
  exists holder'. split_and!; try done.
  - intros j m Hj. destruct (Hholder j m Hj) as [? ?].
    by rewrite length_insert.
  - intros j q r Hq Hr. destruct (decide (j = i)) as [->|Hne].
    + rewrite list_lookup_insert_eq in Hq by done. injection Hq as <-.
      by apply Hself.
    + rewrite list_lookup_insert_ne in Hq by done.
      destruct (Hthreads j q r Hq Hr) as (K & HK & Hy).
      exists K. rewrite (Hother j Hne). split; [set_solver | done].
Qed.

Lemma flag_ok_set_cache m s c : flag_ok m (set_cache s c) <-> flag_ok m s.
Proof. by destruct m. Qed.

Lemma executor_step_pool_ok {A} sl (rs : list (outcome A)) max_workers c c' :
  pool_ok sl rs c -> executor_step max_workers c c' -> pool_ok sl rs c'.
Proof.
  intros Hok Hstep. destruct Hstep as [s ts i p s' p' Hi _ Hexec].
  destruct Hok as (Hc & Hlen & holder & Hlock & Hholder & Hflag & Hthreads).
  assert (Hlt : (i < length ts)%nat) by (by eapply lookup_lt_Some).
  assert (exists r, rs !! i = Some r) as [r Hr].
  { apply lookup_lt_is_Some. by rewrite <- Hlen. }
  destruct (Hthreads i p r Hi Hr) as (K & HK & Hy).
  remember (mode_of holder i) as m eqn:Hm. symmetry in Hm.
  destruct Hy as [K a|K e|K l k r Hfalse Htrue|K l v k r Hv Hk|K l k r Hl Hk
                 |K k r Hk|K k r Htrue Hfalse|K msg k r Hk|K k r Hk|K k r Hk];
    simpl in Hexec.
  - discriminate.
  - discriminate.
  - (* CacheContains *)
    injection Hexec as <- <-.
    eapply (pool_ok_step sl rs s ts i _ _ s holder holder);
      [exact Hi | exact Hc | done | exact Hlen | exact Hlock | exact Hholder
      | exact Hflag | done | exact Hthreads | ].
    intros r' Hr'. rewrite Hr in Hr'. injection Hr' as <-. rewrite Hm.
    destruct (decide (is_Some (level_spacing_cache s !! l))) as [Hin|Hin].
    + rewrite (bool_decide_eq_true_2 _ Hin). exists ({[l]} ∪ K). split.
      * apply elem_of_dom in Hin. set_solver.
      * apply Htrue. destruct Hin as [v Hv]. exists v. by apply Hc.
    + rewrite (bool_decide_eq_false_2 _ Hin). exists K. split; [done|].
      apply Hfalse. intros Hk. apply Hin, elem_of_dom. set_solver.
  - (* CacheStore *)
    injection Hexec as <- <-.
    eapply (pool_ok_step sl rs s ts i _ _ _ holder holder);
      [exact Hi | by apply cache_ok_store | | exact Hlen | exact Hlock
      | exact Hholder | by apply flag_ok_set_cache | done | exact Hthreads | ].
    + simpl. rewrite dom_insert_L. set_solver.
    + intros r' Hr'. rewrite Hr in Hr'. injection Hr' as <-. rewrite Hm.
      exists ({[l]} ∪ K). split; [|done]. simpl. rewrite dom_insert_L. set_solver.
  - (* CacheLoad *)
    assert (Hin : l ∈ dom (level_spacing_cache s)) by set_solver.
    apply elem_of_dom in Hin. destruct Hin as [v Hv]. rewrite Hv in Hexec.
    injection Hexec as <- <-.
    eapply (pool_ok_step sl rs s ts i _ _ s holder holder);
      [exact Hi | exact Hc | done | exact Hlen | exact Hlock | exact Hholder
      | exact Hflag | done | exact Hthreads | ].
    intros r' Hr'. rewrite Hr in Hr'. injection Hr' as <-. rewrite Hm.
    exists K. split; [done|]. apply Hk. by apply Hc.
  - (* LockAcquire *)
    destruct (warning_lock s) eqn:El; [discriminate|]. injection Hexec as <- <-.
    assert (holder = None) as ->.
    { destruct holder; [|done]. by rewrite bool_decide_eq_true_2 in Hlock. }
    eapply (pool_ok_step sl rs s ts i _ _ _ None (Some (i, Locked)));
      [exact Hi | exact Hc | done | exact Hlen | done | | exact Hflag | 
      | exact Hthreads | ].
    + intros j m' [= <- <-]. done.
    + intros j Hj. by apply mode_of_other.
    + intros r' Hr'. rewrite Hr in Hr'. injection Hr' as <-.
      rewrite mode_of_same. by exists K.
  - (* ReadPrinted *)
    apply mode_of_held in Hm as ->; [|done]. injection Hexec as <- <-.
    eapply (pool_ok_step sl rs s ts i _ _ s (Some (i, Locked))
              (Some (i, if printed_warning s then Leaving else Fresh)));
      [exact Hi | exact Hc | done | exact Hlen | exact Hlock | | |
      | exact Hthreads | ].
    + intros j m' [= <- <-]. split; [by destruct (printed_warning s) | done].
    + simpl in *. destruct Hflag as [Hf1 Hf2].
      destruct (printed_warning s) eqn:Ep; simpl; auto.
    + intros j Hj. by rewrite !mode_of_other.
    + intros r' Hr'. rewrite Hr in Hr'. injection Hr' as <-.
      rewrite mode_of_same. exists K. split; [done|].
      by destruct (printed_warning s).
  - (* Print *)
    apply mode_of_held in Hm as ->; [|done]. injection Hexec as <- <-.
    eapply (pool_ok_step sl rs s ts i _ _ _ (Some (i, Fresh)) (Some (i, Printing)));
      [exact Hi | exact Hc | done | exact Hlen | exact Hlock | | |
      | exact Hthreads | ].
    + intros j m' [= <- <-]. done.
    + simpl in *. destruct Hflag as [Hf1 Hf2]. by rewrite Hf2.
    + intros j Hj. by rewrite !mode_of_other.
    + intros r' Hr'. rewrite Hr in Hr'. injection Hr' as <-.
      rewrite mode_of_same. by exists K.
  - (* WritePrinted *)
    apply mode_of_held in Hm as ->; [|done]. injection Hexec as <- <-.
    eapply (pool_ok_step sl rs s ts i _ _ _ (Some (i, Printing)) (Some (i, Leaving)));
      [exact Hi | exact Hc | done | exact Hlen | exact Hlock | | |
      | exact Hthreads | ].
    + intros j m' [= <- <-]. done.
    + simpl in *. destruct Hflag as [Hf1 Hf2]. split; [done | lia].
    + intros j Hj. by rewrite !mode_of_other.
    + intros r' Hr'. rewrite Hr in Hr'. injection Hr' as <-.
      rewrite mode_of_same. by exists K.
  - (* LockRelease *)
    apply mode_of_held in Hm as ->; [|done]. injection Hexec as <- <-.
    eapply (pool_ok_step sl rs s ts i _ _ _ (Some (i, Leaving)) None);
      [exact Hi | exact Hc | done | exact Hlen | done | | |
      | exact Hthreads | ].
    + intros j m' [=].
    + simpl in *. destruct Hflag as [Hf1 Hf2]. split; [congruence | done].
    + intros j Hj. by rewrite mode_of_other.
    + intros r' Hr'. rewrite Hr in Hr'. injection Hr' as <-. by exists K.
Qed.

Lemma executor_steps_pool_ok {A} sl (rs : list (outcome A)) max_workers c c' :
  pool_ok sl rs c -> executor_steps max_workers c c' -> pool_ok sl rs c'.
Proof.
  intros Hok Hsteps. induction Hsteps as [|c1 c2 c3 _ IH Hstep]; [done|].
  eapply executor_step_pool_ok; [|exact Hstep]. by apply IH.
Qed.

Lemma pool_ok_start {A} sl (ts : list (prog A)) rs s :
  consistent sl s ->
  Forall2 (fun p r => yields sl Unlocked ∅ p r) ts rs ->
  pool_ok sl rs (s, ts).
Proof.
  intros (Hc & Hlock & Hflag) Hall. split; [done|].
  split; [by eapply Forall2_length|].
  exists None. split_and!; try done.
  intros i p r Hp Hr. exists ∅. split; [set_solver|].
  simpl. by eapply (Forall2_lookup_lr _ ts rs i).
Qed.

Lemma pool_ok_printed {A} sl (rs : list (outcome A)) s ts :
  pool_ok sl rs (s, ts) -> (length (printed s) <= 1)%nat.
Proof.
  intros (_ & _ & holder & _ & _ & Hflag & _). by eapply flag_ok_length.
Qed.

(** ** Every operation of the slide is settled *)

Lemma settled_np_arange sl K start stop step : settled sl K (np_arange start stop step).
Proof. unfold np_arange. destruct (step =? 0); [apply settled_Raise | apply settled_Ret]. Qed.

Lemma settled_np_select {A} sl K (arr : list A) flags : settled sl K (np_select arr flags).
Proof.
  unfold np_select. destruct (Nat.eqb _ _); [apply settled_Ret | apply settled_Raise].
Qed.

Lemma settled_scale_contour `{cv : Cv2} sl K scale cont :
  settled sl K (scale_contour scale cont).
Proof. destruct cont; [apply settled_Ret | apply settled_Raise]. Qed.

Lemma settled_np_argmin sl K l : settled sl K (np_argmin l).
Proof. eexists. apply yields_np_argmin. Qed.

Ltac settle_step :=
  lazymatch goal with
  | |- settled _ _ (Ret _) => apply settled_Ret
  | |- settled _ _ (Raise _) => apply settled_Raise
  | |- settled _ _ (bind _ _) => apply settled_bind; [|intros ? ? _]
  | |- settled _ _ (py_div _ _) => apply settled_py_div
  | |- settled _ _ (index _ _) => apply settled_index
  | |- settled _ _ (np_arange _ _ _) => apply settled_np_arange
  | |- settled _ _ (np_select _ _) => apply settled_np_select
  | |- settled _ _ (scale_contour _ _) => apply settled_scale_contour
  | |- settled _ _ (get_level_spacing _ _) => apply settled_get_level_spacing
  | |- settled _ _ (get_best_level_for_spacing _ _ _ _) =>
      apply settled_get_best_level_for_spacing
  | |- settled _ _ (map_prog _ _) => apply settled_map_prog; intros ? ?
  | |- settled _ _ (match ?x with _ => _ end) => destruct x
  | |- settled _ _ (let _ := _ in _) => cbv zeta
  | |- settled _ _ ((fun _ => _) _) => cbv beta
  end.

Ltac settle := repeat settle_step.

Section Settled.
Context {cv : Cv2} {tc : TissueChecker}.

Lemma settled_select_foreground sl K contours parents fp todo filtered all_holes :
  settled sl K (select_foreground contours parents fp todo filtered all_holes).
Proof.
  revert K filtered all_holes.
  induction todo as [|idx todo IH]; intros K filtered all_holes;
    cbn [select_foreground]; [apply settled_Ret|].
  apply settled_bind; [apply settled_index|]. intros cont K1 _.
  apply settled_bind; [unfold region_area; settle|]. intros a K2 _.
  destruct (Qeq_bool a 0); [apply IH|].
  destruct (Qlt_bool _ _); apply IH.
Qed.

Lemma settled_filter_contours sl K contours hierarchy fp :
  settled sl K (filter_contours contours hierarchy fp).
Proof.
  unfold filter_contours, foreground_indices.
  apply settled_bind; [apply settled_select_foreground|]. intros [filtered holes] K1 _.
  unfold select_holes. settle.
Qed.

Lemma settled_detect_contours sl K target tol fp :
  settled sl K (detect_contours sl target tol fp).
Proof.
  unfold detect_contours, scaled_filter_params, scaleContourDim, scaleHolesDim.
  settle. apply settled_filter_contours.
Qed.

Lemma settled_scan_grid sl K cont tp : settled sl K (scan_grid sl cont tp).
Proof. unfold scan_grid. settle. Qed.

Lemma settled_process_contour sl K cont holes tp :
  settled sl K (process_contour sl cont holes tp).
Proof.
  unfold process_contour, scaleContourDim.
  apply settled_bind; [apply settled_scan_grid|]. intros g K1 _. settle.
  apply settled_Raise.
Qed.

Lemma settled_merge_results sl K results acc : settled sl K (merge_results results acc).
Proof.
  revert acc. induction results as [|r results IH]; intros acc; cbn [merge_results].
  - apply settled_Ret.
  - destruct (0 <? _); [|apply IH]. destruct (tile_level acc); [|apply IH].
    destruct (bool_decide _); [apply IH | apply settled_Raise].
Qed.

Lemma settled_contour_tasks sl contours holes tp :
  Forall (fun task => forall K, settled sl K task) (contour_tasks sl contours holes tp).
Proof.
  unfold contour_tasks. apply List.Forall_forall. intros task Hin.
  apply in_map_iff in Hin as (i & <- & _). intros K.
  settle. apply settled_process_contour.
Qed.

End Settled.

(** ** The executor can run the tasks one after the other *)

Lemma executor_steps_trans {A} max_workers (c1 c2 c3 : state * list (prog A)) :
  executor_steps max_workers c1 c2 -> executor_steps max_workers c2 c3 ->
  executor_steps max_workers c1 c3.
Proof.
  intros H12 H23. induction H23 as [|c2 c3 c4 _ IH Hstep]; [done|].
  eapply executor_steps_step; [by apply IH | exact Hstep].
Qed.

Lemma executor_step_first_unfinished {A} max_workers s (finished_tasks : list (prog A))
    p rest s' p' :
  (0 < max_workers)%nat ->
  Forall (fun q => finished q = true) finished_tasks ->
  exec1 s p = Some (s', p') ->
  executor_step max_workers (s, finished_tasks ++ p :: rest)
                            (s', finished_tasks ++ p' :: rest).
Proof.
  intros Hn Hdone Hexec.
  replace (finished_tasks ++ p' :: rest)
    with (<[length finished_tasks := p']> (finished_tasks ++ p :: rest)).
  2:{ rewrite insert_app_r_alt by lia. by rewrite Nat.sub_diag. }
  econstructor; [by apply list_lookup_middle | | exact Hexec].
  rewrite take_app_length.
  replace (List.filter (fun q => negb (finished q)) finished_tasks) with (@nil (prog A));
    [simpl; lia|].
  induction Hdone as [|q l Hq _ IH]; [done|]. simpl. by rewrite Hq.
Qed.

Lemma executor_steps_run_task {A} max_workers (finished_tasks : list (prog A))
    p rest s r s' :
  (0 < max_workers)%nat ->
  Forall (fun q => finished q = true) finished_tasks ->
  run s p = (r, s') -> r <> Blocked ->
  exists p',
    executor_steps max_workers (s, finished_tasks ++ p :: rest)
                               (s', finished_tasks ++ p' :: rest) /\
    finished p' = true /\ result_of p' = r.
Proof.
  intros Hn Hdone. revert s.
  assert (Hcons : forall s p1 s1 p2,
             exec1 s p1 = Some (s1, p2) ->
             (exists p', executor_steps max_workers (s1, finished_tasks ++ p2 :: rest)
                           (s', finished_tasks ++ p' :: rest) /\
                         finished p' = true /\ result_of p' = r) ->
             exists p', executor_steps max_workers (s, finished_tasks ++ p1 :: rest)
                          (s', finished_tasks ++ p' :: rest) /\
                        finished p' = true /\ result_of p' = r).
  { intros s p1 s1 p2 Hexec (p' & Hsteps & Hfin & Hres). exists p'.
    split; [|done]. eapply executor_steps_trans; [|exact Hsteps].
    eapply executor_steps_step; [apply executor_steps_refl|].
    by apply executor_step_first_unfinished. }
  induction p as [a|e|l k IH|l v k IH|l k IH|k IH|k IH|k IH|b k IH|m k IH];
    intros s Hrun Hr; simpl in Hrun.
  - injection Hrun as <- <-. exists (Ret a). split; [apply executor_steps_refl | done].
  - injection Hrun as <- <-. exists (Raise e). split; [apply executor_steps_refl | done].
  - eapply Hcons; [reflexivity|]. by apply IH.
  - eapply Hcons; [reflexivity|]. by apply IH.
  - destruct (level_spacing_cache s !! l) as [v|] eqn:E.
    + eapply Hcons; [simpl; by rewrite E|]. by apply IH.
    + injection Hrun as <- <-.
      eapply Hcons; [simpl; by rewrite E|].
      exists (Raise KeyError). split; [apply executor_steps_refl | done].
  - destruct (warning_lock s) eqn:E.
    + injection Hrun as <- <-. done.
    + eapply Hcons; [simpl; by rewrite E|]. by apply IH.
  - eapply Hcons; [reflexivity|]. by apply IH.
  - eapply Hcons; [reflexivity|]. by apply IH.
  - eapply Hcons; [reflexivity|]. by apply IH.
  - eapply Hcons; [reflexivity|]. by apply IH.
Qed.

(** ** The tolerance diagnostic *)

Lemma consistent_initial sl : consistent sl initial_state.
Proof.
  unfold consistent. split; [apply cache_ok_initial|].
  split; [reflexivity|]. split; [reflexivity | simpl; lia].
Qed.

Lemma settled_outcomes {A} sl (ts : list (prog A)) :
  Forall (fun p => settled sl ∅ p) ts ->
  exists rs, Forall2 (fun p r => yields sl Unlocked ∅ p r) ts rs.
Proof.
  induction 1 as [|p ts [r Hr] _ [rs IH]].
  - exists []. constructor.
  - exists (r :: rs). by constructor.
Qed.

Lemma settled_thread_prog {cv : Cv2} {tc : TissueChecker} sl K calls :
  settled sl K (thread_prog sl calls).
Proof.
  revert K. induction calls as [|c calls IH]; intros K; cbn [thread_prog].
  - apply settled_Ret.
  - apply settled_finally; [|intros K' _; apply IH].
    destruct c; unfold call_prog.
    + settle.
    + apply settled_bind; [apply settled_process_contour | intros; apply settled_Ret].
Qed.

(** C8: whatever calls to [get_best_level_for_spacing] (direct ones or those
    of [process_contour]) the threads of a process make, and however the
    executor interleaves their atomic steps, at no time has the
    tolerance-miss diagnostic been printed more than once since the start
    of the process. *)
Theorem warning_printed_at_most_once {cv : Cv2} {tc : TissueChecker}
    sl max_workers (threads : list (list call)) s ts :
  executor_steps max_workers (initial_state, map (thread_prog sl) threads) (s, ts) ->
  (length (printed s) <= 1)%nat.
Proof.
  intros Hsteps.
  destruct (settled_outcomes sl (map (thread_prog sl) threads)) as [rs Hrs].
  { apply List.Forall_forall. intros p Hp.
    apply in_map_iff in Hp as (calls & <- & _). apply settled_thread_prog. }
  eapply (pool_ok_printed sl rs s ts).
  eapply executor_steps_pool_ok; [|exact Hsteps].
  apply pool_ok_start; [apply consistent_initial | exact Hrs].
Qed.

Lemma warning_printed_at_most_once_witness :
  (length (printed
     (snd (run (snd (run initial_state
                       (thread_prog (cv := cv2_finding ([], []))
                          (tc := keep_every_tile) slide_1_4_16
                          [call_missing_tolerance])))
               (thread_prog (cv := cv2_finding ([], [])) (tc := keep_every_tile)
                  slide_1_4_16 [call_missing_tolerance])))) <= 1)%nat.
Proof.
  set (p := thread_prog (cv := cv2_finding ([], [])) (tc := keep_every_tile)
              slide_1_4_16 [call_missing_tolerance]).
  destruct (executor_steps_run_task 2 [] p [p] initial_state (Ok tt)
              (snd (run initial_state p)))
    as (p1 & Hsteps1 & Hfin1 & _); [lia | constructor | by vm_compute | done |].
  destruct (executor_steps_run_task 2 [p1] p [] (snd (run initial_state p)) (Ok tt)
              (snd (run (snd (run initial_state p)) p)))
    as (p2 & Hsteps2 & _); [lia | by repeat constructor | by vm_compute | done |].
  apply (warning_printed_at_most_once (cv := cv2_finding ([], []))
           (tc := keep_every_tile) slide_1_4_16 2
           [[call_missing_tolerance]; [call_missing_tolerance]]
           _ ([p1] ++ [p2])).
  exact (executor_steps_trans _ _ _ _ Hsteps1 Hsteps2).
Defined.

(** Both threads miss the tolerance; the first prints the diagnostic, the
    second finds the flag set. *)
Example warning_printed_by_first_thread :
  printed
    (snd (run (snd (run initial_state
                      (thread_prog (cv := cv2_finding ([], []))
                         (tc := keep_every_tile) slide_1_4_16
                         [call_missing_tolerance])))
              (thread_prog (cv := cv2_finding ([], [])) (tc := keep_every_tile)
                 slide_1_4_16 [call_missing_tolerance])))
  = [{| msg_tolerance := 1 # 128; msg_target_spacing := 5 # 8;
        msg_level_spacing := 1 # 4 |}].
Proof. vm_compute. reflexivity. Qed.

(** ** Outcomes do not depend on the shared state *)

Lemma consistent_run {A} sl (p : prog A) r s :
  yields sl Unlocked ∅ p r -> consistent sl s ->
  exists s', run s p = (r, s') /\ consistent sl s' /\ r <> Blocked.
Proof.
  intros Hy (Hc & Hl & Hf).
  destruct (yields_run sl Unlocked ∅ p r s Hy Hc ltac:(set_solver) Hl Hf)
    as (s' & Hrun & Hc' & Hl' & Hf' & _ & Hr).
  exists s'. split; [done|]. split; [|done]. unfold consistent. tauto.
Qed.

Lemma run_state_independent {A} sl (p : prog A) s1 s2 :
  settled sl ∅ p -> consistent sl s1 -> consistent sl s2 ->
  fst (run s1 p) = fst (run s2 p).
Proof.
  intros [r Hr] H1 H2.
  destruct (consistent_run sl p r s1 Hr H1) as (s1' & -> & _).
  destruct (consistent_run sl p r s2 Hr H2) as (s2' & -> & _). done.
Qed.

Lemma run_map_prog_yields {A} sl (ps : list (prog A)) rs s :
  consistent sl s ->
  Forall2 (fun p r => yields sl Unlocked ∅ p r) ps rs ->
  exists s', run s (map_prog (fun task => task) ps) = (collect rs, s') /\
             consistent sl s'.
Proof.
  intros Hs Hall. revert s Hs.
  induction Hall as [|p r ps rs Hy _ IH]; intros s Hs; cbn [map_prog collect].
  - by exists s.
  - destruct (consistent_run sl p r s Hy Hs) as (s1 & Hrun & Hs1 & Hr).
    rewrite run_bind, Hrun. destruct r as [a|e|]; [|by exists s1|done].
    destruct (IH s1 Hs1) as (s2 & Hrun2 & Hs2).
    rewrite run_bind, Hrun2. exists s2. by destruct (collect rs).
Qed.

Lemma yields_finished {A} sl m K (p : prog A) r :
  yields sl m K p r -> finished p = true ->
  m = Unlocked /\ yields sl Unlocked ∅ p r.
Proof. intros Hy Hf. destruct Hy; try discriminate; split; by constructor. Qed.

(** When all threads of a pool have finished, each has reached its
    outcome and the state is again one between calls. *)
Lemma pool_ok_finished {A} sl (rs : list (outcome A)) s ts :
  pool_ok sl rs (s, ts) ->
  Forall (fun t => finished t = true) ts ->
  Forall2 (fun p r => yields sl Unlocked ∅ p r) ts rs /\ consistent sl s.
Proof.
  intros (Hc & Hlen & holder & Hlock & Hholder & Hflag & Hthreads) Hfin.
  rewrite List.Forall_forall in Hfin.
  assert (Hnone : holder = None).
  { destruct holder as [[j m]|]; [|done]. exfalso.
    destruct (Hholder j m eq_refl) as [Hm Hj].
    apply lookup_lt_is_Some in Hj as [p Hp].
    assert (exists r, rs !! j = Some r) as [r Hr].
    { apply lookup_lt_is_Some. rewrite <- Hlen. by eapply lookup_lt_Some. }
    destruct (Hthreads j p r Hp Hr) as (K & _ & Hy).
    rewrite mode_of_same in Hy.
    apply yields_finished in Hy as [? _]; [done|].
    apply Hfin. apply list_elem_of_In. by eapply list_elem_of_lookup_2. }
  subst holder. split.
  - apply Forall2_same_length_lookup_2; [done|]. intros i p r Hp Hr.
    destruct (Hthreads i p r Hp Hr) as (K & _ & Hy).
    apply yields_finished in Hy as [_ Hy]; [done|].
    apply Hfin. apply list_elem_of_In. by eapply list_elem_of_lookup_2.
  - done.
Qed.

Section Settled2.
Context {cv : Cv2} {tc : TissueChecker}.

Lemma settled_map_prog_tasks {A} sl (ts : list (prog A)) K :
  Forall (fun task => forall K', settled sl K' task) ts ->
  settled sl K (map_prog (fun task => task) ts).
Proof.
  intros Hall. revert K. induction Hall as [|t ts Ht _ IH]; intros K; cbn [map_prog].
  - apply settled_Ret.
  - apply settled_bind; [apply Ht|]. intros a K1 _.
    apply settled_bind; [apply IH|]. intros l K2 _. apply settled_Ret.
Qed.

Lemma settled_tile_size_lv0_of sl K tp : settled sl K (tile_size_lv0_of sl tp).
Proof. unfold tile_size_lv0_of. settle. Qed.

Lemma settled_get_tile_coordinates sl K tp fp num_workers :
  settled sl K (get_tile_coordinates sl tp fp num_workers).
Proof.
  unfold get_tile_coordinates.
  apply settled_bind; [apply settled_tile_size_lv0_of|]. intros t0 K1 _.
  apply settled_bind; [apply settled_detect_contours|]. intros [contours holes] K2 _.
  apply settled_bind; [|intros; apply settled_Ret].
  unfold process_contours. destruct (num_workers <=? 0); [apply settled_Raise|].
  apply settled_bind; [|intros; apply settled_merge_results].
  apply settled_map_prog_tasks, settled_contour_tasks.
Qed.

Lemma contour_tasks_outcomes sl contours holes tp :
  exists rs,
    Forall2 (fun p r => yields sl Unlocked ∅ p r) (contour_tasks sl contours holes tp) rs.
Proof.
  apply settled_outcomes.
  eapply Forall_impl; [apply settled_contour_tasks|]. intros t Ht. apply Ht.
Qed.

End Settled2.

(** ** One request, one result *)

Section Deterministic.
Context {cv : Cv2} {tc : TissueChecker}.

Lemma settled_consistent {A} sl (p : prog A) s o s' :
  settled sl ∅ p -> consistent sl s -> run s p = (o, s') ->
  consistent sl s' /\ o <> Blocked.
Proof.
  intros [r Hr] Hs Hrun.
  destruct (consistent_run sl p r s Hr Hs) as (s1 & Hrun1 & Hs1 & Hne).
  rewrite Hrun in Hrun1. by injection Hrun1 as -> ->.
Qed.

Lemma run_join_tasks sl t0 (ts : list (prog tiles)) rs s :
  consistent sl s ->
  Forall2 (fun p r => yields sl Unlocked ∅ p r) ts rs ->
  exists s', run s (join_tasks t0 ts) = (joined t0 rs, s') /\ consistent sl s'.
Proof.
  intros Hs Hall. unfold join_tasks, joined.
  destruct (run_map_prog_yields sl ts rs s Hs Hall) as (s1 & Hrun & Hs1).
  rewrite run_bind, Hrun. destruct (collect rs) as [results|e|];
    [|by exists s1|by exists s1].
  assert (Hq : settled sl ∅
                 (let* r := merge_results results no_tiles in
                  Ret (finish_tile_coordinates t0 r))).
  { apply settled_bind; [apply settled_merge_results | intros; apply settled_Ret]. }
  destruct Hq as [r Hr].
  destruct (consistent_run sl _ r s1 Hr Hs1) as (s2 & -> & Hs2 & _).
  destruct (consistent_run sl _ r initial_state Hr (consistent_initial sl))
    as (s3 & -> & _).
  by exists s2.
Qed.

Lemma run_get_tile_coordinates_join sl tp fp num_workers s :
  0 < num_workers ->
  run s (get_tile_coordinates sl tp fp num_workers) =
  match run s (tile_size_lv0_of sl tp) with
  | (Ok t0, s1) =>
      match run s1 (detect_contours sl (spacing tp) (tolerance tp) fp) with
      | (Ok (contours, holes), s2) =>
          run s2 (join_tasks t0 (contour_tasks sl contours holes tp))
      | (Exc e, s2) => (Exc e, s2)
      | (Blocked, s2) => (Blocked, s2)
      end
  | (Exc e, s1) => (Exc e, s1)
  | (Blocked, s1) => (Blocked, s1)
  end.
Proof.
  intros Hn. unfold get_tile_coordinates. rewrite run_bind.
  destruct (run s (tile_size_lv0_of sl tp)) as [[t0|e|] s1]; try done.
  rewrite run_bind.
  destruct (run s1 (detect_contours _ _ _ _)) as [[[contours holes]|e|] s2]; try done.
  unfold process_contours, join_tasks.
  destruct (Z.leb_spec num_workers 0); [lia|].
  rewrite !run_bind.
  destruct (run s2 (map_prog _ _)) as [[results|e|] s3]; try done.
  by rewrite run_bind.
Qed.

(** A pooled request ends as the request served by the calling thread
    alone. *)
Lemma pooled_eq_run sl tp fp num_workers s out s' :
  consistent sl s -> 0 < num_workers ->
  pooled_tile_coordinates sl tp fp num_workers s out s' ->
  out = fst (run s (get_tile_coordinates sl tp fp 1)) /\ consistent sl s'.
Proof.
  intros Hs Hn Hpool.
  rewrite run_get_tile_coordinates_join by lia.
  destruct Hpool as [e s1 H1|t0 s1 e s2 H1 H2|t0 s1 contours holes s2 H1 H2 Hw
                    |t0 s1 contours holes s2 s3 ts out s4 H1 H2 Hw Hsteps Hfin Hjoin].
  - rewrite H1. split; [done|].
    by apply (settled_consistent sl _ s _ _ (settled_tile_size_lv0_of sl ∅ tp) Hs H1).
  - rewrite H1, H2. split; [done|].
    destruct (settled_consistent sl _ s _ _ (settled_tile_size_lv0_of sl ∅ tp) Hs H1)
      as [Hs1 _].
    by apply (settled_consistent sl _ s1 _ _
                (settled_detect_contours sl ∅ _ _ fp) Hs1 H2).
  - lia.
  - rewrite H1, H2.
    destruct (settled_consistent sl _ s _ _ (settled_tile_size_lv0_of sl ∅ tp) Hs H1)
      as [Hs1 _].
    destruct (settled_consistent sl _ s1 _ _
                (settled_detect_contours sl ∅ _ _ fp) Hs1 H2) as [Hs2 _].
    destruct (contour_tasks_outcomes sl contours holes tp) as [rs Hrs].
    pose proof (executor_steps_pool_ok sl rs _ _ _
                  (pool_ok_start sl _ rs s2 Hs2 Hrs) Hsteps) as Hok.
    destruct (pool_ok_finished sl rs s3 ts Hok Hfin) as [Hrs' Hs3].
    destruct (run_join_tasks sl t0 ts rs s3 Hs3 Hrs') as (s4' & Hrun & Hs4).
    rewrite Hjoin in Hrun. injection Hrun as -> ->.
    destruct (run_join_tasks sl t0 _ rs s2 Hs2 Hrs) as (s5 & -> & _).
    done.
Qed.

Lemma executor_steps_finish_all sl max_workers (finished_tasks ps : list (prog tiles))
    rs s :
  (0 < max_workers)%nat ->
  Forall (fun q => finished q = true) finished_tasks ->
  consistent sl s ->
  Forall2 (fun p r => yields sl Unlocked ∅ p r) ps rs ->
  exists s' ts,
    executor_steps max_workers (s, finished_tasks ++ ps) (s', finished_tasks ++ ts) /\
    Forall (fun q => finished q = true) ts.
Proof.
  intros Hn Hdone Hs Hall. revert finished_tasks s Hdone Hs.
  induction Hall as [|p r ps rs Hy _ IH]; intros finished_tasks s Hdone Hs.
  - exists s, []. split; [apply executor_steps_refl | constructor].
  - destruct (consistent_run sl p r s Hy Hs) as (s1 & Hrun & Hs1 & Hr).
    destruct (executor_steps_run_task max_workers finished_tasks p ps s r s1
                Hn Hdone Hrun Hr) as (p' & Hsteps & Hfin & _).
    destruct (IH (finished_tasks ++ [p']) s1) as (s2 & ts & Hsteps2 & Hfin2).
    { apply Forall_app. split; [done | by constructor]. }
    { done. }
    rewrite <- !app_assoc in Hsteps2. simpl in Hsteps2.
    exists s2, (p' :: ts). split.
    + eapply executor_steps_trans; eauto.
    + by constructor.
Qed.

Lemma pooled_exists sl tp fp num_workers s :
  consistent sl s -> 0 < num_workers ->
  exists out s', pooled_tile_coordinates sl tp fp num_workers s out s'.
Proof.
  intros Hs Hn.
  destruct (run s (tile_size_lv0_of sl tp)) as [[t0|e|] s1] eqn:H1.
  2:{ exists (Exc e), s1. by apply pooled_lv0_raises. }
  2:{ by destruct (settled_consistent sl _ s _ _
                     (settled_tile_size_lv0_of sl ∅ tp) Hs H1). }
  destruct (settled_consistent sl _ s _ _ (settled_tile_size_lv0_of sl ∅ tp) Hs H1)
    as [Hs1 _].
  destruct (run s1 (detect_contours sl (spacing tp) (tolerance tp) fp))
    as [[[contours holes]|e|] s2] eqn:H2.
  2:{ exists (Exc e), s2. by eapply pooled_detect_raises. }
  2:{ by destruct (settled_consistent sl _ s1 _ _
                     (settled_detect_contours sl ∅ _ _ fp) Hs1 H2). }
  destruct (settled_consistent sl _ s1 _ _
              (settled_detect_contours sl ∅ _ _ fp) Hs1 H2) as [Hs2 _].
  destruct (contour_tasks_outcomes sl contours holes tp) as [rs Hrs].
  destruct (executor_steps_finish_all sl (Z.to_nat num_workers) []
              (contour_tasks sl contours holes tp) rs s2)
    as (s3 & ts & Hsteps & Hfin); [lia | constructor | done | done |].
  simpl in Hsteps.
  destruct (run s3 (join_tasks t0 ts)) as [out s4] eqn:Hjoin.
  exists out, s4. by eapply pooled_tasks.
Qed.

End Deterministic.

(** ** The tiles of one contour *)

Lemma np_arange_Ret start stop step s l s' :
  run s (np_arange start stop step) = (Ok l, s') ->
  np_arange start stop step = Ret l /\ s' = s /\ step <> 0.
Proof.
  unfold np_arange. destruct (Z.eqb_spec step 0); [done|].
  cbn [run]. intros [= <- <-]. done.
Qed.

Lemma selected_length {A} (arr : list A) (flags : list bool) :
  length arr = length flags ->
  length (List.filter snd (combine arr flags))
  = length (List.filter (fun b : bool => b) flags).
Proof.
  revert flags. induction arr as [|a arr IH]; intros [|b flags] Hlen; try done.
  simpl in *. destruct b; simpl; rewrite IH; lia.
Qed.

Section OneContour.
Context {cv : Cv2} {tc : TissueChecker}.

(** With [drop_holes], the first candidate that passed the check raises
    [TypingError]: the flags come back only when none passed. *)
Lemma run_drop_flags_Ok holes t (fcs : list (bool * (Z * Z))) s out s' :
  run s (map_prog (fun fc : bool * (Z * Z) =>
                     if fst fc then
                       let* inside := isInHoles holes (snd fc) t in
                       Ret (negb inside)
                     else Ret false) fcs) = (Ok out, s') ->
  s' = s /\ Forall (fun fc : bool * (Z * Z) => fst fc = false) fcs /\ out = map fst fcs.
Proof.
  revert s out. induction fcs as [|[f c] fcs IH]; intros s out H.
  - cbn [map_prog run] in H. by injection H as <- <-.
  - cbn [map_prog] in H.
    apply run_bind_Ok in H as (b & s1 & Hb & H).
    apply run_bind_Ok in H as (bs & s2 & Hbs & H).
    cbn [run] in H. injection H as <- <-.
    destruct f; cbn [fst snd] in Hb; [discriminate Hb|].
    cbn [run] in Hb. injection Hb as <- <-.
    destruct (IH _ _ Hbs) as (-> & Hall & ->).
    split; [done|]. split; [by constructor|done].
Qed.


Lemma combine_flags_of_combine {A} (cands : list A) (checked : list bool) :
  combine cands (map fst (combine checked cands)) = combine cands checked.
Proof.
  revert checked. induction cands as [|a cands IH]; intros [|f checked]; try done.
  simpl. by rewrite IH.
Qed.

Lemma combine_flags_as_long {A B} (pcts : list A) (cands : list B) (checked : list bool) :
  length pcts = length cands ->
  combine pcts (map fst (combine checked cands)) = combine pcts checked.
Proof.
  revert cands checked.
  induction pcts as [|a pcts IH]; intros [|c cands] [|f checked] Hlen; try done.
  simpl in *. rewrite (IH cands); [done|lia].
Qed.


(** What a successful [process_contour] went through: [checked] are the
    flags and [tissue_pcts] the percentages of [check_coordinates] on the
    whole grid of candidates, x outermost. *)
Lemma run_process_contour_Ok sl cont holes tp s r s' :
  run s (process_contour sl cont holes tp) = (Ok r, s') ->
  exists g c scale cont' x_range y_range checked tissue_pcts,
    run s (scan_grid sl cont tp) = (Ok g, s') /\
    cont = Some c /\
    py_index (level_downsamples sl) (seg_level sl) = Some scale /\
    scale_contour (binary64 (1 / fst scale), binary64 (1 / snd scale)) (Some c)
    = Ret cont' /\
    np_arange (fst (grid_start g)) (fst (grid_stop g)) (fst (grid_ref_step_size g))
    = Ret x_range /\
    np_arange (snd (grid_start g)) (snd (grid_stop g)) (snd (grid_ref_step_size g))
    = Ret y_range /\
    fst (grid_ref_step_size g) <> 0 /\ snd (grid_ref_step_size g) <> 0 /\
    check_coordinates cont' holes (binary_mask sl) (fst (grid_ref_tile_size g))
      scale (min_tissue_ratio tp) (meshgrid_ij x_range y_range)
    = (checked, tissue_pcts) /\
    (if drop_holes tp
     then Forall (fun fc : bool * (Z * Z) => fst fc = false)
                 (combine checked (meshgrid_ij x_range y_range))
     else length (meshgrid_ij x_range y_range) = length checked) /\
    length tissue_pcts = length (meshgrid_ij x_range y_range) /\
    let filtered :=
      map fst (List.filter snd (combine (meshgrid_ij x_range y_range) checked)) in
    r = if 0 <? Z.of_nat (length filtered)
        then {| x_coords := map fst filtered;
                y_coords := map snd filtered;
                tissue_pct := map fst (List.filter snd (combine tissue_pcts checked));
                tile_level := Some (grid_tile_level g);
                resize_factor := Some (grid_resize_factor g) |}
        else no_tiles.
Proof.
  unfold process_contour. intros H.
  apply run_bind_Ok in H as (g & s1 & Hg & H).
  apply run_bind_Ok in H as (scale & s2 & Hscale & H).
  apply run_index_Ok in Hscale as [-> Hscale].
  apply run_bind_Ok in H as (inv_0 & s3 & H0 & H).
  apply run_py_div_Ok in H0 as (-> & _ & ->).
  apply run_bind_Ok in H as (inv_1 & s4 & H1 & H).
  apply run_py_div_Ok in H1 as (-> & _ & ->).
  apply run_bind_Ok in H as (scaled & s5 & Hsc & H).
  destruct cont as [c|]; [|discriminate Hsc].
  unfold scaleContourDim in Hsc. cbn [map_prog scale_contour bind run] in Hsc.
  injection Hsc as <- <-.
  apply run_bind_Ok in H as (cont' & s6 & Hc' & H).
  apply run_index_Ok in Hc' as [-> Hc'].
  cbn in Hc'. injection Hc' as <-.
  apply run_bind_Ok in H as (x_range & s7 & Hxr & H).
  apply np_arange_Ret in Hxr as (Hxr & -> & Hsx).
  apply run_bind_Ok in H as (y_range & s8 & Hyr & H).
  apply np_arange_Ret in Hyr as (Hyr & -> & Hsy).
  cbv zeta in H.
  destruct (check_coordinates _ _ _ _ _ _ _) as [checked tissue_pcts] eqn:Hcheck.
  apply run_bind_Ok in H as (keep_flags & s9 & Hflags & H).
  apply run_bind_Ok in H as (filtered & s10 & Hsel & H).
  apply run_np_select_Ok in Hsel as (-> & Hlen & ->).
  apply run_bind_Ok in H as (pcts & s11 & Hsel & H).
  apply run_np_select_Ok in Hsel as (-> & Hlen' & ->).
  exists g, c, scale. eexists. exists x_range, y_range, checked, tissue_pcts.
  assert (s9 = s1 /\
          (if drop_holes tp
           then Forall (fun fc : bool * (Z * Z) => fst fc = false)
                       (combine checked (meshgrid_ij x_range y_range))
           else length (meshgrid_ij x_range y_range) = length checked) /\
          combine (meshgrid_ij x_range y_range) keep_flags
          = combine (meshgrid_ij x_range y_range) checked /\
          combine tissue_pcts keep_flags = combine tissue_pcts checked)
    as (-> & Hdrop & Hc & Hp).
  { destruct (drop_holes tp).
    - apply run_drop_flags_Ok in Hflags as (-> & Hall & ->).
      split; [done|]. split; [done|]. split.
      + apply combine_flags_of_combine.
      + apply combine_flags_as_long. congruence.
    - cbn [run] in Hflags. injection Hflags as <- <-. done. }
  rewrite Hc, Hp in H.
  split.
  { destruct (0 <? _); cbn [run] in H; by injection H as _ <-. }
  do 3 (split; [done|]). do 2 (split; [done|]). do 2 (split; [done|]).
  split; [exact Hcheck|]. split; [exact Hdrop|].
  split; [congruence|]. cbv zeta.
  destruct (0 <? _); cbn [run] in H; by injection H as <- _.
Qed.


Lemma selected_same_length {A B} (arr : list A) (arr' : list B) (flags : list bool) :
  length arr = length arr' ->
  length (List.filter snd (combine arr flags))
  = length (List.filter snd (combine arr' flags)).
Proof.
  revert arr' flags.
  induction arr as [|a arr IH]; intros [|a' arr'] [|f flags] Hlen; try done.
  simpl in *. destruct f; simpl; rewrite (IH arr' flags); lia.
Qed.

Lemma process_contour_well_formed sl cont holes tp s r s' :
  run s (process_contour sl cont holes tp) = (Ok r, s') -> well_formed_tiles r.
Proof.
  intros H.
  destruct (run_process_contour_Ok _ _ _ _ _ _ _ H)
    as (g & c & scale & cont' & x_range & y_range & checked & tissue_pcts
        & _ & _ & _ & _ & _ & _ & _ & _ & _ & _ & Hlen & Hr).
  cbv zeta in Hr. subst r. unfold well_formed_tiles.
  destruct (0 <? _) eqn:E; cbn [x_coords y_coords tissue_pct tile_level resize_factor no_tiles].
  - rewrite !length_map. split; [done|]. split.
    + by apply selected_same_length.
    + split; [|by eauto].
      intros Hnil. apply Z.ltb_lt in E. rewrite !length_map in E.
      apply (f_equal length) in Hnil. rewrite !length_map in Hnil.
      simpl in Hnil. lia.
  - by split_and!.
Qed.

(** Every result of [process_contour] that holds tiles reports their
    level: the premise of [merge_results_level_consistency]. *)
Lemma process_contour_reports_level sl cont holes tp s r s' :
  run s (process_contour sl cont holes tp) = (Ok r, s') -> reports_level r.
Proof.
  intros H.
  destruct (run_process_contour_Ok _ _ _ _ _ _ _ H)
    as (g & c & scale & cont' & x_range & y_range & checked & tissue_pcts
        & _ & _ & _ & _ & _ & _ & _ & _ & _ & _ & _ & Hr).
  cbv zeta in Hr. subst r. destruct (0 <? _).
  - intros _. simpl. eauto.
  - intros Hx. by destruct Hx.
Qed.

Lemma contour_task_well_formed sl contours holes tp task s r s' :
  In task (contour_tasks sl contours holes tp) ->
  run s task = (Ok r, s') -> well_formed_tiles r.
Proof.
  unfold contour_tasks. intros Hin H.
  apply in_map_iff in Hin as (i & <- & _).
  apply run_bind_Ok in H as (cont & s1 & _ & H).
  apply run_bind_Ok in H as (contour_holes & s2 & _ & H).
  by eapply process_contour_well_formed.
Qed.

End OneContour.

Lemma np_arange_on_grid start stop step l x :
  np_arange start stop step = Ret l -> In x l ->
  (exists i : nat, x = start + Z.of_nat i * step) /\
  (0 < step -> start <= x < stop).
Proof.
  unfold np_arange. destruct (Z.eqb_spec step 0); [done|].
  intros [= <-] Hin. split.
  - apply in_map_iff in Hin as (i & <- & _). by exists i.
  - intros Hstep. by apply (np_arange_bounds start stop step).
Qed.

(** ** The tiles and the slide bounds *)

Lemma np_arange_covers start stop step l (i : nat) :
  np_arange start stop step = Ret l ->
  0 < step -> start + Z.of_nat i * step < stop ->
  In (start + Z.of_nat i * step) l.
Proof.
  unfold np_arange. destruct (Z.eqb_spec step 0); [done|].
  intros [= <-] Hstep Hlt. apply in_map_iff. exists i. split; [done|].
  apply in_seq. split; [lia|]. simpl.
  pose proof (Z.div_mod (start - stop) step ltac:(lia)) as Hdm.
  pose proof (Z.mod_pos_bound (start - stop) step Hstep) as Hmod.
  assert ((start - stop) / step < - Z.of_nat i) by nia.
  lia.
Qed.

(** C4: without padding, every tile [process_contour] emits lies inside
    the level-0 slide: [x + ref_tile_size[0] <= img_w] and
    [y + ref_tile_size[1] <= img_h] (for positive spacings, non-negative
    downsamples, tile size and target spacing, and an overlap of at most
    1). With padding, the candidate grid runs over the whole bounding box
    of the contour, whatever the slide dimensions are: every grid point
    [x0 + i * step] below [x0 + w] is a candidate column, every
    [y0 + j * step] below [y0 + h] a candidate row, also where the tile
    ends beyond the slide; and the emitted tiles are exactly the
    candidates that [check_coordinates] flags. *)
Theorem scan_respects_slide_bounds {cv : Cv2} {tc : TissueChecker}
    sl cont holes tp s r s' img_w img_h :
  cache_ok sl s ->
  Forall (fun v => (0 < v)%Q) (spacings sl) ->
  Forall (fun d => (0 <= fst d)%Q /\ (0 <= snd d)%Q) (level_downsamples sl) ->
  (0 <= spacing tp)%Q -> 0 <= tile_size tp -> (overlap tp <= 1)%Q ->
  level_dimensions sl !! 0%nat = Some (img_w, img_h) ->
  run s (process_contour sl (Some cont) holes tp) = (Ok r, s') ->
  exists g s1,
    run s (scan_grid sl (Some cont) tp) = (Ok g, s1) /\
    (use_padding tp = false ->
     forall x y, In (x, y) (combine (x_coords r) (y_coords r)) ->
       x + fst (grid_ref_tile_size g) <= img_w /\
       y + snd (grid_ref_tile_size g) <= img_h) /\
    (use_padding tp = true ->
     let '(x0, y0, w, h) := boundingRect cont in
     let '(step_x, step_y) := grid_ref_step_size g in
     exists scale cont' x_range y_range,
       py_index (level_downsamples sl) (seg_level sl) = Some scale /\
       scale_contour (binary64 (1 / fst scale), binary64 (1 / snd scale)) (Some cont)
       = Ret cont' /\
       np_arange x0 (x0 + w) step_x = Ret x_range /\
       np_arange y0 (y0 + h) step_y = Ret y_range /\
       (forall i : nat, x0 + Z.of_nat i * step_x < x0 + w ->
          In (x0 + Z.of_nat i * step_x) x_range) /\
       (forall j : nat, y0 + Z.of_nat j * step_y < y0 + h ->
          In (y0 + Z.of_nat j * step_y) y_range) /\
       combine (x_coords r) (y_coords r)
       = map fst
           (List.filter snd
              (combine (meshgrid_ij x_range y_range)
                 (fst (check_coordinates cont' holes (binary_mask sl)
                         (fst (grid_ref_tile_size g)) scale (min_tissue_ratio tp)
                         (meshgrid_ij x_range y_range)))))).
Proof.
  intros Hc Hsp Hds Hspacing Hts Hov Hdim H.
  destruct (run_process_contour_Ok _ _ _ _ _ _ _ H)
    as (g & c & scale & cont' & x_range & y_range & checked & tissue_pcts
        & Hg & [= <-] & Hscale & Hcont & Hxr & Hyr & Hsx & Hsy & Hcheck & _ & _ & Hr).
  exists g, s'. split; [exact Hg|].
  assert (Hemitted : combine (x_coords r) (y_coords r)
                     = map fst (List.filter snd
                                  (combine (meshgrid_ij x_range y_range) checked))).
  { cbv zeta in Hr. subst r.
    destruct (0 <? _) eqn:E; cbn [x_coords y_coords no_tiles].
    - apply combine_fst_snd.
    - apply Z.ltb_ge in E. rewrite length_map in E.
      destruct (List.filter snd _); [done | simpl length in E; lia]. }
  destruct (run_scan_grid_Some sl cont tp s g s' Hc Hg)
    as (tile_level & within & tile_spacing & ds & img_w' & img_h' &
        Htsp & Hdsl & Hdim' & Hgrid).
  change 0 with (Z.of_nat 0) in Hdim'. rewrite py_index_nat, Hdim in Hdim'.
  injection Hdim' as <- <-.
  cbv zeta in Hgrid. destruct (boundingRect cont) as [[[x0 y0] w] h].
  set (rf := if within then 1%Q else binary64 (spacing tp / tile_spacing)) in *.
  set (tsr := py_int (fmul (py_float (tile_size tp)) rf)) in *.
  set (step := py_int (fmul (py_float tsr) (fsub 1 (overlap tp)))) in *.
  assert (Hrf : (0 <= rf)%Q).
  { unfold rf. destruct within; [done|]. apply binary64_nonneg.
    apply py_index_In in Htsp. rewrite List.Forall_forall in Hsp.
    specialize (Hsp _ Htsp). apply Qle_shift_div_l; [done|].
    by rewrite Qmult_0_l. }
  assert (Htsr : 0 <= tsr).
  { apply py_int_nonneg, binary64_nonneg.
    apply Qmult_le_0_compat; [by apply py_float_nonneg | done]. }
  assert (Hstep : 0 <= step).
  { apply py_int_nonneg, binary64_nonneg. apply Qmult_le_0_compat.
    - by apply py_float_nonneg.
    - apply binary64_nonneg.
      by apply (Qplus_le_l _ _ (overlap tp)); ring_simplify. }
  assert (Htd : 0 <= py_int (fst ds) /\ 0 <= py_int (snd ds)).
  { apply py_index_In in Hdsl. rewrite List.Forall_forall in Hds.
    destruct (Hds _ Hdsl). split; by apply py_int_nonneg. }
  subst g. cbn [grid_ref_step_size grid_ref_tile_size grid_start grid_stop fst snd] in *.
  split.
  - intros Hpad x y Hin. rewrite Hpad in *. cbn [fst snd] in *.
    rewrite Hemitted in Hin. apply in_selected in Hin.
    apply in_meshgrid_ij in Hin as [Hx Hy].
    destruct (np_arange_on_grid _ _ _ _ _ Hxr Hx) as [_ Hbx].
    destruct (np_arange_on_grid _ _ _ _ _ Hyr Hy) as [_ Hby].
    specialize (Hbx ltac:(nia)). specialize (Hby ltac:(nia)). lia.
  - intros Hpad. rewrite Hpad in *. cbn [fst snd] in *.
    exists scale, cont', x_range, y_range.
    do 4 (split; [done|]). split; [|split].
    + intros i Hi. apply (np_arange_covers _ _ _ _ _ Hxr); [nia | done].
    + intros j Hj. apply (np_arange_covers _ _ _ _ _ Hyr); [nia | done].
    + by rewrite Hcheck.
Qed.

Lemma scan_respects_slide_bounds_witness :
  (exists g s1,
     run initial_state
       (scan_grid (cv := cv2_finding ([], [])) slide_1_4_16
          (Some blob_at_right_edge) tiling_16_at_1_unpadded) = (Ok g, s1) /\
     forall x y, In (x, y) (combine [1500; 1500] [0; 64]) ->
       x + fst (grid_ref_tile_size g) <= 1600 /\
       y + snd (grid_ref_tile_size g) <= 1600) /\
  (exists g s1,
     run initial_state
       (scan_grid (cv := cv2_finding ([], [])) slide_1_4_16
          (Some blob_at_right_edge) tiling_16_at_1) = (Ok g, s1) /\
     exists scale cont' x_range y_range,
       py_index (level_downsamples slide_1_4_16) (seg_level slide_1_4_16)
       = Some scale /\
       scale_contour (cv := cv2_finding ([], []))
         (binary64 (1 / fst scale), binary64 (1 / snd scale))
         (Some blob_at_right_edge) = Ret cont' /\
       np_arange 1500 (1500 + 100) (fst (grid_ref_step_size g)) = Ret x_range /\
       np_arange 0 (0 + 100) (snd (grid_ref_step_size g)) = Ret y_range /\
       (forall i : nat,
          1500 + Z.of_nat i * fst (grid_ref_step_size g) < 1500 + 100 ->
          In (1500 + Z.of_nat i * fst (grid_ref_step_size g)) x_range) /\
       (forall j : nat,
          0 + Z.of_nat j * snd (grid_ref_step_size g) < 0 + 100 ->
          In (0 + Z.of_nat j * snd (grid_ref_step_size g)) y_range) /\
       combine [1500; 1500; 1564; 1564] [0; 64; 0; 64]
       = map fst
           (List.filter snd
              (combine (meshgrid_ij x_range y_range)
                 (fst (check_coordinates (TissueChecker := keep_every_tile)
                         cont' [] (binary_mask slide_1_4_16)
                         (fst (grid_ref_tile_size g)) scale
                         (min_tissue_ratio tiling_16_at_1)
                         (meshgrid_ij x_range y_range)))))).
Proof.
  split.
  - destruct (scan_respects_slide_bounds (cv := cv2_finding ([], []))
                (tc := keep_every_tile) slide_1_4_16 blob_at_right_edge []
                tiling_16_at_1_unpadded initial_state
                {| x_coords := [1500; 1500]; y_coords := [0; 64];
                   tissue_pct := [1; 1]%Q;
                   tile_level := Some 1; resize_factor := Some 1%Q |}
                (snd (run initial_state
                        (process_contour (cv := cv2_finding ([], []))
                           (tc := keep_every_tile) slide_1_4_16
                           (Some blob_at_right_edge) [] tiling_16_at_1_unpadded)))
                1600 1600) as (g & s1 & Hg & Hin & _).
    + apply cache_ok_initial.
    + repeat (constructor; [by vm_compute|]). constructor.
    + repeat (constructor; [split; intros H; vm_compute in H; discriminate|]).
      constructor.
    + intros H; vm_compute in H; discriminate.
    + simpl. lia.
    + intros H; vm_compute in H; discriminate.
    + reflexivity.
    + vm_compute. reflexivity.
    + exists g, s1. split; [exact Hg|]. by apply Hin.
  - destruct (scan_respects_slide_bounds (cv := cv2_finding ([], []))
                (tc := keep_every_tile) slide_1_4_16 blob_at_right_edge []
                tiling_16_at_1 initial_state
                {| x_coords := [1500; 1500; 1564; 1564]; y_coords := [0; 64; 0; 64];
                   tissue_pct := [1; 1; 1; 1]%Q;
                   tile_level := Some 1; resize_factor := Some 1%Q |}
                (snd (run initial_state
                        (process_contour (cv := cv2_finding ([], []))
                           (tc := keep_every_tile) slide_1_4_16
                           (Some blob_at_right_edge) [] tiling_16_at_1)))
                1600 1600) as (g & s1 & Hg & _ & Hpad).
    + apply cache_ok_initial.
    + repeat (constructor; [by vm_compute|]). constructor.
    + repeat (constructor; [split; intros H; vm_compute in H; discriminate|]).
      constructor.
    + intros H; vm_compute in H; discriminate.
    + simpl. lia.
    + intros H; vm_compute in H; discriminate.
    + reflexivity.
    + vm_compute. reflexivity.
    + exists g, s1. split; [exact Hg|].
      specialize (Hpad eq_refl). cbn in Hpad.
      destruct (grid_ref_step_size g) as [step_x step_y]. exact Hpad.
Defined.

(** With padding the column at [x = 1564] is scanned and emitted, although
    its tiles end at [1564 + 64 = 1628], beyond the slide width 1600. *)
Example padded_scan_leaves_slide :
  fst (run initial_state
         (process_contour (cv := cv2_finding ([], [])) (tc := keep_every_tile)
            slide_1_4_16 (Some blob_at_right_edge) [] tiling_16_at_1))
  = Ok {| x_coords := [1500; 1500; 1564; 1564]; y_coords := [0; 64; 0; 64];
          tissue_pct := [1; 1; 1; 1]%Q;
          tile_level := Some 1; resize_factor := Some 1%Q |}.
Proof. vm_compute. reflexivity. Qed.

(** ** The results the merge loop receives *)

(** The downsamples of the example slides are those [get_downsamples]
    computes from their dimensions. *)
Example slide_1_4_32_downsamples :
  match fst (run initial_state (get_downsamples (level_dimensions slide_1_4_32))) with
  | Ok ds =>
      Forall2 (fun a b : Q * Q => (fst a == fst b)%Q /\ (snd a == snd b)%Q)
              ds (level_downsamples slide_1_4_32)
  | _ => False
  end.
Proof. simpl. repeat constructor. Qed.

Example slide_with_twin_levels_downsamples :
  match fst (run initial_state
               (get_downsamples (level_dimensions slide_with_twin_levels))) with
  | Ok ds =>
      Forall2 (fun a b : Q * Q => (fst a == fst b)%Q /\ (snd a == snd b)%Q)
              ds (level_downsamples slide_with_twin_levels)
  | _ => False
  end.
Proof. simpl. repeat constructor. Qed.

(** ** The order of the merged tiles *)

Lemma merge_results_Ret results acc merged :
  merge_results results acc = Ret merged ->
  merged = merged_onto acc (producing results).
Proof.
  revert acc. induction results as [|r results IH]; intros acc H;
    cbn [merge_results] in H; unfold producing; cbn [List.filter].
  - by injection H as <-.
  - destruct (0 <? Z.of_nat (length (x_coords r))); [|by apply IH].
    cbn [merged_onto fold_left].
    destruct (tile_level acc); [|by apply IH].
    destruct (bool_decide _); [by apply IH | discriminate].
Qed.

Lemma merge_results_pure results acc :
  (exists merged, merge_results results acc = Ret merged) \/
  merge_results results acc = Raise AssertionError.
Proof.
  revert acc. induction results as [|r results IH]; intros acc; cbn [merge_results].
  - left. by exists acc.
  - destruct (0 <? Z.of_nat (length (x_coords r))); [|apply IH].
    destruct (tile_level acc); [|apply IH].
    destruct (bool_decide _); [apply IH | by right].
Qed.

Lemma collect_Ok {A} (rs : list (outcome A)) results :
  collect rs = Ok results -> rs = map Ok results.
Proof.
  revert results. induction rs as [|[a|e|] rs IH]; intros results H; simpl in H.
  - by injection H as <-.
  - destruct (collect rs) as [l|e|]; try discriminate.
    injection H as <-. simpl. by rewrite (IH l).
  - discriminate.
  - discriminate.
Qed.

Lemma combine_concat (rs : list tiles) :
  Forall (fun r => length (x_coords r) = length (y_coords r)) rs ->
  combine (concat (map x_coords rs)) (concat (map y_coords rs))
  = concat (map (fun r => combine (x_coords r) (y_coords r)) rs).
Proof.
  induction 1 as [|r rs Hr _ IH]; [done|]. simpl.
  rewrite <- IH. clear IH. revert Hr.
  generalize (x_coords r) (y_coords r) (concat (map x_coords rs))
             (concat (map y_coords rs)).
  induction l as [|x l IHl]; intros [|y l'] xs ys Hlen; simpl in *; try done.
  f_equal. apply IHl. lia.
Qed.

Lemma concat_producing (rs : list tiles) :
  concat (map (fun r => combine (x_coords r) (y_coords r)) (producing rs))
  = concat (map (fun r => combine (x_coords r) (y_coords r)) rs).
Proof.
  induction rs as [|r rs IH]; [done|]. unfold producing in *. simpl.
  destruct (0 <? Z.of_nat (length (x_coords r))) eqn:E; simpl; rewrite IH; [done|].
  apply Z.ltb_ge in E. by destruct (x_coords r).
Qed.

Section Order.
Context {cv : Cv2} {tc : TissueChecker}.

Lemma process_contour_coords_aligned sl cont holes tp s r s' :
  run s (process_contour sl cont holes tp) = (Ok r, s') ->
  length (x_coords r) = length (y_coords r).
Proof.
  intros H. by destruct (process_contour_well_formed _ _ _ _ _ _ _ H).
Qed.

Lemma contour_task_coords_aligned sl contours holes tp task s r s' :
  In task (contour_tasks sl contours holes tp) ->
  run s task = (Ok r, s') ->
  length (x_coords r) = length (y_coords r).
Proof.
  unfold contour_tasks. intros Hin H.
  apply in_map_iff in Hin as (i & <- & _).
  apply run_bind_Ok in H as (cont & s1 & _ & H).
  apply run_bind_Ok in H as (contour_holes & s2 & _ & H).
  by eapply process_contour_coords_aligned.
Qed.

(** The tiles of one contour are the flagged candidates, in the order of
    the grid: column by column ([x] outermost), each column from its
    first [y]. *)
Lemma process_contour_scan_order sl c hs tp s r s' :
  consistent sl s ->
  run s (process_contour sl (Some c) hs tp) = (Ok r, s') ->
  scanned_in_grid_order sl tp c hs (combine (x_coords r) (y_coords r)).
Proof.
  intros Hs H.
  destruct (run_process_contour_Ok _ _ _ _ _ _ _ H)
    as (g & c' & scale & cont' & x_range & y_range & checked & tissue_pcts
        & Hg & [= <-] & Hscale & Hcont & Hxr & Hyr & _ & _ & Hcheck & _ & _ & Hr).
  exists g, scale, cont', x_range, y_range.
  split.
  { intros s0 Hs0.
    rewrite (run_state_independent sl _ s0 s (settled_scan_grid sl ∅ (Some c) tp) Hs0 Hs).
    by rewrite Hg. }
  do 4 (split; [done|]).
  rewrite Hcheck. cbn [fst]. cbv zeta in Hr. subst r.
  destruct (0 <? _) eqn:E; cbn [x_coords y_coords no_tiles].
  - apply combine_fst_snd.
  - apply Z.ltb_ge in E. rewrite length_map in E.
    destruct (List.filter snd _); [done | simpl length in E; lia].
Qed.

Lemma contour_tasks_lookup sl contours holes tp i c :
  contours !! i = Some c ->
  contour_tasks sl contours holes tp !! i
  = Some (let* cont := index contours (Z.of_nat i) in
          let* contour_holes := index holes (Z.of_nat i) in
          process_contour sl (Some cont) contour_holes tp).
Proof.
  intros Hc. unfold contour_tasks.
  change (map ?f ?l) with (f <$> l).
  rewrite list_lookup_fmap, lookup_seq_lt; [done|].
  by eapply lookup_lt_Some.
Qed.

(** The coordinates a pooled request returns are those of the contours
    [detect_contours] returned, in submission order, whichever task
    finished first. *)
Lemma pooled_tiles_in_submission_order sl tp fp num_workers s
    coords pcts level factor t0 s' :
  consistent sl s -> 0 < num_workers ->
  pooled_tile_coordinates sl tp fp num_workers s
    (Ok (coords, pcts, level, factor, t0)) s' ->
  exists s1 contours holes s2 results,
    run s (tile_size_lv0_of sl tp) = (Ok t0, s1) /\
    run s1 (detect_contours sl (spacing tp) (tolerance tp) fp)
    = (Ok (contours, holes), s2) /\
    Forall2 (fun task r => forall s0, consistent sl s0 -> fst (run s0 task) = Ok r)
            (contour_tasks sl contours holes tp) results /\
    coords = concat (map (fun r => combine (x_coords r) (y_coords r)) results).
Proof.
  intros Hs Hn Hpool.
  inversion Hpool as [| | |t0' s1 contours holes s2 s3 ts out s4 H1 H2 Hw Hsteps Hfin
                           Hjoin]; subst.
  destruct (settled_consistent sl _ s _ _ (settled_tile_size_lv0_of sl ∅ tp) Hs H1)
    as [Hs1 _].
  destruct (settled_consistent sl _ s1 _ _
              (settled_detect_contours sl ∅ _ _ fp) Hs1 H2) as [Hs2 _].
  destruct (contour_tasks_outcomes sl contours holes tp) as [rs Hrs].
  pose proof (executor_steps_pool_ok sl rs _ _ _
                (pool_ok_start sl _ rs s2 Hs2 Hrs) Hsteps) as Hok.
  destruct (pool_ok_finished sl rs s3 ts Hok Hfin) as [Hrs' Hs3].
  destruct (run_join_tasks sl t0' ts rs s3 Hs3 Hrs') as (s4' & Hrun & _).
  rewrite Hjoin in Hrun. injection Hrun as Hout _.
  unfold joined in Hout. destruct (collect rs) as [results|e|] eqn:Ecol;
    try discriminate.
  apply collect_Ok in Ecol. subst rs.
  assert (Htasks : Forall2 (fun task r => forall s0, consistent sl s0 ->
                                                     fst (run s0 task) = Ok r)
                           (contour_tasks sl contours holes tp) results).
  { change (map Ok results) with (Ok <$> results) in Hrs.
    rewrite Forall2_fmap_r in Hrs.
    eapply Forall2_impl; [exact Hrs|].
    intros task r Hy s0 Hs0.
    by destruct (consistent_run sl task (Ok r) s0 Hy Hs0) as (s0' & -> & _). }
  rewrite run_bind in Hout.
  destruct (merge_results_pure results no_tiles) as [[merged Em]|Em];
    rewrite Em in Hout; simpl in Hout; [|discriminate].
  injection Hout as -> _ _ _ ->.
  exists s1, contours, holes, s2, results.
  do 3 (split; [done|]).
  apply merge_results_Ret in Em. subst merged.
  destruct (merged_onto_last no_tiles (producing results)) as (_ & _ & -> & -> & _).
  simpl. rewrite combine_concat, concat_producing; [done|].
  apply List.Forall_forall. intros r Hr.
  apply filter_In in Hr as [Hr _]. apply list_elem_of_In in Hr.
  apply list_elem_of_lookup in Hr as [i Hi].
  destruct (Forall2_lookup_r _ _ _ i r Htasks Hi) as (task & Htask & Hrun).
  specialize (Hrun initial_state (consistent_initial sl)).
  destruct (run initial_state task) as [o s0] eqn:E. simpl in Hrun. subst o.
  eapply contour_task_coords_aligned; [|exact E].
  apply list_elem_of_In. by eapply list_elem_of_lookup_2.
Qed.

(** What the task of contour [i] returns is the scan of that contour with
    the holes detected for it. *)
Lemma contour_task_scan_order sl tp contours holes results i c r :
  Forall2 (fun task r => forall s0, consistent sl s0 -> fst (run s0 task) = Ok r)
          (contour_tasks sl contours holes tp) results ->
  contours !! i = Some c -> results !! i = Some r ->
  exists hs,
    holes !! i = Some hs /\
    scanned_in_grid_order sl tp c hs (combine (x_coords r) (y_coords r)).
Proof.
  intros Htasks Hc Hr.
  pose proof (contour_tasks_lookup sl contours holes tp i c Hc) as Htask.
  pose proof (Forall2_lookup_lr _ _ _ i _ _ Htasks Htask Hr) as Hrun.
  specialize (Hrun initial_state (consistent_initial sl)).
  destruct (run initial_state _) as [o s0] eqn:E in Hrun. simpl in Hrun. subst o.
  apply run_bind_Ok in E as (c' & s1 & Hc' & E).
  apply run_index_Ok in Hc' as [-> Hc']. rewrite py_index_nat, Hc in Hc'.
  injection Hc' as <-.
  apply run_bind_Ok in E as (hs & s2 & Hhs & E).
  apply run_index_Ok in Hhs as [-> Hhs]. rewrite py_index_nat in Hhs.
  exists hs. split; [done|].
  eapply process_contour_scan_order; [apply consistent_initial | exact E].
Qed.

End Order.

(** C7: for a slide context between calls and fixed configurations, a
    request served by a pool of [num_workers >= 1] workers, however the
    tasks interleave, returns what the request returns when the calling
    thread runs the contours one after the other (one worker); a second
    request, with any number of workers, returns the same again; for
    every number of workers the request does complete; and the
    coordinates returned are those of the contours that
    [detect_contours] returned for the request, joined in submission
    order: the tiles of contour [0], then those of contour [1], and so
    on, the tiles of contour [i] being the candidates of its grid that
    [check_coordinates] flagged, with the holes of index [i], in the
    order of the scan (x outermost, y innermost). *)
Theorem tile_coordinates_deterministic {cv : Cv2} {tc : TissueChecker}
    sl tp fp num_workers s out s' :
  consistent sl s -> 0 < num_workers ->
  pooled_tile_coordinates sl tp fp num_workers s out s' ->
  out = fst (run s (get_tile_coordinates sl tp fp 1)) /\
  (forall num_workers' out' s'',
     0 < num_workers' ->
     pooled_tile_coordinates sl tp fp num_workers' s' out' s'' -> out' = out) /\
  (forall num_workers',
     0 < num_workers' ->
     exists out' s'', pooled_tile_coordinates sl tp fp num_workers' s out' s'') /\
  (forall coords pcts level factor t0,
     out = Ok (coords, pcts, level, factor, t0) ->
     exists s1 contours holes s2 results,
       run s (tile_size_lv0_of sl tp) = (Ok t0, s1) /\
       run s1 (detect_contours sl (spacing tp) (tolerance tp) fp)
       = (Ok (contours, holes), s2) /\
       Forall2 (fun task r =>
                  forall s0, consistent sl s0 -> fst (run s0 task) = Ok r)
               (contour_tasks sl contours holes tp) results /\
       coords = concat (map (fun r => combine (x_coords r) (y_coords r)) results) /\
       forall i c r,
         contours !! i = Some c -> results !! i = Some r ->
         exists hs,
           holes !! i = Some hs /\
           scanned_in_grid_order sl tp c hs (combine (x_coords r) (y_coords r))).
Proof.
  intros Hs Hn Hpool.
  destruct (pooled_eq_run sl tp fp num_workers s out s' Hs Hn Hpool) as [Hout Hs'].
  split_and!.
  - exact Hout.
  - intros n' out' s'' Hn' Hpool'.
    destruct (pooled_eq_run sl tp fp n' s' out' s'' Hs' Hn' Hpool') as [-> _].
    rewrite Hout.
    apply (run_state_independent sl _ s' s
             (settled_get_tile_coordinates sl ∅ tp fp 1) Hs' Hs).
  - intros n' Hn'. by apply pooled_exists.
  - intros coords pcts level factor t0 ->.
    destruct (pooled_tiles_in_submission_order sl tp fp num_workers s
                coords pcts level factor t0 s' Hs Hn Hpool)
      as (s1 & contours & holes & s2 & results & H1 & H2 & Htasks & Hcoords).
    exists s1, contours, holes, s2, results.
    do 4 (split; [done|]).
    intros i c r Hc Hr. by eapply contour_task_scan_order.
Qed.

Lemma tile_coordinates_deterministic_witness :
  exists out s',
    pooled_tile_coordinates (cv := cv2_finding two_blobs) (tc := keep_every_tile)
      slide_1_4_32 tiling_16_at_1 filter_2_10 2 initial_state out s' /\
    out = fst (run initial_state
                 (get_tile_coordinates (cv := cv2_finding two_blobs)
                    (tc := keep_every_tile)
                    slide_1_4_32 tiling_16_at_1 filter_2_10 1)) /\
    (forall num_workers' out' s'',
       0 < num_workers' ->
       pooled_tile_coordinates (cv := cv2_finding two_blobs) (tc := keep_every_tile)
         slide_1_4_32 tiling_16_at_1 filter_2_10 num_workers' s' out' s'' ->
       out' = out) /\
    (forall num_workers',
       0 < num_workers' ->
       exists out' s'',
         pooled_tile_coordinates (cv := cv2_finding two_blobs) (tc := keep_every_tile)
           slide_1_4_32 tiling_16_at_1 filter_2_10 num_workers' initial_state
           out' s'') /\
    (forall coords pcts level factor t0,
       out = Ok (coords, pcts, level, factor, t0) ->
       exists s1 contours holes s2 results,
         run initial_state
             (tile_size_lv0_of slide_1_4_32 tiling_16_at_1)
         = (Ok t0, s1) /\
         run s1 (detect_contours (cv := cv2_finding two_blobs) slide_1_4_32
                   (spacing tiling_16_at_1) (tolerance tiling_16_at_1) filter_2_10)
         = (Ok (contours, holes), s2) /\
         Forall2 (fun task r =>
                    forall s0, consistent slide_1_4_32 s0 -> fst (run s0 task) = Ok r)
                 (contour_tasks (cv := cv2_finding two_blobs) (tc := keep_every_tile)
                    slide_1_4_32 contours holes tiling_16_at_1) results /\
         coords = concat (map (fun r => combine (x_coords r) (y_coords r)) results) /\
         forall i c r,
           contours !! i = Some c -> results !! i = Some r ->
           exists hs,
             holes !! i = Some hs /\
             scanned_in_grid_order (cv := cv2_finding two_blobs) (tc := keep_every_tile)
               slide_1_4_32 tiling_16_at_1 c hs
               (combine (x_coords r) (y_coords r))).
Proof.
  destruct (pooled_exists (cv := cv2_finding two_blobs) (tc := keep_every_tile)
              slide_1_4_32 tiling_16_at_1 filter_2_10 2 initial_state
              (consistent_initial _) ltac:(lia)) as (out & s' & Hpool).
  exists out, s'. split; [exact Hpool|].
  apply (tile_coordinates_deterministic (cv := cv2_finding two_blobs)
           (tc := keep_every_tile) slide_1_4_32 tiling_16_at_1 filter_2_10 2
           initial_state out s').
  - apply consistent_initial.
  - lia.
  - exact Hpool.
Defined.

(** The request on the slide with two blobs: the two tiles of the first
    blob, then the six tiles of the second, each blob column by column. *)
Example tile_coordinates_of_two_blobs :
  fst (run initial_state
         (get_tile_coordinates (cv := cv2_finding two_blobs) (tc := keep_every_tile)
            slide_1_4_32 tiling_16_at_1 filter_2_10 1))
  = Ok ([(0, 0); (64, 0);
         (320, 320); (320, 384); (384, 320); (384, 384); (448, 320); (448, 384)],
        [1; 1; 1; 1; 1; 1; 1; 1]%Q, Some 1, Some 1%Q, 64).
Proof. vm_compute. reflexivity. Qed.

(** ** The spacings and downsamples a slide is built with *)

Lemma map_prog_py_div (f : Q -> Q) (base : Q) (l : list Q) :
  ~ (base == 0)%Q ->
  map_prog (fun s => py_div (f s) base) l
  = Ret (map (fun s => binary64 (f s / base)) l).
Proof.
  intros Hb. induction l as [|s l IH]; [done|].
  cbn [map_prog map]. rewrite IH. unfold py_div.
  by rewrite (Qeq_bool_false _ _ Hb).
Qed.

(** X1: with a level-0 spacing given by hand, [get_spacings] keeps the
    number of levels and gives level [i] the float
    [given * native_i / native_0], product and quotient each rounded
    (native level-0 spacing nonzero). Where neither operation rounds, the
    ratio to the given spacing is the ratio of the file,
    [r_i * native_0 = given * native_i]; level 0 gets the given spacing
    back when the product [given * native_0] is exact. *)
Theorem get_spacings_rescales spacing_0 base native :
  ~ (base == 0)%Q ->
  exists first rest,
    get_spacings (Some spacing_0) (base :: native) = Ret (first :: rest) /\
    first = binary64 (fmul spacing_0 base / base) /\
    ((fmul spacing_0 base == spacing_0 * base)%Q ->
     (binary64 spacing_0 == spacing_0)%Q -> (first == spacing_0)%Q) /\
    length rest = length native /\
    forall (i : nat) s r, native !! i = Some s -> rest !! i = Some r ->
      r = binary64 (fmul spacing_0 s / base) /\
      ((fmul spacing_0 s == spacing_0 * s)%Q ->
       (binary64 (spacing_0 * s / base) == spacing_0 * s / base)%Q ->
       (r * base == spacing_0 * s)%Q).
Proof.
  intros Hb.
  exists (binary64 (fmul spacing_0 base / base)),
         (map (fun s => binary64 (fmul spacing_0 s / base)) native).
  split_and!.
  - unfold get_spacings.
    change (map_prog _ (base :: native))
      with (map_prog (fun s => py_div (fmul spacing_0 s) base) (base :: native)).
    by rewrite (map_prog_py_div (fun s => fmul spacing_0 s) base _ Hb).
  - done.
  - intros Hexact Hfloat.
    rewrite (binary64_Qeq _ spacing_0); [exact Hfloat|].
    rewrite Hexact. by field.
  - by rewrite length_map.
  - intros i s r Hs Hr. rewrite lookup_map, Hs in Hr.
    injection Hr as <-. split; [done|]. intros Hexact Hfloat.
    rewrite (binary64_Qeq _ (spacing_0 * s / base)).
    + rewrite Hfloat. by field.
    + by rewrite Hexact.
Qed.

Lemma get_spacings_rescales_witness :
  exists first rest,
    get_spacings (Some (1 # 2)%Q) [(1 # 4)%Q; 1%Q; 4%Q] = Ret (first :: rest) /\
    first = binary64 (fmul (1 # 2) (1 # 4) / (1 # 4)) /\
    ((fmul (1 # 2) (1 # 4) == (1 # 2) * (1 # 4))%Q ->
     (binary64 (1 # 2) == 1 # 2)%Q -> (first == 1 # 2)%Q) /\
    length rest = 2%nat /\
    forall (i : nat) s r, [1%Q; 4%Q] !! i = Some s -> rest !! i = Some r ->
      r = binary64 (fmul (1 # 2) s / (1 # 4)) /\
      ((fmul (1 # 2) s == (1 # 2) * s)%Q ->
       (binary64 ((1 # 2) * s / (1 # 4)) == (1 # 2) * s / (1 # 4))%Q ->
       (r * (1 # 4) == (1 # 2) * s)%Q).
Proof. apply (get_spacings_rescales (1 # 2) (1 # 4) [1%Q; 4%Q]). discriminate. Defined.

(** Rescaling to the spacings the file already has: 0.25 and 1.0 come back
    as they are. *)
Example get_spacings_exact :
  get_spacings (Some (1 # 4)%Q) [(1 # 4)%Q; 1%Q] = Ret [(1 # 4)%Q; 1%Q].
Proof. vm_compute. reflexivity. Qed.

(** With the floats 0.1 for the given and for the native level-0 spacing,
    level 0 does not get 0.1 back: [0.1 * 0.1 / 0.1] is a float above. *)
Example get_spacings_rounds :
  match get_spacings (Some (binary64 (1 # 10))) [binary64 (1 # 10)] with
  | Ret [first] => (binary64 (1 # 10) < first)%Q
  | _ => False
  end.
Proof. vm_compute. reflexivity. Qed.

(** X2: the edges of [get_spacings]. Without a spacing given by hand the
    spacings of the file are returned as they are; with one, a file without
    levels gives the empty list (the level-0 spacing is never looked up),
    and a file whose level-0 spacing is zero makes the call raise
    [ZeroDivisionError]. *)
Theorem get_spacings_edge_cases spacing_0 native :
  get_spacings None native = Ret native /\
  get_spacings (Some spacing_0) [] = Ret [] /\
  forall base, (base == 0)%Q ->
    get_spacings (Some spacing_0) (base :: native) = Raise ZeroDivisionError.
Proof.
  split_and!; [done | done |].
  intros base Hb. unfold get_spacings. cbn [map_prog index py_index].
  simpl. unfold py_div.
  apply Qeq_bool_iff in Hb. by rewrite Hb.
Qed.

Lemma get_spacings_edge_cases_witness :
  get_spacings (Some (1 # 2)%Q) [0%Q; 1%Q] = Raise ZeroDivisionError.
Proof.
  apply (get_spacings_edge_cases (1 # 2) [1%Q]). reflexivity.
Defined.

Lemma map_prog_downsample w0 h0 (dims : list (Z * Z)) :
  Forall (fun d => fst d <> 0 /\ snd d <> 0) dims ->
  map_prog (fun dim : Z * Z =>
              let* dx := py_div (py_float w0) (py_float (fst dim)) in
              let* dy := py_div (py_float h0) (py_float (snd dim)) in
              Ret (dx, dy)) dims
  = Ret (map (fun dim : Z * Z =>
                (binary64 (py_float w0 / py_float (fst dim)),
                 binary64 (py_float h0 / py_float (snd dim)))) dims).
Proof.
  assert (Hnz : forall z, z <> 0 -> Qeq_bool (py_float z) 0 = false).
  { intros z Hz. apply Qeq_bool_false. by rewrite py_float_eq_0. }
  induction 1 as [|d dims [Hx Hy] _ IH]; [done|].
  cbn [map_prog map]. unfold py_div at 1 2.
  rewrite (Hnz _ Hx), (Hnz _ Hy). cbn [bind]. by rewrite IH.
Qed.

(** The quotient of two sides below 2^53, one a multiple of the other, is
    not rounded. *)
Lemma downsample_exact w0 w :
  w <> 0 -> Z.abs w0 < 2 ^ 53 -> (w | w0) ->
  (binary64 (py_float w0 / py_float w) * Qz w == Qz w0)%Q.
Proof.
  intros Hw H0 [k ->].
  destruct (Z.eq_dec k 0) as [-> | Hk].
  { rewrite Z.mul_0_l. rewrite binary64_0; [reflexivity|].
    rewrite (py_float_int 0) by done. reflexivity. }
  assert (Hkw : Z.abs k < 2 ^ 53 /\ Z.abs w < 2 ^ 53) by nia.
  destruct Hkw as [Hk53 Hw53].
  rewrite (py_float_int (k * w)), (py_float_int w) by done.
  rewrite (binary64_Qeq _ (Qz k)).
  - rewrite (binary64_int k Hk53). unfold Qz. by rewrite <- inject_Z_mult.
  - unfold Qz. rewrite inject_Z_mult. field.
    unfold Qeq. simpl. lia.
Qed.

(** X3: for a pyramid whose levels have nonzero sides, [get_downsamples]
    returns one pair per level; the pair of level 0 is [(1, 1)], the pair
    of every level holds the rounded quotients of the sides of level 0 by
    the sides of that level, and where a side of the level divides the
    side of level 0 (below 2^53), the quotient times the side of the level
    gives the side of level 0. *)
Theorem get_downsamples_of_pyramid w0 h0 dims :
  w0 <> 0 -> h0 <> 0 ->
  Forall (fun d => fst d <> 0 /\ snd d <> 0) dims ->
  exists first rest,
    get_downsamples ((w0, h0) :: dims) = Ret (first :: rest) /\
    (fst first == 1)%Q /\ (snd first == 1)%Q /\
    length rest = length dims /\
    forall (i : nat) d ds, dims !! i = Some d -> rest !! i = Some ds ->
      ds = (binary64 (py_float w0 / py_float (fst d)),
            binary64 (py_float h0 / py_float (snd d))) /\
      (Z.abs w0 < 2 ^ 53 -> (fst d | w0) -> (fst ds * Qz (fst d) == Qz w0)%Q) /\
      (Z.abs h0 < 2 ^ 53 -> (snd d | h0) -> (snd ds * Qz (snd d) == Qz h0)%Q).
Proof.
  intros Hw Hh Hdims.
  assert (Hnz : forall z, z <> 0 -> ~ (py_float z == 0)%Q).
  { intros z Hz. by rewrite py_float_eq_0. }
  exists (binary64 (py_float w0 / py_float w0), binary64 (py_float h0 / py_float h0)),
         (map (fun dim : Z * Z =>
                 (binary64 (py_float w0 / py_float (fst dim)),
                  binary64 (py_float h0 / py_float (snd dim)))) dims).
  split_and!.
  - change (get_downsamples ((w0, h0) :: dims))
      with (map_prog (fun dim : Z * Z =>
                        let* dx := py_div (py_float w0) (py_float (fst dim)) in
                        let* dy := py_div (py_float h0) (py_float (snd dim)) in
                        Ret (dx, dy)) ((w0, h0) :: dims)).
    rewrite (map_prog_downsample w0 h0 ((w0, h0) :: dims)); [done|].
    by constructor.
  - cbn [fst]. rewrite binary64_1; [reflexivity|]. field. by apply Hnz.
  - cbn [snd]. rewrite binary64_1; [reflexivity|]. field. by apply Hnz.
  - by rewrite length_map.
  - intros i d ds Hd Hds. rewrite lookup_map, Hd in Hds.
    injection Hds as <-. cbn [fst snd].
    rewrite Forall_lookup in Hdims. destruct (Hdims i d Hd) as [Hx Hy].
    split; [done|]. split; intros H53 Hdiv; by apply downsample_exact.
Qed.

Lemma get_downsamples_of_pyramid_witness :
  exists first rest,
    get_downsamples [(1600, 1200); (400, 300); (100, 75)] = Ret (first :: rest) /\
    (fst first == 1)%Q /\ (snd first == 1)%Q /\
    length rest = 2%nat /\
    forall (i : nat) d ds, [(400, 300); (100, 75)] !! i = Some d ->
      rest !! i = Some ds ->
      ds = (binary64 (py_float 1600 / py_float (fst d)),
            binary64 (py_float 1200 / py_float (snd d))) /\
      (Z.abs 1600 < 2 ^ 53 -> (fst d | 1600) ->
       (fst ds * Qz (fst d) == Qz 1600)%Q) /\
      (Z.abs 1200 < 2 ^ 53 -> (snd d | 1200) ->
       (snd ds * Qz (snd d) == Qz 1200)%Q).
Proof.
  apply (get_downsamples_of_pyramid 1600 1200 [(400, 300); (100, 75)]);
    [lia | lia |].
  repeat constructor; simpl; lia.
Defined.

(** A level of 300 pixels under a level 0 of 1600: the downsample is the
    float nearest to 16/3, and 300 times it is not 1600. *)
Example get_downsamples_rounds :
  match get_downsamples [(1600, 1200); (300, 225)] with
  | Ret [_; ds] => ~ (fst ds * Qz 300 == Qz 1600)%Q
  | _ => False
  end.
Proof. vm_compute. discriminate. Qed.

Lemma Qz_eq_0 z : (Qz z == 0)%Q <-> z = 0.
Proof. unfold Qz, Qeq. simpl. lia. Qed.

Lemma map_prog_downsample_zero w0 h0 (dims : list (Z * Z)) :
  Exists (fun d => fst d = 0 \/ snd d = 0) dims ->
  map_prog (fun dim : Z * Z =>
              let* dx := py_div (py_float w0) (py_float (fst dim)) in
              let* dy := py_div (py_float h0) (py_float (snd dim)) in
              Ret (dx, dy)) dims
  = Raise ZeroDivisionError.
Proof.
  induction dims as [|d dims IH]; intros Hz; [by apply Exists_nil in Hz|].
  cbn [map_prog]. unfold py_div at 1 2.
  destruct (Qeq_bool (py_float (fst d)) 0) eqn:Hx; [done|].
  destruct (Qeq_bool (py_float (snd d)) 0) eqn:Hy; [done|].
  cbn [bind]. rewrite IH; [done|].
  apply Exists_cons in Hz as [[Hz|Hz]|Hz]; [| |done].
  - apply py_float_eq_0, Qeq_bool_iff in Hz. congruence.
  - apply py_float_eq_0, Qeq_bool_iff in Hz. congruence.
Qed.

(** X4: the edges of [get_downsamples]. A pyramid without levels makes it
    raise [IndexError]; a level with a side of zero pixels makes it raise
    [ZeroDivisionError]. *)
Theorem get_downsamples_edge_cases :
  get_downsamples [] = Raise IndexError /\
  forall dim_0 dims,
    Exists (fun d => fst d = 0 \/ snd d = 0) (dim_0 :: dims) ->
    get_downsamples (dim_0 :: dims) = Raise ZeroDivisionError.
Proof.
  split; [done|].
  intros [w0 h0] dims Hz.
  change (get_downsamples ((w0, h0) :: dims))
    with (map_prog (fun dim : Z * Z =>
                      let* dx := py_div (py_float w0) (py_float (fst dim)) in
                      let* dy := py_div (py_float h0) (py_float (snd dim)) in
                      Ret (dx, dy)) ((w0, h0) :: dims)).
  by apply map_prog_downsample_zero.
Qed.

Lemma get_downsamples_edge_cases_witness :
  get_downsamples [(1600, 1200); (400, 0)] = Raise ZeroDivisionError.
Proof.
  apply get_downsamples_edge_cases.
  apply Exists_cons_tl, Exists_cons_hd. right. reflexivity.
Defined.

(** ** The nearest level *)

Lemma Qlt_bool_true x y : Qlt_bool x y = true -> (x < y)%Q.
Proof. apply Qlt_bool_iff. Qed.

(** What [argmin_from] returns: the running best if nothing in [l] is
    strictly smaller, the first least element of [l] otherwise. *)
Lemma argmin_from_spec (l : list Q) best_i best i :
  (argmin_from best_i best i l = best_i /\ Forall (fun y => (best <= y)%Q) l) \/
  (exists (k : nat) x,
     argmin_from best_i best i l = (i + k)%nat /\ l !! k = Some x /\
     (x < best)%Q /\ Forall (fun y => (x <= y)%Q) l /\
     forall (j : nat) y, (j < k)%nat -> l !! j = Some y -> (x < y)%Q).
Proof.
  revert best_i best i.
  induction l as [|a l IH]; intros best_i best i; [left; by split|].
  cbn [argmin_from]. destruct (Qlt_bool a best) eqn:Hlt.
  - apply Qlt_bool_iff in Hlt. right.
    destruct (IH i a (S i)) as [[Heq Hall] | (k & x & Heq & Hk & Hx & Hall & Hfirst)].
    + exists 0%nat, a. split_and!.
      * rewrite Heq. lia.
      * done.
      * done.
      * constructor; [apply Qle_refl | done].
      * intros j y Hj. lia.
    + exists (S k), x. split_and!.
      * rewrite Heq. lia.
      * done.
      * by apply Qlt_trans with a.
      * constructor; [by apply Qlt_le_weak | done].
      * intros [|j] y Hj Hy.
        -- simpl in Hy. by injection Hy as <-.
        -- simpl in Hy. apply (Hfirst j y); [lia | done].
  - apply Qlt_bool_false in Hlt.
    destruct (IH best_i best (S i)) as [[Heq Hall] | (k & x & Heq & Hk & Hx & Hall & Hfirst)].
    + left. split; [done | by constructor].
    + right. exists (S k), x. split_and!.
      * rewrite Heq. lia.
      * done.
      * done.
      * constructor; [|done]. apply Qlt_le_weak. by apply Qlt_le_trans with best.
      * intros [|j] y Hj Hy.
        -- simpl in Hy. injection Hy as <-. by apply Qlt_le_trans with best.
        -- simpl in Hy. apply (Hfirst j y); [lia | done].
Qed.

(** [np.argmin] of a list with a first element: an index of the list whose
    element is least, and the first such. *)
Lemma np_argmin_spec (l : list Q) :
  l <> [] ->
  exists (k : nat) x,
    np_argmin l = Ret k /\ l !! k = Some x /\
    Forall (fun y => (x <= y)%Q) l /\
    forall (j : nat) y, (j < k)%nat -> l !! j = Some y -> (x < y)%Q.
Proof.
  destruct l as [|a l]; [done|]. intros _.
  cbn [np_argmin].
  destruct (argmin_from_spec l 0%nat a 1%nat)
    as [[Heq Hall] | (k & x & Heq & Hk & Hx & Hall & Hfirst)].
  - exists 0%nat, a. rewrite Heq. split_and!; [done | done | |].
    + constructor; [apply Qle_refl | done].
    + intros j y Hj. lia.
  - exists (S k), x. rewrite Heq. split_and!; [done | done | |].
    + constructor; [by apply Qlt_le_weak | done].
    + intros [|j] y Hj Hy.
      * simpl in Hy. by injection Hy as <-.
      * simpl in Hy. apply (Hfirst j y); [lia | done].
Qed.

Lemma np_argmin_Ret (l : list Q) (k : nat) :
  np_argmin l = Ret k ->
  exists x, l !! k = Some x /\
    Forall (fun y => (x <= y)%Q) l /\
    forall (j : nat) y, (j < k)%nat -> l !! j = Some y -> (x < y)%Q.
Proof.
  intros Hk. destruct l as [|a l]; [done|].
  destruct (np_argmin_spec (a :: l)) as (k' & x & Hk' & H); [done|].
  rewrite Hk in Hk'. injection Hk' as <-. by exists x.
Qed.

Lemma nearest_level_in_range sl downsample :
  level_downsamples sl <> [] ->
  exists k : nat,
    get_best_level_for_downsample_custom sl downsample = Ret k /\
    (k < length (level_downsamples sl))%nat.
Proof.
  intros Hne. unfold get_best_level_for_downsample_custom.
  destruct (np_argmin_spec
              (map (fun d : Q * Q => Qabs (fsub (fst d) downsample)) (level_downsamples sl)))
    as (k & x & Hk & Hx & _).
  { by destruct (level_downsamples sl). }
  exists k. split; [done|].
  apply lookup_lt_Some in Hx. by rewrite length_map in Hx.
Qed.

(** X5: [get_best_level_for_downsample_custom] returns a level of the
    pyramid whose x-downsample is nearest to the requested downsample (by the
    float [abs(x - downsample)]), and among the nearest ones the lowest
    level; the y-downsamples play no part. On a pyramid without levels it
    raises [ValueError]. *)
Theorem nearest_level_for_downsample sl downsample :
  (level_downsamples sl = [] ->
   get_best_level_for_downsample_custom sl downsample = Raise ValueError) /\
  (level_downsamples sl <> [] ->
   exists (k : nat) dk,
     get_best_level_for_downsample_custom sl downsample = Ret k /\
     level_downsamples sl !! k = Some dk /\
     (forall (j : nat) dj, level_downsamples sl !! j = Some dj ->
        (Qabs (fsub (fst dk) downsample) <= Qabs (fsub (fst dj) downsample))%Q) /\
     (forall (j : nat) dj, (j < k)%nat -> level_downsamples sl !! j = Some dj ->
        (Qabs (fsub (fst dk) downsample) < Qabs (fsub (fst dj) downsample))%Q)).
Proof.
  unfold get_best_level_for_downsample_custom. split.
  - by intros ->.
  - intros Hne.
    destruct (np_argmin_spec
                (map (fun d : Q * Q => Qabs (fsub (fst d) downsample)) (level_downsamples sl)))
      as (k & x & Hk & Hx & Hall & Hfirst).
    { by destruct (level_downsamples sl). }
    rewrite lookup_map in Hx.
    destruct (level_downsamples sl !! k) as [dk|] eqn:Hdk; [|done].
    injection Hx as <-.
    exists k, dk. split_and!; [done | done | |].
    + intros j dj Hj. rewrite List.Forall_forall in Hall.
      apply Hall. apply in_map_iff. exists dj. split; [done|].
      apply list_elem_of_In. by apply list_elem_of_lookup_2 with j.
    + intros j dj Hlt Hj. apply (Hfirst j); [done|].
      by rewrite lookup_map, Hj.
Qed.

Lemma nearest_level_for_downsample_witness :
  exists (k : nat) dk,
    get_best_level_for_downsample_custom slide_1_4_16 10 = Ret k /\
    level_downsamples slide_1_4_16 !! k = Some dk /\
    (forall (j : nat) dj, level_downsamples slide_1_4_16 !! j = Some dj ->
       (Qabs (fsub (fst dk) 10) <= Qabs (fsub (fst dj) 10))%Q) /\
    (forall (j : nat) dj, (j < k)%nat -> level_downsamples slide_1_4_16 !! j = Some dj ->
       (Qabs (fsub (fst dk) 10) < Qabs (fsub (fst dj) 10))%Q).
Proof. apply (nearest_level_for_downsample slide_1_4_16 10). discriminate. Defined.

(** On [slide_1_4_16] a downsample of 10 is as far from level 1 as from
    level 2: the lower level is returned. *)
Example nearest_level_of_a_tie :
  get_best_level_for_downsample_custom slide_1_4_16 10 = Ret 1%nat.
Proof. reflexivity. Qed.

(** ** The memo of level spacings *)

(** What a successful [get_level_spacing] did. *)
Lemma run_get_level_spacing_inv sl s level v s' :
  run s (get_level_spacing sl level) = (Ok v, s') ->
  (level_spacing_cache s !! level = Some v /\ s' = s) \/
  (level_spacing_cache s !! level = None /\
   py_index (spacings sl) level = Some v /\
   s' = set_cache s (<[level := v]> (level_spacing_cache s))).
Proof.
  unfold get_level_spacing. cbn [run].
  destruct (level_spacing_cache s !! level) as [c|] eqn:Hc.
  - rewrite bool_decide_eq_true_2 by eauto. cbn [run]. rewrite Hc.
    intros [= -> ->]. by left.
  - rewrite bool_decide_eq_false_2 by (intros [? ?]; congruence).
    unfold index. destruct (py_index (spacings sl) level) as [w|]; [|done].
    cbn [bind run set_cache level_spacing_cache].
    rewrite lookup_insert_eq. intros [= -> <-]. by right.
Qed.

(** X6: a successful [get_level_spacing(level)] answers from the memo when
    the level is memoized, without looking at [spacings]; otherwise it
    memoizes the spacing of the slide under that level and changes nothing
    else; asking again returns the same value and leaves the state as it
    is. *)
Theorem get_level_spacing_memoized sl s level v s' :
  run s (get_level_spacing sl level) = (Ok v, s') ->
  ((level_spacing_cache s !! level = Some v /\ s' = s) \/
   (level_spacing_cache s !! level = None /\
    py_index (spacings sl) level = Some v /\
    s' = set_cache s (<[level := v]> (level_spacing_cache s)))) /\
  run s' (get_level_spacing sl level) = (Ok v, s').
Proof.
  intros Hrun. pose proof (run_get_level_spacing_inv _ _ _ _ _ Hrun) as Hinv.
  split; [exact Hinv|].
  assert (Hc : level_spacing_cache s' !! level = Some v).
  { destruct Hinv as [[Hc ->] | (_ & _ & ->)]; [done|].
    simpl. apply lookup_insert_eq. }
  unfold get_level_spacing. cbn [run].
  rewrite bool_decide_eq_true_2 by eauto. cbn [run]. by rewrite Hc.
Qed.

Lemma get_level_spacing_memoized_witness :
  run (snd (run initial_state (get_level_spacing slide_1_4_16 1)))
      (get_level_spacing slide_1_4_16 1)
  = (Ok 1%Q, snd (run initial_state (get_level_spacing slide_1_4_16 1))).
Proof.
  apply (get_level_spacing_memoized slide_1_4_16 initial_state 1 1%Q).
  reflexivity.
Defined.

(** ** What a level for a spacing is *)

Lemma same_output_refl s : same_output s s.
Proof. done. Qed.

Lemma same_output_trans s1 s2 s3 :
  same_output s1 s2 -> same_output s2 s3 -> same_output s1 s3.
Proof. intros (? & ? & ?) (? & ? & ?). unfold same_output. split_and!; congruence. Qed.

Lemma run_get_level_spacing_output sl s level v s' :
  run s (get_level_spacing sl level) = (Ok v, s') -> same_output s s'.
Proof.
  intros H. apply run_get_level_spacing_inv in H as [[_ ->] | (_ & _ & ->)]; done.
Qed.

Lemma run_within_tolerance_Ok level_spacing target tol s ok s' :
  run s (within_tolerance level_spacing target tol) = (Ok ok, s') ->
  s' = s /\ ~ (target == 0)%Q /\
  (ok = true <-> in_tolerance level_spacing target tol).
Proof.
  unfold within_tolerance. intros H.
  apply run_bind_Ok in H as (d & s1 & Hd & H).
  apply run_py_div_Ok in Hd as (-> & Hnz & ->).
  cbn [run] in H. injection H as <- <-.
  split_and!; [done | done |]. unfold in_tolerance. apply Qle_bool_iff.
Qed.

(** The [while] loop, started at a level whose spacing missed the
    tolerance. *)
Lemma run_walk_to_finer sl target tol (level : nat) ls s (level' : nat) ls' flag s' :
  cache_ok sl s ->
  spacings sl !! level = Some ls ->
  ~ in_tolerance ls target tol ->
  run s (walk_to_finer sl target tol level ls) = (Ok (level', ls', flag), s') ->
  cache_ok sl s' /\ same_output s s' /\
  (level' <= level)%nat /\ spacings sl !! level' = Some ls' /\
  (flag = true <-> in_tolerance ls' target tol) /\
  (flag = false -> level' = 0%nat \/ (ls' <= target)%Q) /\
  (forall i : nat, (level' < i <= level)%nat ->
     exists vi, spacings sl !! i = Some vi /\
                (target < vi)%Q /\ ~ in_tolerance vi target tol).
Proof.
  revert ls s. induction level as [|level IH]; intros ls s Hc Hls Hout Hrun.
  - cbn [walk_to_finer run] in Hrun. injection Hrun as <- <- <- <-.
    split_and!; [done | done | done | done | | by left | intros i Hi; lia].
    split; [done | by intros ?].
  - cbn [walk_to_finer] in Hrun.
    destruct (Qlt_bool target ls) eqn:Hlt.
    + apply Qlt_bool_iff in Hlt.
      apply run_bind_Ok in Hrun as (ls1 & s1 & H1 & Hrun).
      pose proof (run_get_level_spacing_output _ _ _ _ _ H1) as Ho1.
      apply run_get_level_spacing_Ok in H1 as [Hls1 Hc1]; [|done].
      rewrite py_index_nat in Hls1.
      apply run_bind_Ok in Hrun as (ok & s2 & Hok & Hrun).
      apply run_within_tolerance_Ok in Hok as (-> & Hnz & Hok).
      destruct ok.
      * cbn [run] in Hrun. injection Hrun as <- <- <- <-.
        split_and!; [done | done | lia | done | | done |].
        -- split; [intros _; by apply Hok | done].
        -- intros i Hi. assert (i = S level) as -> by lia. by exists ls.
      * assert (Hout1 : ~ in_tolerance ls1 target tol).
        { intros Hin. by apply Hok in Hin. }
        destruct (IH ls1 s1 Hc1 Hls1 Hout1 Hrun)
          as (Hc' & Ho' & Hle & Hls' & Hflag & Hfalse & Hpassed).
        split_and!; [done | by apply same_output_trans with s1 | lia | done
                     | done | done |].
        intros i Hi.
        destruct (decide (i = S level)) as [-> | Hne].
        -- by exists ls.
        -- apply (Hpassed i); lia.
    + apply Qlt_bool_false in Hlt.
      cbn [run] in Hrun. injection Hrun as <- <- <- <-.
      split_and!; [done | done | done | done | | by right | intros i Hi; lia].
      split; [done | by intros ?].
Qed.

Lemma run_np_argmin_Ok l s (k : nat) s' :
  run s (np_argmin l) = (Ok k, s') -> s' = s /\ np_argmin l = Ret k.
Proof.
  destruct l as [|x l]; [done|]. cbn [np_argmin run].
  intros [= <- <-]. by split.
Qed.

(** What a successful [get_best_level_for_spacing] went through. *)
Lemma run_get_best_level_for_spacing_Ok sl s target tol verbose level flag s' :
  cache_ok sl s ->
  run s (get_best_level_for_spacing sl target tol verbose) = (Ok (level, flag), s') ->
  exists (nearest found : nat) s0 v s1,
    spacings sl !! 0%nat = Some s0 /\ ~ (s0 == 0)%Q /\ ~ (target == 0)%Q /\
    get_best_level_for_downsample_custom sl (binary64 (target / s0)) = Ret nearest /\
    level = Z.of_nat found /\ (found <= nearest)%nat /\
    spacings sl !! found = Some v /\
    (flag = true <-> in_tolerance v target tol) /\
    (flag = false -> found = 0%nat \/ (v <= target)%Q) /\
    (forall i : nat, (found < i <= nearest)%nat ->
       exists vi, spacings sl !! i = Some vi /\
                  (target < vi)%Q /\ ~ in_tolerance vi target tol) /\
    cache_ok sl s1 /\ same_output s s1 /\
    run s1 (if negb flag && verbose
            then warn_once {| msg_tolerance := tol;
                              msg_target_spacing := target;
                              msg_level_spacing := v |}
            else Ret tt) = (Ok tt, s').
Proof.
  intros Hc Hrun. unfold get_best_level_for_spacing in Hrun.
  apply run_bind_Ok in Hrun as (s0 & t1 & H0 & Hrun).
  pose proof (run_get_level_spacing_output _ _ _ _ _ H0) as Ho1.
  apply run_get_level_spacing_Ok in H0 as [Hs0 Hc1]; [|done].
  change 0 with (Z.of_nat 0) in Hs0. rewrite py_index_nat in Hs0.
  apply run_bind_Ok in Hrun as (td & t2 & Htd & Hrun).
  apply run_py_div_Ok in Htd as (-> & Hs0nz & ->).
  apply run_bind_Ok in Hrun as (nearest & t3 & Hnear & Hrun).
  assert (Hnearest : get_best_level_for_downsample_custom sl (binary64 (target / s0)) = Ret nearest
                     /\ t3 = t1).
  { unfold get_best_level_for_downsample_custom in *.
    apply run_np_argmin_Ok in Hnear as [-> Hnear]. by split. }
  destruct Hnearest as [Hnearest ->]. clear Hnear.
  apply run_bind_Ok in Hrun as (ls & t4 & Hls & Hrun).
  pose proof (run_get_level_spacing_output _ _ _ _ _ Hls) as Ho2.
  apply run_get_level_spacing_Ok in Hls as [Hls Hc2]; [|done].
  rewrite py_index_nat in Hls.
  apply run_bind_Ok in Hrun as (ok & t5 & Hok & Hrun).
  apply run_within_tolerance_Ok in Hok as (-> & Hnz & Hok).
  destruct ok.
  - cbn [run] in Hrun. injection Hrun as <- <- <-.
    exists nearest, nearest, s0, ls, t4.
    do 7 (split; [done|]).
    split; [split; [intros _; by apply Hok | done]|].
    split; [done|].
    split; [intros i Hi; lia|].
    split; [done|].
    split; [by apply same_output_trans with t1 | done].
  - assert (Hout : ~ in_tolerance ls target tol).
    { intros Hin. by apply Hok in Hin. }
    apply run_bind_Ok in Hrun as ([[found ls'] flag'] & t6 & Hwalk & Hrun).
    destruct (run_walk_to_finer _ _ _ _ _ _ _ _ _ _ Hc2 Hls Hout Hwalk)
      as (Hc' & Ho' & Hle & Hls' & Hflag & Hfalse & Hpassed).
    apply run_bind_Ok in Hrun as (ok' & t7 & Hok' & Hrun).
    apply run_within_tolerance_Ok in Hok' as (-> & _ & Hok').
    apply run_bind_Ok in Hrun as ([] & t8 & Hwarn & Hrun).
    cbn [run] in Hrun. injection Hrun as <- <- <-.
    exists nearest, found, s0, ls', t6.
    do 10 (split; [done|]).
    split; [done|].
    split.
    + apply same_output_trans with t4; [|done].
      by apply same_output_trans with t1.
    + assert (Hsame : ok' = flag').
      { destruct ok', flag'; [done | | |done].
        - assert (Hin : in_tolerance ls' target tol) by by apply Hok'.
          by apply Hflag in Hin.
        - assert (Hin : in_tolerance ls' target tol) by by apply Hflag.
          by apply Hok' in Hin. }
      by rewrite <- Hsame.
Qed.

(** X7: a level returned by [get_best_level_for_spacing] is a level of the
    pyramid, not above the level nearest to the target; its flag tells
    exactly whether the spacing of that level is within the tolerance of
    the target; when it is not, the level is level 0 or its spacing does
    not exceed the target (nothing is upsampled as long as a finer level
    exists); and every level passed over on the way down is coarser than
    the target and out of tolerance. *)
Theorem best_level_for_spacing_result sl s target tol verbose level flag s' :
  cache_ok sl s ->
  run s (get_best_level_for_spacing sl target tol verbose) = (Ok (level, flag), s') ->
  exists (nearest : nat) s0 v,
    spacings sl !! 0%nat = Some s0 /\
    get_best_level_for_downsample_custom sl (binary64 (target / s0)) = Ret nearest /\
    0 <= level <= Z.of_nat nearest /\
    spacings sl !! Z.to_nat level = Some v /\
    (flag = true <-> in_tolerance v target tol) /\
    (flag = false -> level = 0 \/ (v <= target)%Q) /\
    (forall (i : nat) vi, level < Z.of_nat i <= Z.of_nat nearest ->
       spacings sl !! i = Some vi ->
       (target < vi)%Q /\ ~ in_tolerance vi target tol).
Proof.
  intros Hc Hrun.
  destruct (run_get_best_level_for_spacing_Ok _ _ _ _ _ _ _ _ Hc Hrun)
    as (nearest & found & s0 & v & s1 & Hs0 & _ & _ & Hnear & -> & Hle & Hv
        & Hflag & Hfalse & Hpassed & _).
  exists nearest, s0, v. rewrite Nat2Z.id.
  split_and!; [done | done | lia | lia | done | done | |].
  - intros Hf. destruct (Hfalse Hf) as [-> | Hv']; [by left | by right].
  - intros i vi Hi Hvi. destruct (Hpassed i ltac:(lia)) as (vi' & Hvi' & H).
    rewrite Hvi in Hvi'. by injection Hvi' as <-.
Qed.

Lemma best_level_for_spacing_result_witness :
  exists (nearest : nat) s0 v,
    spacings slide_1_4_16 !! 0%nat = Some s0 /\
    get_best_level_for_downsample_custom slide_1_4_16 (binary64 ((1 # 2) / s0))
    = Ret nearest /\
    0 <= 0 <= Z.of_nat nearest /\
    spacings slide_1_4_16 !! Z.to_nat 0 = Some v /\
    (false = true <-> in_tolerance v (1 # 2) (1 # 64)) /\
    (false = false -> 0 = 0 \/ (v <= 1 # 2)%Q) /\
    (forall (i : nat) vi, 0 < Z.of_nat i <= Z.of_nat nearest ->
       spacings slide_1_4_16 !! i = Some vi ->
       (1 # 2 < vi)%Q /\ ~ in_tolerance vi (1 # 2) (1 # 64)).
Proof.
  apply (best_level_for_spacing_result slide_1_4_16 initial_state
           (1 # 2) (1 # 64) true 0 false
           (snd (run initial_state
                   (get_best_level_for_spacing slide_1_4_16 (1 # 2) (1 # 64) true)))).
  - apply cache_ok_initial.
  - reflexivity.
Defined.

(** On [slide_1_4_16] the level nearest to a spacing of 3/4 is level 1,
    whose spacing 1 is coarser than the target: the level returned is
    level 0. *)
Example best_level_walks_to_a_finer_level :
  get_best_level_for_downsample_custom slide_1_4_16 (binary64 ((3 # 4) / (1 # 4)))
  = Ret 1%nat /\
  fst (run initial_state
         (get_best_level_for_spacing slide_1_4_16 (3 # 4) (1 # 64) false))
  = Ok (0, false).
Proof. split; reflexivity. Qed.

(** At the edge of the tolerance the flag follows the rounded quotient:
    with the floats 0.21 for the level and 0.3 for the target and for the
    tolerance, [abs(0.21 - 0.3) / 0.3] is the float 0.3, though the exact
    quotient is above it. *)
Example tolerance_at_the_edge :
  in_tolerance (binary64 (21 # 100)) (binary64 (3 # 10)) (binary64 (3 # 10)) /\
  (binary64 (3 # 10)
   < Qabs (binary64 (21 # 100) - binary64 (3 # 10)) / binary64 (3 # 10))%Q.
Proof. split; [vm_compute; discriminate | vm_compute; reflexivity]. Qed.

(** ** A level asked for by its own spacing *)

Lemma run_within_tolerance s v target tol :
  ~ (target == 0)%Q ->
  exists ok, run s (within_tolerance v target tol) = (Ok ok, s) /\
             (ok = true <-> in_tolerance v target tol).
Proof.
  intros Hnz. unfold within_tolerance, py_div.
  rewrite (Qeq_bool_false _ _ Hnz). cbn [bind run].
  eexists. split; [reflexivity|]. unfold in_tolerance. apply Qle_bool_iff.
Qed.

Lemma Qabs_eq_0 x : (Qabs x == 0)%Q -> (x == 0)%Q.
Proof.
  intros H. destruct (Q_dec x 0) as [[Hlt | Hgt] | Heq]; [| |done].
  - rewrite Qabs_neg in H by (by apply Qlt_le_weak).
    rewrite <- (Qopp_involutive x), H. reflexivity.
  - by rewrite Qabs_pos in H by (by apply Qlt_le_weak).
Qed.

(** With a tolerance of zero only the target itself is within tolerance. *)
Lemma in_tolerance_zero v target :
  (0 < target)%Q -> in_tolerance v target 0 <-> (v == target)%Q.
Proof.
  intros Hpos. unfold in_tolerance, fsub. split.
  - intros Hle.
    assert (Hge : (0 <= Qabs (binary64 (v - target)) / target)%Q).
    { apply Qle_shift_div_l; [done|]. rewrite Qmult_0_l. apply Qabs_nonneg. }
    pose proof (binary64_nonneg _ Hge) as Hge'.
    assert (H0 : (binary64 (Qabs (binary64 (v - target)) / target) == 0)%Q)
      by (by apply Qle_antisym).
    apply binary64_eq_0 in H0.
    assert (H1 : (Qabs (binary64 (v - target)) == 0)%Q).
    { rewrite <- (Qmult_div_r (Qabs (binary64 (v - target))) target)
        by (intros E; rewrite E in Hpos; by compute in Hpos).
      rewrite H0. ring. }
    assert (H2 : (binary64 (v - target) == 0)%Q) by (by apply Qabs_eq_0).
    apply binary64_eq_0 in H2.
    rewrite <- (Qplus_0_l target), <- H2. ring.
  - intros Heq. rewrite (binary64_0 (v - target)) by (rewrite Heq; ring).
    rewrite (binary64_0 (Qabs 0 / target)); [apply Qle_refl|].
    simpl Qabs. unfold Qdiv. by rewrite Qmult_0_l.
Qed.

(** The [while] loop from a level above [k] whose levels down to [k] are
    all coarser than the spacing of [k]: it stops at [k]. *)
Lemma run_walk_to_finer_reaches sl sk (k d : nat) ls s :
  cache_ok sl s ->
  (0 < sk)%Q ->
  spacings sl !! k = Some sk ->
  (sk < ls)%Q ->
  (forall i : nat, (k < i <= k + d)%nat ->
     exists vi, spacings sl !! i = Some vi /\ (sk < vi)%Q) ->
  exists s',
    run s (walk_to_finer sl sk 0 (k + S d) ls) = (Ok (k, sk, true), s') /\
    cache_ok sl s'.
Proof.
  intros Hc Hpos Hk. revert ls s Hc.
  assert (Hnz : ~ (sk == 0)%Q) by (intros E; rewrite E in Hpos; by compute in Hpos).
  induction d as [|d IH]; intros ls s Hc Hls Hbetween.
  - replace (k + 1)%nat with (S k) by lia. cbn [walk_to_finer].
    rewrite (proj2 (Qlt_bool_iff sk ls) Hls).
    pose proof (run_get_level_spacing sl s (Z.of_nat k) Hc) as H1.
    rewrite py_index_nat, Hk in H1. destruct H1 as (s1 & H1 & Hc1 & _).
    rewrite run_bind, H1.
    rewrite run_bind, run_within_tolerance_same; [|done|apply Qle_refl].
    by exists s1.
  - replace (k + S (S d))%nat with (S (k + S d)) by lia. cbn [walk_to_finer].
    rewrite (proj2 (Qlt_bool_iff sk ls) Hls).
    destruct (Hbetween (k + S d)%nat ltac:(lia)) as (v & Hv & Hlt).
    pose proof (run_get_level_spacing sl s (Z.of_nat (k + S d)) Hc) as H1.
    rewrite py_index_nat, Hv in H1. destruct H1 as (s1 & H1 & Hc1 & _).
    rewrite run_bind, H1.
    destruct (run_within_tolerance s1 v sk 0 Hnz) as (ok & Hok & Hiff).
    rewrite run_bind, Hok.
    destruct ok.
    + exfalso. assert (Heq : (v == sk)%Q) by (apply in_tolerance_zero; tauto).
      rewrite Heq in Hlt. by apply Qlt_irrefl in Hlt.
    + apply IH; [done | done |]. intros i Hi. apply Hbetween. lia.
Qed.

(** C1 (as amended): for a level [k] with positive spacing,
    [get_best_level_for_spacing(spacingOf(k), 0)] returns [(k, True)]
    exactly when [k] is not above the level [nearest] that
    [get_best_level_for_downsample_custom] gives for the float
    [spacingOf(k) / spacingOf(0)] and every level above [k] up to
    [nearest] has a spacing greater than [spacingOf(k)]; in particular it
    does when [nearest] is [k]. No call returns a level above [nearest]:
    when [nearest] is below [k], [k] is not returned. *)
Theorem best_level_for_own_spacing sl s (k : nat) s0 sk (nearest : nat) verbose :
  cache_ok sl s ->
  spacings sl !! 0%nat = Some s0 ->
  spacings sl !! k = Some sk ->
  ~ (s0 == 0)%Q -> (0 < sk)%Q ->
  get_best_level_for_downsample_custom sl (binary64 (sk / s0)) = Ret nearest ->
  ((exists s', run s (get_best_level_for_spacing sl sk 0 verbose)
               = (Ok (Z.of_nat k, true), s')) <->
   (k <= nearest)%nat /\
   forall i : nat, (k < i <= nearest)%nat ->
     exists vi, spacings sl !! i = Some vi /\ (sk < vi)%Q) /\
  (nearest = k ->
   exists s', run s (get_best_level_for_spacing sl sk 0 verbose)
              = (Ok (Z.of_nat k, true), s')) /\
  (forall level flag s',
     run s (get_best_level_for_spacing sl sk 0 verbose) = (Ok (level, flag), s') ->
     level <= Z.of_nat nearest).
Proof.
  intros Hc H0 Hk Hs0 Hpos Hnear.
  assert (Hnz : ~ (sk == 0)%Q) by (intros E; rewrite E in Hpos; by compute in Hpos).
  assert (Hback : (k <= nearest)%nat ->
                  (forall i : nat, (k < i <= nearest)%nat ->
                     exists vi, spacings sl !! i = Some vi /\ (sk < vi)%Q) ->
                  exists s', run s (get_best_level_for_spacing sl sk 0 verbose)
                             = (Ok (Z.of_nat k, true), s')).
  { intros Hle Hbetween. unfold get_best_level_for_spacing.
    pose proof (run_get_level_spacing sl s 0 Hc) as H1.
    change 0 with (Z.of_nat 0) in H1. rewrite py_index_nat, H0 in H1.
    destruct H1 as (s1 & H1 & Hc1 & _). change (Z.of_nat 0) with 0 in H1.
    rewrite run_bind, H1.
    unfold py_div at 1. rewrite (Qeq_bool_false _ _ Hs0). cbn [bind].
    rewrite Hnear. cbn [bind].
    destruct (decide (nearest = k)) as [-> | Hne].
    - pose proof (run_get_level_spacing sl s1 (Z.of_nat k) Hc1) as H2.
      rewrite py_index_nat, Hk in H2. destruct H2 as (s2 & H2 & Hc2 & _).
      rewrite run_bind, H2.
      rewrite run_bind, run_within_tolerance_same; [|done|apply Qle_refl].
      cbn [run]. eauto.
    - destruct (Hbetween nearest ltac:(lia)) as (v & Hv & Hlt).
      pose proof (run_get_level_spacing sl s1 (Z.of_nat nearest) Hc1) as H2.
      rewrite py_index_nat, Hv in H2. destruct H2 as (s2 & H2 & Hc2 & _).
      rewrite run_bind, H2.
      destruct (run_within_tolerance s2 v sk 0 Hnz) as (ok & Hok & Hiff).
      rewrite run_bind, Hok.
      destruct ok.
      { exfalso. assert (Heq : (v == sk)%Q) by (apply in_tolerance_zero; tauto).
        rewrite Heq in Hlt. by apply Qlt_irrefl in Hlt. }
      destruct (run_walk_to_finer_reaches sl sk k (nearest - k - 1) v s2
                  Hc2 Hpos Hk Hlt) as (s3 & Hwalk & _).
      { intros i Hi. apply Hbetween. lia. }
      replace (k + S (nearest - k - 1))%nat with nearest in Hwalk by lia.
      rewrite run_bind, Hwalk.
      rewrite run_bind, run_within_tolerance_same; [|done|apply Qle_refl].
      cbn [negb andb]. rewrite run_bind. cbn [run]. eauto. }
  assert (Hforth : forall level flag s',
             run s (get_best_level_for_spacing sl sk 0 verbose) = (Ok (level, flag), s') ->
             exists found : nat,
               level = Z.of_nat found /\ (found <= nearest)%nat /\
               forall i : nat, (found < i <= nearest)%nat ->
                 exists vi, spacings sl !! i = Some vi /\ (sk < vi)%Q).
  { intros level flag s' Hrun.
    destruct (run_get_best_level_for_spacing_Ok _ _ _ _ _ _ _ _ Hc Hrun)
      as (nearest' & found & s0' & v & s1 & Hs0' & _ & _ & Hnear' & -> & Hle & _
          & _ & _ & Hpassed & _).
    rewrite H0 in Hs0'. injection Hs0' as <-.
    rewrite Hnear in Hnear'. injection Hnear' as <-.
    exists found. split; [done|]. split; [done|].
    intros i Hi. destruct (Hpassed i Hi) as (vi & Hvi & Hlt & _). by exists vi. }
  split; [split|split].
  - intros [s' Hrun]. destruct (Hforth _ _ _ Hrun) as (found & Hfound & Hle & Hbetween).
    apply Nat2Z.inj in Hfound. by subst found.
  - intros [Hle Hbetween]. by apply Hback.
  - intros ->. apply Hback; [done|]. intros i Hi. lia.
  - intros level flag s' Hrun.
    destruct (Hforth _ _ _ Hrun) as (found & -> & Hle & _). lia.
Qed.

Lemma best_level_for_own_spacing_witness :
  exists s', run initial_state (get_best_level_for_spacing slide_1_4_16 1 0 true)
             = (Ok (Z.of_nat 1, true), s').
Proof.
  destruct (best_level_for_own_spacing slide_1_4_16 initial_state 1 (1 # 4) 1 1 true)
    as (_ & Hown & _).
  - apply cache_ok_initial.
  - reflexivity.
  - reflexivity.
  - intros H; vm_compute in H; discriminate.
  - reflexivity.
  - reflexivity.
  - by apply Hown.
Defined.

(** C1 as stated fails: level 2 of the slide is valid and has spacing 1/2,
    but [get_best_level_for_spacing(1/2, 0)] returns level 1, the lowest
    level with the nearest downsample. *)
Lemma best_level_for_spacing_of_twin_level :
  spacings slide_with_twin_levels !! 2%nat = Some (1 # 2)%Q /\
  fst (run initial_state
         (get_best_level_for_spacing slide_with_twin_levels (1 # 2) 0 false))
  = Ok (1, true).
Proof. split; reflexivity. Qed.

(** A level below the nearest one is returned for its own spacing when
    the levels between are coarser: on a pyramid with downsamples 1, 3, 3
    and 2 and spacings 1/4, 1/2, 1/2 and 3/4, the level nearest to a
    downsample of 2 is level 3, and [get_best_level_for_spacing(1/2, 0)]
    walks down to level 2, though level 1 has the same downsample. *)
Example best_level_below_the_nearest :
  get_best_level_for_downsample_custom slide_out_of_order (binary64 ((1 # 2) / (1 # 4)))
  = Ret 3%nat /\
  fst (run initial_state
         (get_best_level_for_spacing slide_out_of_order (1 # 2) 0 false))
  = Ok (2, true).
Proof. split; reflexivity. Qed.

(** ** When the diagnostic is printed *)

Lemma run_warn_once m s s' :
  run s (warn_once m) = (Ok tt, s') ->
  warning_lock s = false /\ warning_lock s' = false /\
  level_spacing_cache s' = level_spacing_cache s /\
  if printed_warning s
  then printed s' = printed s /\ printed_warning s' = true
  else printed s' = printed s ++ [m] /\ printed_warning s' = true.
Proof.
  unfold warn_once. cbn [run].
  destruct (warning_lock s) eqn:Hlock; [done|].
  cbn [set_lock printed_warning].
  destruct (printed_warning s) eqn:Hp; cbn [run]; intros [= <-]; simpl; by rewrite ?Hp.
Qed.

(** X8: [get_best_level_for_spacing] prints the diagnostic exactly when it
    is called with [verbose], the flag it returns is [False] and nothing
    was printed before; the diagnostic carries the tolerance, the target
    and the spacing of the level returned, and [_printed_warning] is set
    afterwards. In every other case what was printed and the flag stay as
    they were; the lock is free again when the call returns. *)
Theorem best_level_for_spacing_warning sl s target tol verbose level flag s' :
  cache_ok sl s ->
  run s (get_best_level_for_spacing sl target tol verbose) = (Ok (level, flag), s') ->
  warning_lock s' = warning_lock s /\
  if verbose && negb flag && negb (printed_warning s)
  then exists v,
         spacings sl !! Z.to_nat level = Some v /\
         printed s' = printed s ++ [{| msg_tolerance := tol;
                                       msg_target_spacing := target;
                                       msg_level_spacing := v |}] /\
         printed_warning s' = true
  else printed s' = printed s /\ printed_warning s' = printed_warning s.
Proof.
  intros Hc Hrun.
  destruct (run_get_best_level_for_spacing_Ok _ _ _ _ _ _ _ _ Hc Hrun)
    as (nearest & found & s0 & v & s1 & _ & _ & _ & _ & -> & _ & Hv
        & _ & _ & _ & _ & (Hp1 & Hl1 & Ho1) & Hwarn).
  rewrite Nat2Z.id.
  destruct verbose, flag; cbn [negb andb] in *.
  - injection Hwarn as <-. by rewrite Hl1, Ho1, Hp1.
  - apply run_warn_once in Hwarn as (Hlock & Hlock' & _ & Hprint).
    rewrite Hp1 in Hprint. rewrite Hlock', <- Hl1, Hlock. split; [done|].
    destruct (printed_warning s) eqn:Hp; cbn [negb].
    + destruct Hprint as [-> ->]. by rewrite Ho1.
    + exists v. destruct Hprint as [-> ->]. by rewrite Ho1.
  - injection Hwarn as <-. by rewrite Hl1, Ho1, Hp1.
  - injection Hwarn as <-. by rewrite Hl1, Ho1, Hp1.
Qed.

Lemma best_level_for_spacing_warning_witness :
  printed (snd (run initial_state
                  (get_best_level_for_spacing slide_1_4_16 (5 # 8) (1 # 128) true)))
  = [{| msg_tolerance := 1 # 128; msg_target_spacing := 5 # 8;
        msg_level_spacing := 1 # 4 |}].
Proof.
  destruct (best_level_for_spacing_warning slide_1_4_16 initial_state
              (5 # 8) (1 # 128) true 0 false
              (snd (run initial_state
                      (get_best_level_for_spacing slide_1_4_16 (5 # 8) (1 # 128) true)))
              (cache_ok_initial _) eq_refl) as [_ H].
  reflexivity.
Defined.

(** X9: a target spacing of zero makes [get_best_level_for_spacing] raise
    [ZeroDivisionError] at the tolerance test, on every slide whose
    pyramid has a level, a nonzero level-0 spacing and a spacing for each
    level; nothing is printed. *)
Theorem best_level_for_zero_spacing sl s target tol verbose s0 :
  cache_ok sl s ->
  (target == 0)%Q ->
  spacings sl !! 0%nat = Some s0 -> ~ (s0 == 0)%Q ->
  level_downsamples sl <> [] ->
  (length (level_downsamples sl) <= length (spacings sl))%nat ->
  exists s',
    run s (get_best_level_for_spacing sl target tol verbose)
    = (Exc ZeroDivisionError, s') /\ same_output s s'.
Proof.
  intros Hc Ht Hs0 Hnz Hne Hlen.
  unfold get_best_level_for_spacing.
  pose proof (run_get_level_spacing sl s 0 Hc) as H0.
  change 0 with (Z.of_nat 0) in H0 at 1. rewrite py_index_nat, Hs0 in H0.
  destruct H0 as (s1 & H0 & Hc1 & _).
  pose proof (run_get_level_spacing_output _ _ _ _ _ H0) as Ho1.
  rewrite run_bind, H0.
  unfold py_div at 1. rewrite (Qeq_bool_false _ _ Hnz). cbn [bind].
  destruct (nearest_level_in_range sl (binary64 (target / s0)) Hne) as (k & Hk & Hlt).
  rewrite Hk. cbn [bind].
  assert (Hsk : is_Some (spacings sl !! k)).
  { apply lookup_lt_is_Some. lia. }
  destruct Hsk as [sk Hsk].
  pose proof (run_get_level_spacing sl s1 (Z.of_nat k) Hc1) as H1.
  rewrite py_index_nat, Hsk in H1.
  destruct H1 as (s2 & H1 & _ & _).
  pose proof (run_get_level_spacing_output _ _ _ _ _ H1) as Ho2.
  rewrite run_bind, H1.
  exists s2. split; [|by apply same_output_trans with s1].
  unfold within_tolerance, py_div.
  apply Qeq_bool_iff in Ht. by rewrite Ht.
Qed.

Lemma best_level_for_zero_spacing_witness :
  exists s',
    run initial_state (get_best_level_for_spacing slide_1_4_16 0 (1 # 128) true)
    = (Exc ZeroDivisionError, s') /\ same_output initial_state s'.
Proof.
  apply (best_level_for_zero_spacing slide_1_4_16 initial_state 0 (1 # 128) true (1 # 4)).
  - apply cache_ok_initial.
  - reflexivity.
  - reflexivity.
  - discriminate.
  - discriminate.
  - simpl. lia.
Defined.

(** ** Scaling contours between levels *)

Lemma py_int_Qeq x y : (x == y)%Q -> py_int x = py_int y.
Proof.
  unfold Qeq, py_int. intros H.
  rewrite <- (Z.quot_mul_cancel_r (Qnum x) (Zpos (Qden x)) (Zpos (Qden y))) by lia.
  rewrite H.
  rewrite (Z.mul_comm (Zpos (Qden x)) (Zpos (Qden y))).
  apply Z.quot_mul_cancel_r; lia.
Qed.

Lemma py_int_Qz z : py_int (Qz z) = z.
Proof. unfold py_int, Qz. simpl. apply Z.quot_1_r. Qed.

Section Scaling.
Context {cv : Cv2}.

Lemma scaleContourDim_Some scale (cs : list contour) :
  scaleContourDim (map Some cs) scale
  = Ret (map (fun c : contour =>
                map (fun pt : Z * Z =>
                       (as_int32 (fmul (py_float (fst pt)) (fst scale)),
                        as_int32 (fmul (py_float (snd pt)) (snd scale)))) c) cs).
Proof.
  unfold scaleContourDim. induction cs as [|c cs IH]; [done|].
  cbn [map map_prog scale_contour bind]. by rewrite IH.
Qed.

Lemma as_int32_int z : Z.abs z < 2 ^ 31 -> as_int32 (Qz z) = z.
Proof.
  intros Hz. unfold as_int32. rewrite py_int_Qz.
  destruct (Z.leb_spec (- 2 ^ 31) z); [|lia].
  destruct (Z.ltb_spec z (2 ^ 31)); [done|lia].
Qed.

(** A coordinate scaled by a power of two and back, within [int32]. *)
Lemma scale_coordinate_pow2 x (n : nat) :
  Z.abs x * 2 ^ Z.of_nat n < 2 ^ 31 ->
  as_int32 (fmul (py_float x) (Qz (2 ^ Z.of_nat n))) = x * 2 ^ Z.of_nat n /\
  as_int32 (fmul (py_float (x * 2 ^ Z.of_nat n))
                 (binary64 (1 / Qz (2 ^ Z.of_nat n)))) = x.
Proof.
  intros Hx.
  assert (Hp : 0 < 2 ^ Z.of_nat n) by (apply Z.pow_pos_nonneg; lia).
  assert (H31 : 2 ^ 31 < 2 ^ 53) by done.
  assert (Hx31 : Z.abs x < 2 ^ 31) by nia.
  assert (Hs31 : Z.abs (x * 2 ^ Z.of_nat n) < 2 ^ 31).
  { rewrite Z.abs_mul, (Z.abs_eq (2 ^ Z.of_nat n)) by lia. done. }
  split.
  - unfold fmul. rewrite (py_float_int x) by lia.
    rewrite (binary64_Qeq _ (Qz (x * 2 ^ Z.of_nat n)))
      by (unfold Qz; by rewrite inject_Z_mult).
    rewrite binary64_int by lia. by apply as_int32_int.
  - unfold fmul. rewrite (py_float_int (x * 2 ^ Z.of_nat n)) by lia.
    rewrite (binary64_Qeq _ (Qz x)).
    + rewrite binary64_int by lia. by apply as_int32_int.
    + rewrite binary64_pow2_inv. unfold Qz. rewrite inject_Z_mult. field.
      unfold Qeq. simpl. lia.
Qed.

End Scaling.

(** X10: scaling contours by downsamples that are powers of two and back
    by their inverses, as [detect_contours] and [process_contour] do with
    the downsample of the segmentation level of a dyadic pyramid, gives
    the contours back point by point, provided the scaled coordinates
    stay within [int32]. *)
Theorem scaleContourDim_round_trip {cv : Cv2} (n m : nat) (cs : list contour) :
  Forall (Forall (fun pt : Z * Z =>
                    Z.abs (fst pt) * 2 ^ Z.of_nat n < 2 ^ 31 /\
                    Z.abs (snd pt) * 2 ^ Z.of_nat m < 2 ^ 31)) cs ->
  exists scaled,
    scaleContourDim (map Some cs) (Qz (2 ^ Z.of_nat n), Qz (2 ^ Z.of_nat m))
    = Ret scaled /\
    map length scaled = map length cs /\
    scaleContourDim (map Some scaled)
      (binary64 (1 / Qz (2 ^ Z.of_nat n)), binary64 (1 / Qz (2 ^ Z.of_nat m)))
    = Ret cs.
Proof.
  intros Hrange.
  eexists. split; [apply scaleContourDim_Some|]. split.
  - rewrite map_map. apply map_ext. intros c. by rewrite length_map.
  - rewrite scaleContourDim_Some. f_equal.
    rewrite map_map. rewrite <- (map_id cs) at 2. apply map_ext_in. intros c Hc.
    rewrite map_map. rewrite <- (map_id c) at 2. apply map_ext_in. intros [x y] Hpt.
    rewrite List.Forall_forall in Hrange. specialize (Hrange c Hc).
    rewrite List.Forall_forall in Hrange. destruct (Hrange (x, y) Hpt) as [Hx Hy].
    cbn [fst snd] in *.
    destruct (scale_coordinate_pow2 x n Hx) as [-> ->].
    destruct (scale_coordinate_pow2 y m Hy) as [-> ->]. done.
Qed.

Lemma scaleContourDim_round_trip_witness :
  exists scaled,
    scaleContourDim (cv := cv2_finding ([], [])) (map Some [[(3, 5); (100, 7)]])
      (Qz (2 ^ Z.of_nat 2), Qz (2 ^ Z.of_nat 4))
    = Ret scaled /\
    map length scaled = map length [[(3, 5); (100, 7)]] /\
    scaleContourDim (cv := cv2_finding ([], [])) (map Some scaled)
      (binary64 (1 / Qz (2 ^ Z.of_nat 2)), binary64 (1 / Qz (2 ^ Z.of_nat 4)))
    = Ret [[(3, 5); (100, 7)]].
Proof.
  apply (scaleContourDim_round_trip (cv := cv2_finding ([], [])) 2 4
           [[(3, 5); (100, 7)]]).
  repeat constructor; simpl; lia.
Defined.

(** With a downsample of 3/2 the way back loses a pixel: [1] becomes
    [int(1.5) = 1] and then [int(1 * (1 / 1.5)) = 0]. *)
Example scaleContourDim_fractional_scale :
  scaleContourDim (cv := cv2_finding ([], [])) [Some [(1, 1)]] (3 # 2, 3 # 2)%Q
  = Ret [[(1, 1)]] /\
  scaleContourDim (cv := cv2_finding ([], [])) [Some [(1, 1)]]
    (binary64 (1 / (3 # 2)), binary64 (1 / (3 # 2)))
  = Ret [[(0, 0)]].
Proof. split; reflexivity. Qed.

(** A coordinate that leaves [int32] when scaled takes the value of the
    platform's cast and does not come back. *)
Example scaleContourDim_overflow :
  scaleContourDim (cv := cv2_finding ([], [])) [Some [(2 ^ 30, 0)]] (Qz 4, Qz 4)
  = Ret [[(- 2 ^ 31, 0)]].
Proof. reflexivity. Qed.

(** ** One list of holes per contour *)

Lemma run_map_prog_Forall2 {A B} (R : A -> B -> Prop) (f : A -> prog B) l s ys s' :
  (forall a s1 b s2, In a l -> run s1 (f a) = (Ok b, s2) -> R a b) ->
  run s (map_prog f l) = (Ok ys, s') -> Forall2 R l ys.
Proof.
  revert s ys. induction l as [|a l IH]; intros s ys HR Hrun.
  - cbn [map_prog run] in Hrun. injection Hrun as <- <-. constructor.
  - cbn [map_prog] in Hrun.
    apply run_bind_Ok in Hrun as (b & s1 & Hb & Hrun).
    apply run_bind_Ok in Hrun as (bs & s2 & Hbs & Hrun).
    cbn [run] in Hrun. injection Hrun as <- <-.
    constructor.
    + apply (HR a s b s1); [by left | done].
    + apply (IH s1 bs); [|done]. intros a' u b' u' Hin. apply HR. by right.
Qed.

Lemma run_map_prog_length {A B} (f : A -> prog B) l s ys s' :
  run s (map_prog f l) = (Ok ys, s') -> length ys = length l.
Proof.
  intros H. symmetry.
  apply (Forall2_length (fun _ _ => True)).
  by apply (run_map_prog_Forall2 (fun _ _ => True)) in H.
Qed.

Section Detected.
Context {cv : Cv2}.

Lemma run_select_foreground_length contours parents fp todo filtered all_holes
    s filtered' all_holes' s' :
  run s (select_foreground contours parents fp todo filtered all_holes)
  = (Ok (filtered', all_holes'), s') ->
  length filtered = length all_holes ->
  length filtered' = length all_holes'.
Proof.
  revert filtered all_holes s.
  induction todo as [|cont_idx todo IH]; intros filtered all_holes s Hrun Hlen.
  - cbn [select_foreground run] in Hrun. by injection Hrun as <- <- <-.
  - cbn [select_foreground] in Hrun.
    apply run_bind_Ok in Hrun as (cont & s1 & _ & Hrun).
    apply run_bind_Ok in Hrun as (a & s2 & _ & Hrun).
    destruct (Qeq_bool a 0); [by apply (IH _ _ _ Hrun)|].
    destruct (Qlt_bool (Qz (a_t fp)) a); [|by apply (IH _ _ _ Hrun)].
    apply (IH _ _ _ Hrun). rewrite !length_app. simpl. lia.
Qed.

Lemma py_take_length {A} (m : Z) (l : list A) :
  0 <= m -> (Z.of_nat (length (py_take m l)) <= m)%Z.
Proof.
  intros Hm. unfold py_take.
  destruct (Z.leb_spec 0 m); [|lia]. rewrite length_take. lia.
Qed.

Lemma filter_length_le {A} (f : A -> bool) (l : list A) :
  (length (List.filter f l) <= length l)%nat.
Proof.
  induction l as [|a l IH]; [done|]. simpl. destruct (f a); simpl; lia.
Qed.

Lemma run_select_holes_length contours fp hole_ids s holes s' :
  0 <= max_n_holes fp ->
  run s (select_holes contours fp hole_ids) = (Ok holes, s') ->
  Z.of_nat (length holes) <= max_n_holes fp.
Proof.
  intros Hm Hrun. unfold select_holes in Hrun.
  apply run_bind_Ok in Hrun as (unfiltered & s1 & _ & Hrun).
  cbn [run] in Hrun. injection Hrun as <- <-.
  pose proof (filter_length_le
                (fun hole => Qlt_bool (Qz (a_h fp)) (contourArea hole))
                (py_take (max_n_holes fp) (sorted_desc contourArea unfiltered))).
  pose proof (py_take_length (max_n_holes fp) (sorted_desc contourArea unfiltered) Hm).
  lia.
Qed.

Lemma run_filter_contours_shape contours hierarchy fp s foreground hole_contours s' :
  run s (filter_contours contours hierarchy fp) = (Ok (foreground, hole_contours), s') ->
  length hole_contours = length foreground /\
  (0 <= max_n_holes fp ->
   Forall (fun holes => Z.of_nat (length holes) <= max_n_holes fp) hole_contours).
Proof.
  intros Hrun. unfold filter_contours in Hrun.
  apply run_bind_Ok in Hrun as ([filtered all_holes] & s1 & Hsel & Hrun).
  apply run_bind_Ok in Hrun as (fg & s2 & Hfg & Hrun).
  apply run_bind_Ok in Hrun as (hcs & s3 & Hhcs & Hrun).
  cbn [run] in Hrun. injection Hrun as <- <- <-.
  split.
  - apply run_map_prog_length in Hfg. rewrite Hfg.
    pose proof (run_map_prog_length _ _ _ _ _ Hhcs) as ->.
    symmetry. by apply (run_select_foreground_length _ _ _ _ _ _ _ _ _ _ Hsel).
  - intros Hm.
    apply (run_map_prog_Forall2
             (fun _ holes => Z.of_nat (length holes) <= max_n_holes fp)) in Hhcs.
    + clear -Hhcs. induction Hhcs; by constructor.
    + intros ids u holes u' _ H. by apply (run_select_holes_length _ _ _ _ _ _ Hm H).
Qed.

Lemma run_scaled_filter_params_Ok sl spacing_level fp s fp' s' :
  run s (scaled_filter_params sl spacing_level fp) = (Ok fp', s') ->
  max_n_holes fp' = max_n_holes fp /\ ref_tile_size fp' = ref_tile_size fp.
Proof.
  intros Hrun. unfold scaled_filter_params in Hrun.
  apply run_bind_Ok in Hrun as (cs & s1 & _ & Hrun).
  apply run_bind_Ok in Hrun as (ts & s2 & _ & Hrun).
  apply run_bind_Ok in Hrun as (sc0 & s3 & _ & Hrun).
  apply run_bind_Ok in Hrun as (sc1 & s4 & _ & Hrun).
  apply run_bind_Ok in Hrun as (ratio & s5 & _ & Hrun).
  cbn [run] in Hrun. by injection Hrun as <- <-.
Qed.

(** What [detect_contours] hands on: one list of holes for each contour,
    each with at most [max_n_holes] holes. *)
Lemma run_detect_contours_shape sl target tol fp s contours holes s' :
  run s (detect_contours sl target tol fp) = (Ok (contours, holes), s') ->
  length holes = length contours /\
  (0 <= max_n_holes fp ->
   Forall (fun hs => Z.of_nat (length hs) <= max_n_holes fp) holes).
Proof.
  intros Hrun. unfold detect_contours in Hrun.
  apply run_bind_Ok in Hrun as ([spacing_level within] & s1 & _ & Hrun).
  apply run_bind_Ok in Hrun as (fp' & s2 & Hfp & Hrun).
  apply run_scaled_filter_params_Ok in Hfp as [Hmax _].
  apply run_bind_Ok in Hrun as (target_scale & s3 & _ & Hrun).
  destruct (findContours (binary_mask sl)) as [found hierarchy].
  apply run_bind_Ok in Hrun as (rows & s3' & _ & Hrun).
  apply run_bind_Ok in Hrun as ([fg hcs] & s4 & Hfilter & Hrun).
  apply run_filter_contours_shape in Hfilter as [Hlen Hbound].
  apply run_bind_Ok in Hrun as (cs & s5 & Hcs & Hrun).
  apply run_bind_Ok in Hrun as (hs & s6 & Hhs & Hrun).
  cbn [run] in Hrun. injection Hrun as <- <- <-.
  split.
  - apply run_map_prog_length in Hcs. rewrite length_map in Hcs.
    apply run_map_prog_length in Hhs. lia.
  - intros Hm. rewrite Hmax in Hbound. specialize (Hbound Hm).
    apply (run_map_prog_Forall2
             (fun unscaled scaled : list contour => length scaled = length unscaled))
      in Hhs.
    + clear -Hhs Hbound. induction Hhs as [|u v us vs Huv _ IH]; [constructor|].
      apply Forall_cons in Hbound as [Hu Hus].
      constructor; [by rewrite Huv | by apply IH].
    + intros unscaled u scaled u' _ H. by apply run_map_prog_length in H.
Qed.

End Detected.

(** X11: [detect_contours] returns exactly one list of holes for each
    contour it returns, so that [holes[i]] exists for every contour [i]
    that [process_contours] works on. *)
Theorem detect_contours_pairs_holes {cv : Cv2} sl target tol fp s contours holes s' :
  run s (detect_contours sl target tol fp) = (Ok (contours, holes), s') ->
  length holes = length contours /\
  forall (i : nat) cont, contours !! i = Some cont ->
    exists contour_holes, index holes (Z.of_nat i) = Ret contour_holes.
Proof.
  intros Hrun. apply run_detect_contours_shape in Hrun as [Hlen _].
  split; [done|]. intros i cont Hi.
  assert (Hh : is_Some (holes !! i)).
  { apply lookup_lt_is_Some. rewrite Hlen. by eapply lookup_lt_Some. }
  destruct Hh as [hs Hhs]. exists hs.
  unfold index. by rewrite py_index_nat, Hhs.
Qed.

Lemma detect_contours_pairs_holes_witness :
  length [[]; []] (A := list contour)
  = length [[(0, 0); (96, 0); (96, 32); (0, 32)];
            [(320, 320); (448, 320); (448, 384); (320, 384)]] /\
  forall (i : nat) cont,
    [[(0, 0); (96, 0); (96, 32); (0, 32)];
     [(320, 320); (448, 320); (448, 384); (320, 384)]] !! i = Some cont ->
    exists contour_holes : list contour,
      index [[]; []] (Z.of_nat i) = Ret contour_holes.
Proof.
  apply (detect_contours_pairs_holes (cv := cv2_finding two_blobs)
           slide_1_4_32 1 0 filter_2_10 initial_state _ _
           (snd (run initial_state
                   (detect_contours (cv := cv2_finding two_blobs)
                      slide_1_4_32 1 0 filter_2_10)))).
  reflexivity.
Defined.

(** X12: with [max_n_holes >= 0], no contour returned by
    [detect_contours] comes with more than [max_n_holes] holes. *)
Theorem detect_contours_bounds_holes {cv : Cv2} sl target tol fp s contours holes s' :
  0 <= max_n_holes fp ->
  run s (detect_contours sl target tol fp) = (Ok (contours, holes), s') ->
  Forall (fun contour_holes => Z.of_nat (length contour_holes) <= max_n_holes fp) holes.
Proof.
  intros Hm Hrun. apply run_detect_contours_shape in Hrun as [_ Hbound]. by apply Hbound.
Qed.

Lemma detect_contours_bounds_holes_witness :
  Forall (fun contour_holes : list contour =>
            Z.of_nat (length contour_holes) <= 1)
         [[[(160, 160); (256, 160); (256, 256); (160, 256)]]].
Proof.
  apply (detect_contours_bounds_holes (cv := cv2_finding blob_with_holes_found)
           slide_1_4_32 1 0 filter_one_hole initial_state
           [[(0, 0); (640, 0); (640, 640); (0, 640)]] _
           (snd (run initial_state
                   (detect_contours (cv := cv2_finding blob_with_holes_found)
                      slide_1_4_32 1 0 filter_one_hole)))).
  - simpl. lia.
  - reflexivity.
Defined.

(** ** Tiles in holes *)




(** With a checker that keeps no candidate the same call returns, without
    a tile. *)
Example dropped_holes_without_candidate :
  fst (run initial_state
         (process_contour (cv := cv2_finding ([], [])) (tc := keep_no_tile)
            slide_1_4_16 (Some square_blob) [square_hole] tiling_16_dropping_holes))
  = Ok no_tiles.
Proof. reflexivity. Qed.

(** ** The shape of what [get_tile_coordinates] returns *)

Lemma merged_onto_well_formed acc rs :
  well_formed_tiles acc ->
  Forall (fun r => well_formed_tiles r /\ x_coords r <> []) rs ->
  well_formed_tiles (merged_onto acc rs).
Proof.
  intros Hacc Hrs. revert acc Hacc.
  induction Hrs as [|r rs [Hr Hx] _ IH]; intros acc Hacc; [done|].
  cbn [merged_onto fold_left]. apply IH.
  destruct Hacc as (Ha1 & Ha2 & _ & _), Hr as (Hr1 & Hr2 & _ & Hr4).
  unfold well_formed_tiles. cbn [x_coords y_coords tissue_pct tile_level resize_factor].
  rewrite !length_app. split; [lia|]. split; [lia|]. split.
  - intros Hnil. apply app_eq_nil in Hnil as [_ Hnil]. done.
  - intros _. by apply Hr4.
Qed.

Lemma producing_well_formed results :
  Forall well_formed_tiles results ->
  Forall (fun r => well_formed_tiles r /\ x_coords r <> []) (producing results).
Proof.
  intros Hall. apply List.Forall_forall. intros r Hin.
  apply filter_In in Hin as [Hin Hpos].
  rewrite List.Forall_forall in Hall. split; [by apply Hall|].
  intros Hnil. by rewrite Hnil in Hpos.
Qed.

Section Request.
Context {cv : Cv2} {tc : TissueChecker}.

(** What a successful [get_tile_coordinates] went through. *)
Lemma run_get_tile_coordinates_Ok sl tp fp num_workers s out s' :
  run s (get_tile_coordinates sl tp fp num_workers) = (Ok out, s') ->
  exists t0 s1 contours holes s2 results merged,
    run s (tile_size_lv0_of sl tp) = (Ok t0, s1) /\
    run s1 (detect_contours sl (spacing tp) (tolerance tp) fp)
    = (Ok (contours, holes), s2) /\
    0 < num_workers /\
    run s2 (map_prog (fun task => task) (contour_tasks sl contours holes tp))
    = (Ok results, s') /\
    merge_results results no_tiles = Ret merged /\
    merged = merged_onto no_tiles (producing results) /\
    out = finish_tile_coordinates t0 merged.
Proof.
  intros H. unfold get_tile_coordinates in H.
  apply run_bind_Ok in H as (t0 & s1 & Ht0 & H).
  apply run_bind_Ok in H as ([contours holes] & s2 & Hdet & H).
  apply run_bind_Ok in H as (merged & s3 & Hpc & H).
  cbn [run] in H. injection H as <- <-.
  unfold process_contours in Hpc.
  destruct (Z.leb_spec num_workers 0) as [|Hn]; [discriminate Hpc|].
  apply run_bind_Ok in Hpc as (results & s4 & Hres & Hm).
  destruct (merge_results_pure results no_tiles) as [[merged' Em]|Em];
    rewrite Em in Hm; cbn [run] in Hm; [|discriminate Hm].
  injection Hm as <- <-.
  exists t0, s1, contours, holes, s2, results, merged'.
  split_and!; try done. by apply merge_results_Ret.
Qed.

Lemma run_tile_size_lv0_of_Ok sl tp s t0 s1 :
  cache_ok sl s ->
  run s (tile_size_lv0_of sl tp) = (Ok t0, s1) ->
  exists spacing_0,
    spacings sl !! 0%nat = Some spacing_0 /\ ~ (spacing_0 == 0)%Q /\
    t0 = py_int (fmul (py_float (tile_size tp)) (binary64 (spacing tp / spacing_0))).
Proof.
  intros Hc H. unfold tile_size_lv0_of in H.
  apply run_bind_Ok in H as (spacing_0 & sA & H0 & H).
  apply run_get_level_spacing_Ok in H0 as [H0 _]; [|done].
  apply run_bind_Ok in H as (scale & sB & Hscale & H).
  apply run_py_div_Ok in Hscale as (-> & Hnz & ->).
  cbn [run] in H. injection H as <- <-.
  exists spacing_0. split_and!; try done.
Qed.

End Request.

(** ** A request that yields no tile *)

(** [detect_contours] returns only when [findContours] gave a
    hierarchy. *)
Lemma run_detect_contours_hierarchy {cv : Cv2} sl target tol fp s r s' :
  run s (detect_contours sl target tol fp) = (Ok r, s') ->
  is_Some (snd (findContours (binary_mask sl))).
Proof.
  intros Hrun. unfold detect_contours in Hrun.
  apply run_bind_Ok in Hrun as ([spacing_level within] & s1 & _ & Hrun).
  apply run_bind_Ok in Hrun as (fp' & s2 & _ & Hrun).
  apply run_bind_Ok in Hrun as (target_scale & s3 & _ & Hrun).
  destruct (findContours (binary_mask sl)) as [found [hierarchy|]]; [by eexists|].
  by apply run_bind_Ok in Hrun as (rows & s4 & Hrows & _).
Qed.

(** C10 (as amended): when [findContours] gave a hierarchy and every
    retained contour yields zero tiles (also when contours are found and
    none is retained), [get_tile_coordinates] returns empty coordinate
    and tissue-percentage lists with [tile_level = None] and
    [resize_factor = None], and [tile_size_lv0] is the float product
    [int(tile_size * (spacing / spacingOf(0)))], the quotient rounded
    first, whatever level was resolved. When [findContours] gives no
    hierarchy, as on a mask without any contour, the request returns no
    result. *)
Theorem no_tile_is_not_an_error {cv : Cv2} {tc : TissueChecker}
    sl tp fp num_workers s spacing_0 :
  cache_ok sl s ->
  0 < num_workers ->
  spacings sl !! 0%nat = Some spacing_0 ->
  ~ (spacing_0 == 0)%Q ->
  (forall contours holes s2 results s3,
     run (snd (run s (tile_size_lv0_of sl tp)))
         (detect_contours sl (spacing tp) (tolerance tp) fp)
     = (Ok (contours, holes), s2) ->
     run s2 (map_prog (fun task => task) (contour_tasks sl contours holes tp))
     = (Ok results, s3) ->
     Forall (fun r => x_coords r = []) results ->
     run s (get_tile_coordinates sl tp fp num_workers)
     = (Ok ([], [], None, None,
            py_int (fmul (py_float (tile_size tp)) (binary64 (spacing tp / spacing_0)))),
        s3)) /\
  (snd (findContours (binary_mask sl)) = None ->
   forall out, fst (run s (get_tile_coordinates sl tp fp num_workers)) <> Ok out).
Proof.
  intros Hc Hn H0 Hs0. split.
  - intros contours holes s2 results s3 Hdetect Htasks Hempty.
    assert (Hlv0 : exists s1,
               run s (tile_size_lv0_of sl tp)
               = (Ok (py_int (fmul (py_float (tile_size tp))
                                   (binary64 (spacing tp / spacing_0)))), s1)).
    { unfold tile_size_lv0_of.
      pose proof (run_get_level_spacing sl s 0 Hc) as H1.
      change 0 with (Z.of_nat 0) in H1. rewrite py_index_nat, H0 in H1.
      destruct H1 as (s1 & H1 & _). change (Z.of_nat 0) with 0 in H1.
      exists s1. rewrite run_bind, H1, run_bind. unfold py_div.
      by rewrite (Qeq_bool_false _ _ Hs0). }
    destruct Hlv0 as (s1 & Hlv0). rewrite Hlv0 in Hdetect. cbn [snd] in Hdetect.
    unfold get_tile_coordinates.
    rewrite run_bind, Hlv0, run_bind, Hdetect, run_bind.
    unfold process_contours. destruct (Z.leb_spec num_workers 0); [lia|].
    rewrite run_bind, Htasks, (merge_results_no_tiles _ _ Hempty).
    reflexivity.
  - intros Hnone out Hout.
    destruct (run s (get_tile_coordinates sl tp fp num_workers)) as [o s'] eqn:Hrun.
    cbn [fst] in Hout. subst o.
    destruct (run_get_tile_coordinates_Ok _ _ _ _ _ _ _ Hrun)
      as (t0 & s1 & contours & holes & s2 & results & merged & _ & Hdet & _).
    apply run_detect_contours_hierarchy in Hdet as [rows Hrows]. congruence.
Qed.

Lemma no_tile_is_not_an_error_witness :
  run initial_state
    (get_tile_coordinates (cv := cv2_finding blob_3) (tc := keep_no_tile)
       slide_1_4_32 tiling_16_at_1 filter_2_10 1)
  = (Ok ([], [], None, None, 64),
     snd (run initial_state
            (get_tile_coordinates (cv := cv2_finding blob_3) (tc := keep_no_tile)
               slide_1_4_32 tiling_16_at_1 filter_2_10 1))).
Proof.
  destruct (no_tile_is_not_an_error (cv := cv2_finding blob_3) (tc := keep_no_tile)
              slide_1_4_32 tiling_16_at_1 filter_2_10 1 initial_state (1 # 4))
    as [Hempty _].
  - apply cache_ok_initial.
  - lia.
  - reflexivity.
  - intros H; vm_compute in H; discriminate.
  - apply (Hempty [[(0, 0); (0, 32); (32, 32); (64, 32); (96, 32); (96, 0); (64, 0);
                     (32, 0)]]
                  [[]]
                  (snd (run (snd (run initial_state
                                    (tile_size_lv0_of slide_1_4_32 tiling_16_at_1)))
                            (detect_contours (cv := cv2_finding blob_3) slide_1_4_32
                               (spacing tiling_16_at_1) (tolerance tiling_16_at_1)
                               filter_2_10)))
                  [no_tiles]).
    + vm_compute. reflexivity.
    + vm_compute. reflexivity.
    + by repeat constructor.
Defined.

(** C10 as stated fails twice. On a mask in which [findContours] finds no
    contour the hierarchy is [None] and the request raises [AxisError]
    instead of returning the empty result. And [tile_size_lv0] is not
    [int(tile_size * spacing / spacingOf(0))]: with the floats 0.3 for the
    target and 0.1 for level 0 and tiles of 10 pixels, the request returns
    29, [int(10 * (0.3 / 0.1))], while [int(10 * 0.3 / 0.1)] is 30. *)
Lemma no_tile_request_raises_or_rounds :
  fst (run initial_state
         (get_tile_coordinates (cv := cv2_finding ([], [])) (tc := keep_every_tile)
            slide_1_4_32 tiling_16_at_1 filter_2_10 1))
  = Exc AxisError /\
  fst (run initial_state
         (get_tile_coordinates (cv := cv2_finding blob_3) (tc := keep_no_tile)
            slide_at_a_tenth tiling_10_at_three_tenths filter_2_10 1))
  = Ok ([], [], None, None, 29) /\
  py_int (binary64 (fmul (py_float 10) (binary64 (3 # 10)) / binary64 (1 # 10))) = 30.
Proof. split_and!; vm_compute; reflexivity. Qed.

(** Contours are found and none is retained: the request returns the
    empty result. *)
Example no_contour_retained :
  fst (run initial_state
         (get_tile_coordinates (cv := cv2_finding blob_3) (tc := keep_every_tile)
            slide_1_4_32 tiling_16_at_1 filter_100_10 1))
  = Ok ([], [], None, None, 64).
Proof. vm_compute. reflexivity. Qed.

(** X14: whatever [get_tile_coordinates] returns has one tissue
    percentage per coordinate; the tile level is [None] exactly when there
    is no coordinate, and the resize factor is [None] exactly when the
    tile level is; [tile_size_lv0] is
    [int(tile_size * (spacing / spacingOf(0)))] in floats, the quotient
    rounded before the product, whatever was found. *)
Theorem tiling_result_shape {cv : Cv2} {tc : TissueChecker}
    sl tp fp num_workers s coords pcts level factor t0 s' :
  run s (get_tile_coordinates sl tp fp num_workers)
  = (Ok (coords, pcts, level, factor, t0), s') ->
  length pcts = length coords /\
  (coords = [] <-> level = None) /\
  (level = None <-> factor = None) /\
  (cache_ok sl s ->
   exists spacing_0,
     spacings sl !! 0%nat = Some spacing_0 /\
     t0 = py_int (fmul (py_float (tile_size tp)) (binary64 (spacing tp / spacing_0)))).
Proof.
  intros H.
  destruct (run_get_tile_coordinates_Ok _ _ _ _ _ _ _ H)
    as (t0' & s1 & contours & holes & s2 & results & merged
        & Ht0 & _ & _ & Hres & _ & Hmerged & Hout).
  unfold finish_tile_coordinates in Hout. injection Hout as -> -> -> -> ->.
  assert (Hwf : well_formed_tiles merged).
  { subst merged. apply merged_onto_well_formed; [by split_and!|].
    apply producing_well_formed.
    apply (run_map_prog_Forall2 (fun _ r => well_formed_tiles r)) in Hres.
    - clear -Hres. induction Hres; by constructor.
    - intros task u r u' Hin Hrun.
      by apply (contour_task_well_formed _ _ _ _ _ _ _ _ Hin Hrun). }
  destruct Hwf as (Hy & Hp & Hnone & Hsome).
  assert (Hcoords : combine (x_coords merged) (y_coords merged) = []
                    <-> x_coords merged = []).
  { destruct (x_coords merged), (y_coords merged); simpl in *; try done. }
  split_and!.
  - rewrite length_combine. lia.
  - rewrite Hcoords. split; [by intros Hx; apply Hnone|].
    intros Hl. destruct (x_coords merged) as [|x xs] eqn:Ex; [done|].
    destruct Hsome as [[lv Hlv] _]; [done | congruence].
  - split.
    + intros Hl. destruct (x_coords merged) as [|x xs] eqn:Ex; [by apply Hnone|].
      destruct Hsome as [[lv Hlv] _]; [done | congruence].
    + intros Hf. destruct (x_coords merged) as [|x xs] eqn:Ex; [by apply Hnone|].
      destruct Hsome as [_ [f Hf']]; [done | congruence].
  - intros Hc.
    destruct (run_tile_size_lv0_of_Ok _ _ _ _ _ Hc Ht0) as (spacing_0 & H0 & _ & Ht).
    by exists spacing_0.
Qed.

Lemma tiling_result_shape_witness :
  length [1; 1; 1; 1; 1; 1; 1; 1]%Q
  = length [(0, 0); (64, 0); (320, 320); (320, 384); (384, 320); (384, 384);
            (448, 320); (448, 384)] /\
  ([(0, 0); (64, 0); (320, 320); (320, 384); (384, 320); (384, 384);
    (448, 320); (448, 384)] = [] <-> Some 1 = None) /\
  (Some 1 = None <-> Some 1%Q = None) /\
  (cache_ok slide_1_4_32 initial_state ->
   exists spacing_0,
     spacings slide_1_4_32 !! 0%nat = Some spacing_0 /\
     64 = py_int (fmul (py_float (tile_size tiling_16_at_1))
                         (binary64 (spacing tiling_16_at_1 / spacing_0)))).
Proof.
  apply (tiling_result_shape (cv := cv2_finding two_blobs) (tc := keep_every_tile)
           slide_1_4_32 tiling_16_at_1 filter_2_10 1 initial_state
           _ _ _ _ _
           (snd (run initial_state
                   (get_tile_coordinates (cv := cv2_finding two_blobs)
                      (tc := keep_every_tile)
                      slide_1_4_32 tiling_16_at_1 filter_2_10 1)))).
  vm_compute. reflexivity.
Defined.

(** ** The level and the resize factor of the tiles *)

Section TileLevel.
Context {cv : Cv2} {tc : TissueChecker}.

(** The level and the resize factor [scan_grid] settles on. *)
Lemma run_scan_grid_level sl cont tp s g s' :
  cache_ok sl s ->
  run s (scan_grid sl cont tp) = (Ok g, s') ->
  exists within s1 tile_spacing,
    run s (get_best_level_for_spacing sl (spacing tp) (tolerance tp) true)
    = (Ok (grid_tile_level g, within), s1) /\
    py_index (spacings sl) (grid_tile_level g) = Some tile_spacing /\
    grid_resize_factor g
    = (if within then 1%Q else binary64 (spacing tp / tile_spacing)).
Proof.
  intros Hc H. unfold scan_grid in H.
  apply run_bind_Ok in H as ([tile_level within] & sA & HA & H).
  assert (HcA : cache_ok sl sA).
  { pose proof (run_get_best_level_for_spacing_cache sl (spacing tp) (tolerance tp)
                  true s Hc) as Hc'. by rewrite HA in Hc'. }
  apply run_bind_Ok in H as (tile_spacing & sB & HB & H).
  apply (run_get_level_spacing_Ok _ _ _ _ _ HcA) in HB as [Hsp _].
  apply run_bind_Ok in H as (rf0 & sC & HC & H).
  apply run_py_div_Ok in HC as (-> & _ & ->).
  apply run_bind_Ok in H as ([[[x0 y0] w] h] & sD & _ & H).
  apply run_bind_Ok in H as (ds & sE & _ & H).
  apply run_bind_Ok in H as ([img_w img_h] & sF & _ & H).
  exists within, sA, tile_spacing.
  destruct (use_padding tp); cbn [run] in H; injection H as <- _; by split_and!.
Qed.

(** Each result of a run of tasks over a slide between calls was computed
    from a state between calls. *)
Lemma run_tasks_from_consistent {A} sl (ts : list (prog A)) s rs s' :
  consistent sl s ->
  Forall (fun t => settled sl ∅ t) ts ->
  run s (map_prog (fun task => task) ts) = (Ok rs, s') ->
  Forall2 (fun t r => exists u u', consistent sl u /\ run u t = (Ok r, u')) ts rs.
Proof.
  intros Hs Hall. revert s rs Hs.
  induction Hall as [|t ts Ht _ IH]; intros s rs Hs Hrun.
  - cbn [map_prog run] in Hrun. injection Hrun as <- <-. constructor.
  - cbn [map_prog] in Hrun.
    apply run_bind_Ok in Hrun as (r & s1 & Hr & Hrun).
    apply run_bind_Ok in Hrun as (rs' & s2 & Hrs & Hrun).
    cbn [run] in Hrun. injection Hrun as <- <-.
    destruct (settled_consistent sl t s _ _ Ht Hs Hr) as [Hs1 _].
    constructor; [by exists s, s1 | by apply (IH s1)].
Qed.

End TileLevel.

(** X15: when [get_tile_coordinates], called on a slide between calls,
    returns tiles, the tile level it reports is the level
    [get_best_level_for_spacing(spacing, tolerance)] gives, and the resize
    factor is [1] when that level is within the tolerance and the float
    [spacing / spacingOf(level)] otherwise. *)
Theorem tile_level_is_best_level {cv : Cv2} {tc : TissueChecker}
    sl tp fp num_workers s coords pcts level factor t0 s' :
  consistent sl s ->
  run s (get_tile_coordinates sl tp fp num_workers)
  = (Ok (coords, pcts, Some level, factor, t0), s') ->
  exists within level_spacing,
    fst (run s (get_best_level_for_spacing sl (spacing tp) (tolerance tp) true))
    = Ok (level, within) /\
    py_index (spacings sl) level = Some level_spacing /\
    factor = Some (if within then 1%Q else binary64 (spacing tp / level_spacing)).
Proof.
  intros Hs H.
  destruct (run_get_tile_coordinates_Ok _ _ _ _ _ _ _ H)
    as (t0' & s1 & contours & holes & s2 & results & merged
        & Ht0 & Hdet & _ & Hres & _ & Hmerged & Hout).
  unfold finish_tile_coordinates in Hout. injection Hout as _ _ Hlevel Hfactor _.
  destruct (settled_consistent sl _ s _ _ (settled_tile_size_lv0_of sl ∅ tp) Hs Ht0)
    as [Hs1 _].
  destruct (settled_consistent sl _ s1 _ _
              (settled_detect_contours sl ∅ _ _ fp) Hs1 Hdet) as [Hs2 _].
  destruct (merged_onto_last no_tiles (producing results)) as (Hl & Hf & _).
  rewrite <- Hmerged in Hl, Hf.
  remember (List.last (producing results) no_tiles) as r eqn:Er.
  assert (Hin : In r (producing results)).
  { destruct (producing results) as [|r0 rs] eqn:E.
    - subst r. simpl in Hl. congruence.
    - subst r. apply last_cons_In. }
  clear Er.
  apply filter_In in Hin as [Hin Hpos].
  assert (Htasks := run_tasks_from_consistent sl _ s2 results s' Hs2
                      ltac:(eapply Forall_impl;
                            [apply settled_contour_tasks | intros t Ht; apply Ht])
                      Hres).
  apply list_elem_of_In, list_elem_of_lookup in Hin as [i Hi].
  destruct (Forall2_lookup_r _ _ _ i r Htasks Hi) as (task & Htask & u & u' & Hu & Hrun).
  apply list_elem_of_lookup_2, list_elem_of_In in Htask.
  unfold contour_tasks in Htask.
  apply in_map_iff in Htask as (k & <- & _).
  apply run_bind_Ok in Hrun as (cont & uA & HA & Hrun).
  apply run_index_Ok in HA as [-> _].
  apply run_bind_Ok in Hrun as (contour_holes & uB & HB & Hrun).
  apply run_index_Ok in HB as [-> _].
  destruct (run_process_contour_Ok _ _ _ _ _ _ _ Hrun)
    as (g & c & scale & cont' & x_range & y_range & checked & tissue_pcts
        & Hg & _ & _ & _ & _ & _ & _ & _ & _ & _ & _ & Hr).
  cbv zeta in Hr.
  assert (Hr' : tile_level r = Some (grid_tile_level g) /\
                resize_factor r = Some (grid_resize_factor g)).
  { destruct (0 <? _) eqn:E in Hr; subst r; [done|]. by simpl in Hpos. }
  destruct Hr' as [Hrl Hrf].
  destruct (run_scan_grid_level sl _ tp u g u' (proj1 Hu) Hg)
    as (within & uC & tile_spacing & Hbest & Hsp & Hfac).
  assert (Hlv : grid_tile_level g = level) by congruence.
  exists within, tile_spacing. split_and!.
  - rewrite (run_state_independent sl _ s u
               (settled_get_best_level_for_spacing sl _ _ _ ∅) Hs Hu).
    rewrite Hbest. simpl. by rewrite Hlv.
  - by rewrite <- Hlv.
  - rewrite <- Hfac. congruence.
Qed.

Lemma tile_level_is_best_level_witness :
  exists within level_spacing,
    fst (run initial_state
           (get_best_level_for_spacing slide_1_4_32
              (spacing tiling_16_at_1) (tolerance tiling_16_at_1) true))
    = Ok (1, within) /\
    py_index (spacings slide_1_4_32) 1 = Some level_spacing /\
    Some 1%Q = Some (if within then 1%Q
                     else binary64 (spacing tiling_16_at_1 / level_spacing)).
Proof.
  apply (tile_level_is_best_level (cv := cv2_finding two_blobs) (tc := keep_every_tile)
           slide_1_4_32 tiling_16_at_1 filter_2_10 1 initial_state
           [(0, 0); (64, 0); (320, 320); (320, 384); (384, 320); (384, 384);
            (448, 320); (448, 384)]
           [1; 1; 1; 1; 1; 1; 1; 1]%Q 1 (Some 1%Q) 64
           (snd (run initial_state
                   (get_tile_coordinates (cv := cv2_finding two_blobs)
                      (tc := keep_every_tile)
                      slide_1_4_32 tiling_16_at_1 filter_2_10 1)))).
  - apply consistent_initial.
  - vm_compute. reflexivity.
Defined.

(** ** Where the tiles of a contour lie *)

(** X16: every tile [process_contour] returns for a contour starts on the
    grid anchored at the corner of the bounding rectangle of the contour,
    [x = x0 + i * step_x] and [y = y0 + j * step_y]; for positive steps it
    starts inside that rectangle, [x0 <= x < x0 + w] and
    [y0 <= y < y0 + h], with and without padding. *)
Theorem tiles_start_in_bounding_rect {cv : Cv2} {tc : TissueChecker}
    sl cont holes tp s r s' :
  cache_ok sl s ->
  run s (process_contour sl (Some cont) holes tp) = (Ok r, s') ->
  exists g,
    run s (scan_grid sl (Some cont) tp) = (Ok g, s') /\
    let '(x0, y0, w, h) := boundingRect cont in
    let '(step_x, step_y) := grid_ref_step_size g in
    forall x y, In (x, y) (combine (x_coords r) (y_coords r)) ->
      (exists i j : nat, x = x0 + Z.of_nat i * step_x /\ y = y0 + Z.of_nat j * step_y) /\
      (0 < step_x -> x0 <= x < x0 + w) /\
      (0 < step_y -> y0 <= y < y0 + h).
Proof.
  intros Hc H.
  destruct (run_process_contour_Ok _ _ _ _ _ _ _ H)
    as (g & c & scale & cont' & x_range & y_range & checked & tissue_pcts
        & Hg & _ & _ & _ & Hxr & Hyr & _ & _ & _ & _ & _ & Hr).
  exists g. split; [done|].
  destruct (run_scan_grid_Some sl cont tp s g s' Hc Hg)
    as (tile_level & within & tile_spacing & ds & img_w & img_h & _ & _ & _ & Hgrid).
  cbv zeta in Hgrid.
  destruct (boundingRect cont) as [[[x0 y0] w] h].
  destruct (grid_ref_step_size g) as [step_x step_y] eqn:Estep.
  intros x y Hin.
  assert (Hcand : In x x_range /\ In y y_range).
  { cbv zeta in Hr. subst r.
    destruct (0 <? _); cbn [x_coords y_coords no_tiles] in Hin; [|done].
    rewrite combine_fst_snd in Hin. apply in_selected in Hin.
    by apply in_meshgrid_ij. }
  destruct Hcand as [Hx Hy].
  assert (Hstart : grid_start g = (x0, y0)) by by rewrite Hgrid.
  assert (Hstop : fst (grid_stop g) <= x0 + w /\ snd (grid_stop g) <= y0 + h).
  { rewrite Hgrid. cbn [grid_stop]. destruct (use_padding tp); cbn [fst snd]; lia. }
  rewrite Hstart in Hxr, Hyr. cbn [fst snd] in Hxr, Hyr.
  destruct (np_arange_on_grid _ _ _ _ _ Hxr Hx) as [[i Hi] Hbx].
  destruct (np_arange_on_grid _ _ _ _ _ Hyr Hy) as [[j Hj] Hby].
  split; [by exists i, j|]. split.
  - intros Hpos. specialize (Hbx Hpos). lia.
  - intros Hpos. specialize (Hby Hpos). lia.
Qed.

Lemma tiles_start_in_bounding_rect_witness :
  exists g,
    run initial_state
        (scan_grid (cv := cv2_finding ([], []))
           slide_1_4_16 (Some square_blob) tiling_16_keeping_holes)
    = (Ok g,
       snd (run initial_state
              (process_contour (cv := cv2_finding ([], [])) (tc := keep_every_tile)
                 slide_1_4_16 (Some square_blob) [square_hole]
                 tiling_16_keeping_holes))) /\
    let '(x0, y0, w, h) := boundingRect (Cv2 := cv2_finding ([], [])) square_blob in
    let '(step_x, step_y) := grid_ref_step_size g in
    forall x y,
      In (x, y) (combine (x_coords tiles_of_square_blob) (y_coords tiles_of_square_blob)) ->
      (exists i j : nat, x = x0 + Z.of_nat i * step_x /\ y = y0 + Z.of_nat j * step_y) /\
      (0 < step_x -> x0 <= x < x0 + w) /\
      (0 < step_y -> y0 <= y < y0 + h).
Proof.
  apply (tiles_start_in_bounding_rect (cv := cv2_finding ([], [])) (tc := keep_every_tile)
           slide_1_4_16 square_blob [square_hole] tiling_16_keeping_holes
           initial_state tiles_of_square_blob).
  - apply cache_ok_initial.
  - reflexivity.
Defined.

(** ** Requests without a step *)

Lemma py_int_zero q : (q == 0)%Q -> py_int q = 0.
Proof. intros H. by rewrite (py_int_Qeq q 0 H). Qed.

(** X17: with an overlap of 1 or a tile size of 0 the step of the grid is
    zero, and [process_contour], called on a slide between calls, never
    returns tiles: it ends with an exception. *)
Theorem process_contour_without_step {cv : Cv2} {tc : TissueChecker}
    sl cont holes tp s :
  (overlap tp == 1)%Q \/ tile_size tp = 0 ->
  consistent sl s ->
  exists e, fst (run s (process_contour sl cont holes tp)) = Exc e.
Proof.
  intros Hzero Hs.
  destruct (settled_process_contour sl ∅ cont holes tp) as [r Hr].
  destruct (consistent_run sl _ r s Hr Hs) as (s' & Hrun & _ & Hnb).
  rewrite Hrun. cbn [fst].
  destruct r as [t|e|]; [exfalso | by exists e | done].
  destruct (run_process_contour_Ok _ _ _ _ _ _ _ Hrun)
    as (g & c & scale & cont' & x_range & y_range & checked & tissue_pcts
        & Hg & -> & _ & _ & _ & _ & Hsx & _).
  destruct (run_scan_grid_Some sl c tp s g s' (proj1 Hs) Hg)
    as (tile_level & within & tile_spacing & ds & img_w & img_h & _ & _ & _ & Hgrid).
  cbv zeta in Hgrid.
  destruct (boundingRect c) as [[[x0 y0] w] h].
  apply Hsx. rewrite Hgrid. cbn [grid_ref_step_size fst].
  apply Z.mul_eq_0. left. apply py_int_zero.
  destruct Hzero as [Hov | Hts].
  - unfold fmul, fsub. rewrite (binary64_0 (1 - overlap tp)) by (rewrite Hov; ring).
    rewrite binary64_0; [reflexivity | ring].
  - rewrite Hts.
    assert (H0 : forall q, fmul (py_float 0) q = 0%Q).
    { intros q. unfold fmul, py_float. rewrite (binary64_0 (Qz 0)) by reflexivity.
      apply binary64_0. ring. }
    by rewrite !H0.
Qed.

Lemma process_contour_without_step_witness :
  exists e,
    fst (run initial_state
           (process_contour (cv := cv2_finding ([], [])) (tc := keep_every_tile)
              slide_1_4_16 (Some square_blob) []
              {| spacing := 1 # 4; tolerance := 0; tile_size := 16; overlap := 1;
                 drop_holes := false; min_tissue_ratio := 1 # 4;
                 use_padding := true |}))
    = Exc e.
Proof.
  apply (process_contour_without_step (cv := cv2_finding ([], [])) (tc := keep_every_tile)
           slide_1_4_16 (Some square_blob) []
           {| spacing := 1 # 4; tolerance := 0; tile_size := 16; overlap := 1;
              drop_holes := false; min_tissue_ratio := 1 # 4; use_padding := true |}
           initial_state).
  - left. reflexivity.
  - apply consistent_initial.
Defined.

(** With an overlap of 1 the exception is the [ZeroDivisionError] of
    [np.arange] with a step of zero. *)
Example process_contour_with_full_overlap :
  fst (run initial_state
         (process_contour (cv := cv2_finding ([], [])) (tc := keep_every_tile)
            slide_1_4_16 (Some square_blob) []
            {| spacing := 1 # 4; tolerance := 0; tile_size := 16; overlap := 1;
               drop_holes := false; min_tissue_ratio := 1 # 4;
               use_padding := true |}))
  = Exc ZeroDivisionError.
Proof. reflexivity. Qed.

(** ** A request leaves the slide between calls *)

(** X18: however [get_tile_coordinates] ends on a slide between calls,
    with a result or with an exception, it never waits for
    [_warning_lock], and it leaves the slide between calls: the lock is
    free, every memoized spacing is the spacing of its level, and
    [_printed_warning] is set if the diagnostic was printed. *)
Theorem get_tile_coordinates_keeps_consistent {cv : Cv2} {tc : TissueChecker}
    sl tp fp num_workers s out s' :
  consistent sl s ->
  run s (get_tile_coordinates sl tp fp num_workers) = (out, s') ->
  out <> Blocked /\ consistent sl s'.
Proof.
  intros Hs Hrun.
  destruct (settled_consistent sl _ s out s'
              (settled_get_tile_coordinates sl ∅ tp fp num_workers) Hs Hrun)
    as [Hs' Hnb].
  by split.
Qed.

Lemma get_tile_coordinates_keeps_consistent_witness :
  fst (run initial_state
         (get_tile_coordinates (cv := cv2_finding two_blobs) (tc := keep_every_tile)
            slide_1_4_32 tiling_16_at_1 filter_2_10 1)) <> Blocked /\
  consistent slide_1_4_32
    (snd (run initial_state
            (get_tile_coordinates (cv := cv2_finding two_blobs) (tc := keep_every_tile)
               slide_1_4_32 tiling_16_at_1 filter_2_10 1))).
Proof.
  apply (get_tile_coordinates_keeps_consistent (cv := cv2_finding two_blobs)
           (tc := keep_every_tile) slide_1_4_32 tiling_16_at_1 filter_2_10 1
           initial_state).
  - apply consistent_initial.
  - apply surjective_pairing.
Defined.

(** ** The levels of a segmentation *)

Lemma run_walk_to_finer_mask m seg_spacing (mask_level : nat) mask_spacing s
    (mask_level' : nat) mask_spacing' scale' s' :
  mask_spacings m !! mask_level = Some mask_spacing ->
  ~ (mask_spacing == 0)%Q ->
  run s (walk_to_finer_mask m seg_spacing mask_level mask_spacing
           (binary64 (seg_spacing / mask_spacing)))
  = (Ok (mask_level', mask_spacing', scale'), s') ->
  s' = s /\ (mask_level' <= mask_level)%nat /\
  mask_spacings m !! mask_level' = Some mask_spacing' /\
  ~ (mask_spacing' == 0)%Q /\
  scale' = binary64 (seg_spacing / mask_spacing') /\
  (mask_level' = 0%nat \/ (1 <= scale')%Q) /\
  (forall (i : nat) v, (mask_level' < i <= mask_level)%nat ->
     mask_spacings m !! i = Some v -> (binary64 (seg_spacing / v) < 1)%Q).
Proof.
  revert mask_spacing. induction mask_level as [|level IH];
    intros mask_spacing Hms Hnz Hrun.
  - cbn [walk_to_finer_mask run] in Hrun. injection Hrun as <- <- <- <-.
    split_and!; try done; [by left | intros i v Hi; lia].
  - cbn [walk_to_finer_mask] in Hrun.
    destruct (Qlt_bool (binary64 (seg_spacing / mask_spacing)) 1) eqn:Hlt.
    + apply Qlt_bool_iff in Hlt.
      apply run_bind_Ok in Hrun as (ms1 & s1 & H1 & Hrun).
      apply run_index_Ok in H1 as [-> H1]. rewrite py_index_nat in H1.
      apply run_bind_Ok in Hrun as (sc1 & s2 & H2 & Hrun).
      apply run_py_div_Ok in H2 as (-> & Hnz1 & ->).
      destruct (IH ms1 H1 Hnz1 Hrun) as (-> & Hle & Hms' & Hnz' & Hsc & Hend & Hpassed).
      split_and!; try done; [lia|].
      intros i v Hi Hv. destruct (decide (i = S level)) as [-> | Hne].
      * rewrite Hms in Hv. by injection Hv as <-.
      * apply (Hpassed i v); [lia | done].
    + apply Qlt_bool_false in Hlt.
      cbn [run] in Hrun. injection Hrun as <- <- <- <-.
      split_and!; try done; [by right | intros i v Hi; lia].
Qed.

Lemma load_segmentation_levels_levels sl m downsample s c s' :
  cache_ok sl s ->
  run s (load_segmentation_levels sl m downsample) = (Ok c, s') ->
  get_best_level_for_downsample_custom sl downsample = Ret (choice_seg_level c) /\
  run s (segment_tissue_level sl downsample)
  = (Ok (choice_seg_level c, choice_seg_spacing c), s').
Proof.
  intros Hc H. unfold load_segmentation_levels in H.
  apply run_bind_Ok in H as (ms0 & s1 & H0 & H).
  apply run_index_Ok in H0 as [-> H0].
  apply run_bind_Ok in H as (seg_level & s2 & Hseg & H).
  unfold get_best_level_for_downsample_custom in Hseg.
  apply run_np_argmin_Ok in Hseg as [-> Hseg].
  apply run_bind_Ok in H as (seg_spacing & s3 & Hsp & H).
  apply run_bind_Ok in H as (md & s4 & Hmd & H).
  apply run_py_div_Ok in Hmd as (-> & Hnz0 & ->).
  apply run_bind_Ok in H as (nearest & s5 & Hnear & H).
  apply run_np_argmin_Ok in Hnear as [-> Hnear].
  apply run_bind_Ok in H as (ms & s6 & Hms & H).
  apply run_index_Ok in Hms as [-> Hms]. rewrite py_index_nat in Hms.
  apply run_bind_Ok in H as (scale & s7 & Hscale & H).
  apply run_py_div_Ok in Hscale as (-> & Hnz & ->).
  apply run_bind_Ok in H as ([[level' ms'] scale'] & s8 & Hwalk & H).
  cbn [run] in H. injection H as <- <-.
  destruct (run_walk_to_finer_mask _ _ _ _ _ _ _ _ _ Hms Hnz Hwalk) as (-> & _).
  cbn [choice_seg_level choice_seg_spacing]. split; [done|].
  unfold segment_tissue_level, get_best_level_for_downsample_custom.
  rewrite Hseg. cbn [bind]. by rewrite run_bind, Hsp.
Qed.

(** X20: [load_segmentation] takes as segmentation level the level
    nearest to the requested downsample, the level [segment_tissue] takes,
    and memoizes its spacing alike. It reads the mask at the mask level
    nearest to that spacing or, as long as the mask would have to be
    enlarged ([scale < 1]), at the next finer mask level: the scale it
    settles on is the float [seg_spacing / mask_spacing], and it is at
    least 1 unless mask level 0 was reached. *)
Theorem load_segmentation_levels_result sl m downsample s c s' :
  cache_ok sl s ->
  run s (load_segmentation_levels sl m downsample) = (Ok c, s') ->
  get_best_level_for_downsample_custom sl downsample = Ret (choice_seg_level c) /\
  spacings sl !! choice_seg_level c = Some (choice_seg_spacing c) /\
  run s (segment_tissue_level sl downsample)
  = (Ok (choice_seg_level c, choice_seg_spacing c), s') /\
  mask_spacings m !! choice_mask_level c = Some (choice_mask_spacing c) /\
  choice_scale c = binary64 (choice_seg_spacing c / choice_mask_spacing c) /\
  (choice_mask_level c = 0%nat \/ (1 <= choice_scale c)%Q) /\
  exists mask_spacing_0 (nearest : nat),
    mask_spacings m !! 0%nat = Some mask_spacing_0 /\
    np_argmin (map (fun x =>
                      Qabs (fsub x (binary64 (choice_seg_spacing c / mask_spacing_0))))
                   (mask_downsamplings m)) = Ret nearest /\
    (choice_mask_level c <= nearest)%nat /\
    forall (i : nat) v, (choice_mask_level c < i <= nearest)%nat ->
      mask_spacings m !! i = Some v -> (binary64 (choice_seg_spacing c / v) < 1)%Q.
Proof.
  intros Hc H. unfold load_segmentation_levels in H.
  apply run_bind_Ok in H as (ms0 & s1 & H0 & H).
  apply run_index_Ok in H0 as [-> H0].
  change 0 with (Z.of_nat 0) in H0. rewrite py_index_nat in H0.
  apply run_bind_Ok in H as (seg_level & s2 & Hseg & H).
  unfold get_best_level_for_downsample_custom in Hseg.
  apply run_np_argmin_Ok in Hseg as [-> Hseg].
  apply run_bind_Ok in H as (seg_spacing & s3 & Hsp & H).
  pose proof Hsp as Hsp'.
  apply run_get_level_spacing_Ok in Hsp' as [Hsp' _]; [|done].
  rewrite py_index_nat in Hsp'.
  apply run_bind_Ok in H as (md & s4 & Hmd & H).
  apply run_py_div_Ok in Hmd as (-> & _ & ->).
  apply run_bind_Ok in H as (nearest & s5 & Hnear & H).
  apply run_np_argmin_Ok in Hnear as [-> Hnear].
  apply run_bind_Ok in H as (ms & s6 & Hms & H).
  apply run_index_Ok in Hms as [-> Hms]. rewrite py_index_nat in Hms.
  apply run_bind_Ok in H as (scale & s7 & Hscale & H).
  apply run_py_div_Ok in Hscale as (-> & Hnz & ->).
  apply run_bind_Ok in H as ([[level' ms'] scale'] & s8 & Hwalk & H).
  cbn [run] in H. injection H as <- <-.
  destruct (run_walk_to_finer_mask _ _ _ _ _ _ _ _ _ Hms Hnz Hwalk)
    as (-> & Hle & Hms' & _ & Hsc & Hend & Hpassed).
  cbn [choice_seg_level choice_seg_spacing choice_mask_level choice_mask_spacing
       choice_scale].
  split_and!; try done.
  - unfold segment_tissue_level, get_best_level_for_downsample_custom.
    rewrite Hseg. cbn [bind]. by rewrite run_bind, Hsp.
  - by exists ms0, nearest.
Qed.

Lemma load_segmentation_levels_result_witness :
  get_best_level_for_downsample_custom slide_1_4_16 16
  = Ret (choice_seg_level choice_below_coarse_top) /\
  spacings slide_1_4_16 !! choice_seg_level choice_below_coarse_top
  = Some (choice_seg_spacing choice_below_coarse_top) /\
  run initial_state (segment_tissue_level slide_1_4_16 16)
  = (Ok (choice_seg_level choice_below_coarse_top,
         choice_seg_spacing choice_below_coarse_top),
     snd (run initial_state
            (load_segmentation_levels slide_1_4_16 mask_with_coarse_top 16))) /\
  mask_spacings mask_with_coarse_top !! choice_mask_level choice_below_coarse_top
  = Some (choice_mask_spacing choice_below_coarse_top) /\
  choice_scale choice_below_coarse_top
  = binary64 (choice_seg_spacing choice_below_coarse_top
              / choice_mask_spacing choice_below_coarse_top) /\
  (choice_mask_level choice_below_coarse_top = 0%nat
   \/ (1 <= choice_scale choice_below_coarse_top)%Q) /\
  exists mask_spacing_0 (nearest : nat),
    mask_spacings mask_with_coarse_top !! 0%nat = Some mask_spacing_0 /\
    np_argmin (map (fun x =>
                      Qabs (fsub x (binary64 (choice_seg_spacing choice_below_coarse_top
                                              / mask_spacing_0))))
                   (mask_downsamplings mask_with_coarse_top)) = Ret nearest /\
    (choice_mask_level choice_below_coarse_top <= nearest)%nat /\
    forall (i : nat) v,
      (choice_mask_level choice_below_coarse_top < i <= nearest)%nat ->
      mask_spacings mask_with_coarse_top !! i = Some v ->
      (binary64 (choice_seg_spacing choice_below_coarse_top / v) < 1)%Q.
Proof.
  apply (load_segmentation_levels_result slide_1_4_16 mask_with_coarse_top 16
           initial_state choice_below_coarse_top).
  - apply cache_ok_initial.
  - reflexivity.
Defined.

(** ** The order of the detected contours *)

Lemma map_prog_index_sublist {A} (P : Z -> bool) (pre cs : list A) (ps : list Z) v :
  length cs = length ps ->
  exists l,
    map_prog (index (pre ++ cs))
             (List.filter P (flatnonzero_eq_from (Z.of_nat (length pre)) ps v))
    = Ret l /\ sublist l cs.
Proof.
  revert pre cs. induction ps as [|p ps IH]; intros pre cs Hlen.
  - destruct cs; [|done]. by exists [].
  - destruct cs as [|c cs]; [done|]. simpl in Hlen.
    destruct (IH (pre ++ [c]) cs ltac:(lia)) as (l & Hl & Hsub).
    rewrite <- app_assoc, length_app in Hl. simpl in Hl.
    replace (Z.of_nat (length pre + 1)) with (Z.of_nat (length pre) + 1) in Hl by lia.
    cbn [flatnonzero_eq_from]. destruct (p =? v); cbn [List.filter].
    + destruct (P (Z.of_nat (length pre))).
      * exists (c :: l). cbn [map_prog]. rewrite index_app_r. cbn [bind].
        rewrite Hl. split; [done | by apply sublist_skip].
      * exists l. split; [done | by apply sublist_cons].
    + exists l. split; [done | by apply sublist_cons].
Qed.

(** X21: the contours of [detect_contours] come in the order in which
    [findContours] lists them: they are a selection of the contours
    found, none twice and none out of turn, each scaled to level 0 by the
    downsample of the segmentation level ([findContours] returning one
    hierarchy row per contour when it returns a hierarchy). *)
Theorem detect_contours_keeps_order {cv : Cv2} sl target tol fp s contours holes s' :
  (forall rows,
     snd (findContours (binary_mask sl)) = Some rows ->
     length (fst (findContours (binary_mask sl))) = length rows) ->
  run s (detect_contours sl target tol fp) = (Ok (contours, holes), s') ->
  exists foreground target_scale,
    sublist foreground (fst (findContours (binary_mask sl))) /\
    py_index (level_downsamples sl) (seg_level sl) = Some target_scale /\
    scaleContourDim (map Some foreground) target_scale = Ret contours.
Proof.
  intros Hlen Hrun. unfold detect_contours in Hrun.
  apply run_bind_Ok in Hrun as ([spacing_level within] & s1 & _ & Hrun).
  apply run_bind_Ok in Hrun as (fp' & s2 & _ & Hrun).
  apply run_bind_Ok in Hrun as (target_scale & s3 & Hts & Hrun).
  apply run_index_Ok in Hts as [-> Hts].
  destruct (findContours (binary_mask sl)) as [found [hierarchy|]];
    [|by apply run_bind_Ok in Hrun as (rows & s3' & Hrows & _)].
  cbn [fst snd] in Hlen. specialize (Hlen hierarchy eq_refl).
  cbn [bind] in Hrun.
  apply run_bind_Ok in Hrun as ([fg hcs] & s4 & Hfilter & Hrun).
  apply run_bind_Ok in Hrun as (cs & s5 & Hcs & Hrun).
  apply run_bind_Ok in Hrun as (hs & s6 & _ & Hrun).
  cbn [run] in Hrun. injection Hrun as <- <- <-.
  exists fg, target_scale. split_and!; [|done|].
  - unfold filter_contours in Hfilter.
    apply run_bind_Ok in Hfilter as ([filtered all_holes] & t1 & Hsel & Hfilter).
    apply run_bind_Ok in Hfilter as (fg' & t2 & Hfg & Hfilter).
    apply run_bind_Ok in Hfilter as (hcs' & t3 & _ & Hfilter).
    cbn [run] in Hfilter. injection Hfilter as <- <- <-.
    set (parents := map snd
                      (map (fun r : hierarchy_row =>
                              let '(_, _, first_child, parent) := r in
                              (first_child, parent)) hierarchy)) in *.
    assert (Hlen' : length found = length parents).
    { unfold parents. by rewrite !length_map. }
    unfold foreground_indices in Hsel. fold parents in Hsel.
    rewrite (select_foreground_filter _ _ _ _ _ _ Hlen'
               (flatnonzero_eq_valid _ _ _ Hlen')) in Hsel.
    cbn [run app] in Hsel. injection Hsel as <- <- <-.
    destruct (map_prog_index_sublist (retains found parents fp') [] found parents (-1)
                Hlen') as (l & Hl & Hsub).
    cbn [app length] in Hl. change (Z.of_nat 0) with 0 in Hl.
    unfold flatnonzero_eq in Hfg. rewrite Hl in Hfg.
    cbn [run] in Hfg. by injection Hfg as <- <-.
  - rewrite scaleContourDim_Some in Hcs |- *.
    cbn [run] in Hcs. by injection Hcs as <- <-.
Qed.

Lemma detect_contours_keeps_order_witness :
  exists foreground target_scale,
    sublist foreground (fst two_blobs) /\
    py_index (level_downsamples slide_1_4_32) (seg_level slide_1_4_32)
    = Some target_scale /\
    scaleContourDim (cv := cv2_finding two_blobs) (map Some foreground) target_scale
    = Ret [[(0, 0); (96, 0); (96, 32); (0, 32)];
           [(320, 320); (448, 320); (448, 384); (320, 384)]].
Proof.
  apply (detect_contours_keeps_order (cv := cv2_finding two_blobs)
           slide_1_4_32 1 0 filter_2_10 initial_state _ [[]; []]
           (snd (run initial_state
                   (detect_contours (cv := cv2_finding two_blobs)
                      slide_1_4_32 1 0 filter_2_10)))).
  - intros rows [= <-]. reflexivity.
  - reflexivity.
Defined.

(** ** A request without workers *)

(** X22: with [num_workers <= 0] [get_tile_coordinates] returns no
    result, whatever the slide holds: the executor cannot be made, also
    when no contour is retained. *)
Theorem get_tile_coordinates_needs_a_worker {cv : Cv2} {tc : TissueChecker}
    sl tp fp num_workers s :
  num_workers <= 0 ->
  forall out, fst (run s (get_tile_coordinates sl tp fp num_workers)) <> Ok out.
Proof.
  intros Hn out Hout.
  destruct (run s (get_tile_coordinates sl tp fp num_workers)) as [o s'] eqn:Hrun.
  cbn [fst] in Hout. subst o.
  destruct (run_get_tile_coordinates_Ok _ _ _ _ _ _ _ Hrun)
    as (t0 & s1 & contours & holes & s2 & results & merged & _ & _ & Hpos & _).
  lia.
Qed.

Lemma get_tile_coordinates_needs_a_worker_witness :
  fst (run initial_state
         (get_tile_coordinates (cv := cv2_finding two_blobs) (tc := keep_every_tile)
            slide_1_4_32 tiling_16_at_1 filter_2_10 0))
  <> Ok ([], [], None, None, 64).
Proof.
  apply (get_tile_coordinates_needs_a_worker (cv := cv2_finding two_blobs)
           (tc := keep_every_tile) slide_1_4_32 tiling_16_at_1 filter_2_10 0
           initial_state).
  lia.
Defined.

(** Without a worker the request on the slide with two blobs ends with
    the [ValueError] of the executor. *)
Example tile_coordinates_without_worker :
  fst (run initial_state
         (get_tile_coordinates (cv := cv2_finding two_blobs) (tc := keep_every_tile)
            slide_1_4_32 tiling_16_at_1 filter_2_10 0))
  = Exc ValueError.
Proof. vm_compute. reflexivity. Qed.

(** ** A slide that was opened *)

Lemma run_map_prog_state {A B} (f : A -> prog B) l s ys s' :
  (forall a s1 b s2, run s1 (f a) = (Ok b, s2) -> s2 = s1) ->
  run s (map_prog f l) = (Ok ys, s') -> s' = s.
Proof.
  intros Hf. revert s ys. induction l as [|a l IH]; intros s ys H.
  - cbn [map_prog run] in H. by injection H as _ <-.
  - cbn [map_prog] in H.
    apply run_bind_Ok in H as (b & s1 & Hb & H).
    apply Hf in Hb as ->.
    apply run_bind_Ok in H as (bs & s2 & Hbs & H).
    cbn [run] in H. injection H as _ <-. by apply (IH s bs).
Qed.

Lemma run_get_downsamples_Ok dims s l s' :
  run s (get_downsamples dims) = (Ok l, s') -> s' = s /\ length l = length dims.
Proof.
  unfold get_downsamples. intros H.
  apply run_bind_Ok in H as (dim_0 & s1 & H0 & H).
  apply run_index_Ok in H0 as [-> _].
  split; [|by apply run_map_prog_length in H].
  apply run_map_prog_state in H; [done|].
  intros d u b u' Hb.
  apply run_bind_Ok in Hb as (dx & u1 & Hdx & Hb).
  apply run_py_div_Ok in Hdx as (-> & _ & _).
  apply run_bind_Ok in Hb as (dy & u2 & Hdy & Hb).
  apply run_py_div_Ok in Hdy as (-> & _ & _).
  cbn [run] in Hb. by injection Hb as _ <-.
Qed.

Lemma run_get_spacings_Ok spacing_at_lvl_0 native s l s' :
  run s (get_spacings spacing_at_lvl_0 native) = (Ok l, s') -> s' = s.
Proof.
  unfold get_spacings. destruct spacing_at_lvl_0 as [v|].
  - intros H. apply run_map_prog_state in H; [done|].
    intros n u b u' Hb.
    apply run_bind_Ok in Hb as (base & u1 & Hbase & Hb).
    apply run_index_Ok in Hbase as [-> _].
    by apply run_py_div_Ok in Hb as (-> & _ & _).
  - cbn [run]. by intros [= _ <-].
Qed.

Lemma run_segment_tissue_level_Ok sl downsample s (seg_level : nat) seg_spacing s' :
  run s (segment_tissue_level sl downsample) = (Ok (seg_level, seg_spacing), s') ->
  get_best_level_for_downsample_custom sl downsample = Ret seg_level /\
  run s (get_level_spacing sl (Z.of_nat seg_level)) = (Ok seg_spacing, s').
Proof.
  unfold segment_tissue_level. intros H.
  apply run_bind_Ok in H as (k & s1 & Hk & H).
  unfold get_best_level_for_downsample_custom in *.
  apply run_np_argmin_Ok in Hk as [-> Hk].
  apply run_bind_Ok in H as (v & s2 & Hv & H).
  cbn [run] in H. injection H as <- <- <-. by split.
Qed.

(** X23: a slide that opens is well formed for the tiling: it has one
    pair of downsamples per level, its segmentation level is the level
    nearest to the requested downsample and is a level of both the
    downsamples and the spacings, so that [level_downsamples[seg_level]]
    is defined, and the spacing of that level is the one entry of the
    memo, which agrees with the slide. *)
Theorem open_slide_well_formed native shapes spacing_at_lvl_0 downsample
    mask_levels segmented s sl s' :
  run (with_new_slide s)
      (open_slide native shapes spacing_at_lvl_0 downsample mask_levels segmented)
  = (Ok sl, s') ->
  level_dimensions sl = shapes /\
  length (level_downsamples sl) = length shapes /\
  (exists k : nat,
     seg_level sl = Z.of_nat k /\
     get_best_level_for_downsample_custom sl downsample = Ret k /\
     is_Some (level_downsamples sl !! k) /\
     exists v, spacings sl !! k = Some v /\
               level_spacing_cache s' = {[ Z.of_nat k := v ]}) /\
  cache_ok sl s' /\ same_output s s'.
Proof.
  intros H. unfold open_slide in H.
  apply run_bind_Ok in H as (sp & s1 & Hsp & H).
  apply run_get_spacings_Ok in Hsp as ->.
  apply run_bind_Ok in H as (lds & s2 & Hlds & H).
  apply run_get_downsamples_Ok in Hlds as [-> Hlen].
  set (unsegmented := {| spacings := sp; level_dimensions := shapes;
                         level_downsamples := lds; seg_level := 0;
                         binary_mask := [] |}) in *.
  apply run_bind_Ok in H as (k & s3 & Hk & H).
  cbn [run] in H. injection H as <- <-.
  cbn [level_dimensions level_downsamples seg_level spacings].
  assert (Hseg : get_best_level_for_downsample_custom unsegmented downsample = Ret k /\
                 exists v, run (with_new_slide s)
                               (get_level_spacing unsegmented (Z.of_nat k))
                           = (Ok v, s3)).
  { destruct mask_levels as [m|].
    - apply run_bind_Ok in Hk as (c & s4 & Hc & Hk).
      cbn [run] in Hk. injection Hk as <- <-.
      assert (Hok : cache_ok unsegmented (with_new_slide s)).
      { intros l v. unfold with_new_slide. simpl. by rewrite lookup_empty. }
      destruct (load_segmentation_levels_levels _ _ _ _ _ _ Hok Hc) as [Hbest Hseg].
      apply run_segment_tissue_level_Ok in Hseg as [_ Hseg]. split; [done|].
      by exists (choice_seg_spacing c).
    - apply run_bind_Ok in Hk as ([k' v] & s4 & Hc & Hk).
      cbn [run] in Hk. injection Hk as <- <-.
      apply run_segment_tissue_level_Ok in Hc as [Hbest Hseg]. split; [done|].
      by exists v. }
  destruct Hseg as [Hbest (v & Hv)].
  apply run_get_level_spacing_inv in Hv as [[Hc _] | (_ & Hidx & ->)].
  { unfold with_new_slide in Hc. simpl in Hc. by rewrite lookup_empty in Hc. }
  rewrite py_index_nat in Hidx. cbn [spacings unsegmented] in Hidx.
  split; [done|]. split; [done|]. split.
  - exists k. split; [done|]. split; [exact Hbest|]. split.
    + unfold get_best_level_for_downsample_custom in Hbest.
      apply np_argmin_Ret in Hbest as (x & Hx & _).
      rewrite lookup_map in Hx. cbn [level_downsamples unsegmented] in Hx.
      destruct (lds !! k); [by eexists | done].
    + exists v. split; [done|]. unfold with_new_slide. simpl.
      apply insert_empty.
  - split.
    + intros l w. unfold with_new_slide. simpl.
      rewrite insert_empty. intros Hl.
      apply lookup_singleton_Some in Hl as [<- <-].
      by rewrite py_index_nat.
    + by unfold same_output, with_new_slide.
Qed.

Lemma open_slide_well_formed_witness :
  exists sl s',
    run (with_new_slide initial_state)
        (open_slide [1 # 4; 1; 4]%Q [(1600, 1600); (400, 400); (100, 100)]
           None 16 None [])
    = (Ok sl, s') /\
    level_dimensions sl = [(1600, 1600); (400, 400); (100, 100)] /\
    length (level_downsamples sl) = 3%nat /\
    (exists k : nat,
       seg_level sl = Z.of_nat k /\
       get_best_level_for_downsample_custom sl 16 = Ret k /\
       is_Some (level_downsamples sl !! k) /\
       exists v, spacings sl !! k = Some v /\
                 level_spacing_cache s' = {[ Z.of_nat k := v ]}) /\
    cache_ok sl s' /\ same_output initial_state s'.
Proof.
  eexists _, _. split; [vm_compute; reflexivity|].
  apply (open_slide_well_formed [1 # 4; 1; 4]%Q
           [(1600, 1600); (400, 400); (100, 100)] None 16 None [] initial_state).
  vm_compute. reflexivity.
Defined.

(** Opened from the spacings and dimensions of [slide_1_4_16] with a
    downsample of 16, the slide is segmented at level 2. *)
Example open_slide_1_4_16 :
  match fst (run (with_new_slide initial_state)
               (open_slide [1 # 4; 1; 4]%Q
                  [(1600, 1600); (400, 400); (100, 100)] None 16 None [])) with
  | Ok sl => seg_level sl = 2
  | _ => False
  end.
Proof. vm_compute. reflexivity. Qed.
